(** * Blob storage layer of stdlib-golang-api: a shallow embedding

    The two backends of [internal/blob] are embedded as state-passing
    functions: [FileSystemStore] (filesystem.go) over a model of the
    operating system's file tree, and [S3Store] (blob.go) over a model of
    the remote bucket reached through the SDK client.  The layout of the
    file is: Go values and errors, [path/filepath], [crypto/md5], the
    operating-system model, the local backend, the networked backend, and
    then the lemmas and theorems about them. *)

From Stdlib Require Import ZArith Ascii String List Lia.
From stdpp Require Import base option list gmap strings pretty sorting.

Local Open Scope Z_scope.
Local Open Scope stdpp_scope.

(* ===================================================================== *)
(** * Go strings and byte slices *)
(* ===================================================================== *)

Abbreviation bytes := (list Byte.byte).

(** [[]byte(s)] and [string(b)]. *)
Definition bytes_of_string (s : string) : bytes := String.list_byte_of_string s.

(** [strings.HasPrefix(s, prefix)]. *)
Definition HasPrefix (s prefix : string) : bool := String.prefix prefix s.

(** Go's [<] and [<=] on strings: byte-wise lexicographic order. *)
Definition str_lt (a b : string) : bool := String.ltb a b.
Definition str_le (a b : string) : bool := String.leb a b.

(** [strings.Join(elems, sep)]. *)
Definition Join_strings (elems : list string) (sep : string) : string :=
  String.concat sep elems.

(** Insertion sort by a boolean order; [sort.Slice] and the lexical order
    of a directory walk are both instances.  [le] is the "not after"
    relation, so equal elements keep their relative order. *)
Fixpoint insert_by {A} (le : A → A → bool) (x : A) (l : list A) : list A :=
  match l with
  | [] => [x]
  | y :: r => if le x y then x :: y :: r else y :: insert_by le x r
  end.

Fixpoint sort_by {A} (le : A → A → bool) (l : list A) : list A :=
  match l with
  | [] => []
  | x :: r => insert_by le x (sort_by le r)
  end.

(* ===================================================================== *)
(** * path/filepath (Unix) *)
(* ===================================================================== *)

Module filepath.

Definition Separator : ascii := "/"%char.

Definition IsPathSeparator (c : ascii) : bool := Ascii.eqb c Separator.

(** The path elements of [p]: [strings.Split(p, "/")]. *)
Fixpoint elements (p : string) : list string :=
  match p with
  | EmptyString => [""]
  | String c r =>
      if IsPathSeparator c then "" :: elements r
      else match elements r with
           | [] => [String c ""]
           | e :: es => String c e :: es
           end
  end.

(** [filepath.IsAbs]: on Unix, the path begins with a separator. *)
Definition IsAbs (p : string) : bool :=
  match p with
  | String c _ => IsPathSeparator c
  | EmptyString => false
  end.

(** The main loop of [Clean], one path element at a time.  [dotdot] counts
    the leading [..] elements already written to the output (they can never
    be backtracked over), [out] holds the real elements written after
    them, last one first.  Empty elements and [.] are dropped; [..] removes
    the last real element when there is one, else, on a relative path, is
    appended to the output, and on a rooted path is dropped. *)
Fixpoint clean_loop (rooted : bool) (els : list string)
    (dotdot : nat) (out : list string) : list string :=
  match els with
  | [] => replicate dotdot ".." ++ reverse out
  | e :: r =>
      if decide (e = "" ∨ e = ".") then clean_loop rooted r dotdot out
      else if decide (e = "..") then
        match out with
        | _ :: out' => clean_loop rooted r dotdot out'
        | [] => if rooted then clean_loop rooted r dotdot []
                else clean_loop rooted r (S dotdot) []
        end
      else clean_loop rooted r dotdot (e :: out)
  end.

(** [filepath.Clean]. *)
Definition Clean (p : string) : string :=
  if decide (p = "") then "."
  else
    let rooted := IsAbs p in
    let out := Join_strings (clean_loop rooted (elements p) 0 []) "/" in
    if rooted then "/" +:+ out
    else if decide (out = "") then "." else out.

(** [filepath.Join] of two elements, the first one non-empty. *)
Definition Join (a b : string) : string :=
  if decide (a = "") then (if decide (b = "") then "" else Clean b)
  else if decide (b = "") then Clean a
  else Clean (a +:+ "/" +:+ b).

(** Everything up to and including the last separator of [p]. *)
Fixpoint upto_last_sep (p : string) : string :=
  match p with
  | EmptyString => ""
  | String c r =>
      if existsb IsPathSeparator (String.list_ascii_of_string r)
      then String c (upto_last_sep r)
      else if IsPathSeparator c then String c "" else ""
  end.

(** [filepath.Dir]. *)
Definition Dir (p : string) : string := Clean (upto_last_sep p).

(** The extension of [p]: the suffix of its last element from the last
    dot, or [""] when there is none ([filepath.Ext]). *)
Fixpoint Ext (p : string) : string :=
  match p with
  | EmptyString => ""
  | String c r =>
      let rest := String.list_ascii_of_string r in
      if existsb (λ d, IsPathSeparator d || Ascii.eqb d ".") rest
      then Ext r
      else if Ascii.eqb c "." then p else ""
  end.

(** [filepath.ToSlash] is the identity where the separator is a slash. *)
Definition ToSlash (p : string) : string := p.

End filepath.

(* ===================================================================== *)
(** * crypto/md5 and encoding/hex *)
(* ===================================================================== *)

Module md5.

Definition mask32 : Z := 0xffffffff.

(** Addition and left rotation of 32-bit words, wrap-around written out. *)
Definition add32 (a b : Z) : Z := Z.land (a + b) mask32.
Definition not32 (a : Z) : Z := Z.lxor a mask32.
Definition rotl32 (x n : Z) : Z :=
  Z.land (Z.lor (Z.shiftl x n) (Z.shiftr x (32 - n))) mask32.

Definition K : list Z :=
  [ 0xd76aa478; 0xe8c7b756; 0x242070db; 0xc1bdceee;
    0xf57c0faf; 0x4787c62a; 0xa8304613; 0xfd469501;
    0x698098d8; 0x8b44f7af; 0xffff5bb1; 0x895cd7be;
    0x6b901122; 0xfd987193; 0xa679438e; 0x49b40821;
    0xf61e2562; 0xc040b340; 0x265e5a51; 0xe9b6c7aa;
    0xd62f105d; 0x02441453; 0xd8a1e681; 0xe7d3fbc8;
    0x21e1cde6; 0xc33707d6; 0xf4d50d87; 0x455a14ed;
    0xa9e3e905; 0xfcefa3f8; 0x676f02d9; 0x8d2a4c8a;
    0xfffa3942; 0x8771f681; 0x6d9d6122; 0xfde5380c;
    0xa4beea44; 0x4bdecfa9; 0xf6bb4b60; 0xbebfbc70;
    0x289b7ec6; 0xeaa127fa; 0xd4ef3085; 0x04881d05;
    0xd9d4d039; 0xe6db99e5; 0x1fa27cf8; 0xc4ac5665;
    0xf4292244; 0x432aff97; 0xab9423a7; 0xfc93a039;
    0x655b59c3; 0x8f0ccc92; 0xffeff47d; 0x85845dd1;
    0x6fa87e4f; 0xfe2ce6e0; 0xa3014314; 0x4e0811a1;
    0xf7537e82; 0xbd3af235; 0x2ad7d2bb; 0xeb86d391 ].

Definition shifts : list Z :=
  [ 7; 12; 17; 22; 7; 12; 17; 22; 7; 12; 17; 22; 7; 12; 17; 22;
    5;  9; 14; 20; 5;  9; 14; 20; 5;  9; 14; 20; 5;  9; 14; 20;
    4; 11; 16; 23; 4; 11; 16; 23; 4; 11; 16; 23; 4; 11; 16; 23;
    6; 10; 15; 21; 6; 10; 15; 21; 6; 10; 15; 21; 6; 10; 15; 21 ].

Definition byte_val (b : Byte.byte) : Z := Z.of_N (Byte.to_N b).
Definition byte_of (z : Z) : Byte.byte :=
  default Byte.x00 (Byte.of_N (Z.to_N (Z.land z 0xff))).

(** Little-endian encoding of the low [n] bytes of [z]. *)
Fixpoint le_bytes (n : nat) (z : Z) : bytes :=
  match n with
  | O => []
  | S n' => byte_of z :: le_bytes n' (Z.shiftr z 8)
  end.

Fixpoint le_words (bs : bytes) : list Z :=
  match bs with
  | b0 :: b1 :: b2 :: b3 :: r =>
      (byte_val b0 + Z.shiftl (byte_val b1) 8 + Z.shiftl (byte_val b2) 16
       + Z.shiftl (byte_val b3) 24) :: le_words r
  | _ => []
  end.

(** The message followed by 0x80, zeros up to 56 modulo 64, and the bit
    length as 8 little-endian bytes. *)
Definition pad (msg : bytes) : bytes :=
  let len := Z.of_nat (length msg) in
  msg ++ [Byte.x80] ++ replicate (Z.to_nat ((55 - len) mod 64)) Byte.x00
      ++ le_bytes 8 (Z.land (8 * len) 0xffffffffffffffff).

Fixpoint blocks (n : nat) (ws : list Z) : list (list Z) :=
  match n with
  | O => []
  | S n' => take 16 ws :: blocks n' (drop 16 ws)
  end.

Definition step (M : list Z) (st : Z * Z * Z * Z) (i : nat) : Z * Z * Z * Z :=
  let '(a, b, c, d) := st in
  let iz := Z.of_nat i in
  let '(f, g) :=
    if iz <? 16 then (Z.lor (Z.land b c) (Z.land (not32 b) d), iz)
    else if iz <? 32 then
      (Z.lor (Z.land d b) (Z.land (not32 d) c), (5 * iz + 1) mod 16)
    else if iz <? 48 then (Z.lxor b (Z.lxor c d), (3 * iz + 5) mod 16)
    else (Z.lxor c (Z.lor b (not32 d)), (7 * iz) mod 16) in
  let f' := add32 (add32 (add32 f a) (default 0 (K !! i)))
                  (default 0 (M !! Z.to_nat g)) in
  (d, add32 b (rotl32 f' (default 0 (shifts !! i))), b, c).

Definition block (st : Z * Z * Z * Z) (M : list Z) : Z * Z * Z * Z :=
  let '(a0, b0, c0, d0) := st in
  let '(a, b, c, d) := foldl (step M) st (seq 0 64) in
  (add32 a0 a, add32 b0 b, add32 c0 c, add32 d0 d).

(** [md5.Sum]: the 16-byte digest of [msg]. *)
Definition Sum (msg : bytes) : bytes :=
  let ws := le_words (pad msg) in
  let '(a, b, c, d) :=
    foldl block (0x67452301, 0xefcdab89, 0x98badcfe, 0x10325476)
          (blocks (length ws / 16)%nat ws) in
  le_bytes 4 a ++ le_bytes 4 b ++ le_bytes 4 c ++ le_bytes 4 d.

End md5.

Module hex.

Definition digit (n : Z) : ascii :=
  default "0"%char (String.get (Z.to_nat n) "0123456789abcdef").

(** [hex.EncodeToString]: two lower-case digits per byte. *)
Fixpoint EncodeToString (bs : bytes) : string :=
  match bs with
  | [] => ""
  | b :: r =>
      let v := md5.byte_val b in
      String (digit (Z.shiftr v 4)) (String (digit (Z.land v 0xf)) (EncodeToString r))
  end.

End hex.

(* ===================================================================== *)
(** * Go errors *)
(* ===================================================================== *)

(** The sentinel values: the [errors.New] variables of package [domain]
    that the blob layer uses, and those of [context], [io/fs] and [io]. *)
Inductive sentinel :=
  | ErrInvalidInput
  | ErrBlobNotFound
  | ErrBlobUploadFailed
  | ErrBlobDownloadFailed
  | ErrBlobDeleteFailed
  | ErrInvalidBlobKey
  | Canceled
  | DeadlineExceeded
  | ErrNotExist
  | ErrShortWrite.

Global Instance sentinel_eq_dec : EqDecision sentinel.
Proof. solve_decision. Defined.

Inductive Errno :=
  | ENOENT | ENOTDIR | EISDIR | ENOTEMPTY | EEXIST | EACCES | EIO | ENOSPC.

Global Instance Errno_eq_dec : EqDecision Errno.
Proof. solve_decision. Defined.

(** An error value.  [PathError] is [*fs.PathError] around a
    [syscall.Errno]; [GenericAPIError], [TypesNotFound] and [TypesNoSuchKey]
    are the SDK's API errors ([smithy.GenericAPIError], [*types.NotFound],
    [*types.NoSuchKey], the last two with their optional code override);
    [OperationError] is the SDK's wrapper around the error of a call;
    [errorString] is an error that is only a message ([errors.New] called
    elsewhere, [fmt.Errorf] without [%w]); [wrapError] is what [fmt.Errorf]
    returns for a format with [%w]: the formatted message and the operand
    of [%w]. *)
Inductive error :=
  | Sentinel (s : sentinel)
  | PathError (op path : string) (e : Errno)
  | GenericAPIError (code message : string)
  | TypesNotFound (codeOverride : option string)
  | TypesNoSuchKey (codeOverride : option string)
  | OperationError (operation : string) (inner : error)
  | errorString (msg : string)
  | wrapError (msg : string) (wrapped : error).

Module errors.

Definition sentinel_text (s : sentinel) : string :=
  match s with
  | ErrInvalidInput => "invalid input"
  | ErrBlobNotFound => "blob not found"
  | ErrBlobUploadFailed => "blob upload failed"
  | ErrBlobDownloadFailed => "blob download failed"
  | ErrBlobDeleteFailed => "blob delete failed"
  | ErrInvalidBlobKey => "invalid blob key"
  | Canceled => "context canceled"
  | DeadlineExceeded => "context deadline exceeded"
  | ErrNotExist => "file does not exist"
  | ErrShortWrite => "short write"
  end.

Definition errno_text (e : Errno) : string :=
  match e with
  | ENOENT => "no such file or directory"
  | ENOTDIR => "not a directory"
  | EISDIR => "is a directory"
  | ENOTEMPTY => "directory not empty"
  | EEXIST => "file exists"
  | EACCES => "permission denied"
  | EIO => "input/output error"
  | ENOSPC => "no space left on device"
  end.

(** [syscall.Errno.Is]: the only errno that is [fs.ErrNotExist] is
    [ENOENT]. *)
Definition errno_is (e : Errno) (target : sentinel) : bool :=
  match target, e with
  | ErrNotExist, ENOENT => true
  | _, _ => false
  end.

(** [err.Error()]. *)
Fixpoint Error (err : error) : string :=
  match err with
  | Sentinel s => sentinel_text s
  | PathError op path e => op +:+ " " +:+ path +:+ ": " +:+ errno_text e
  | GenericAPIError code message => "api error " +:+ code +:+ ": " +:+ message
  | TypesNotFound _ => "NotFound: "
  | TypesNoSuchKey _ => "NoSuchKey: "
  | OperationError operation inner =>
      "operation error S3: " +:+ operation +:+ ", " +:+ Error inner
  | errorString msg => msg
  | wrapError msg _ => msg
  end.

(** [errors.Is(err, target)] for a sentinel target: walk the [Unwrap]
    chain, comparing by identity and asking [Is] methods. *)
Fixpoint Is (err : error) (target : sentinel) : bool :=
  match err with
  | Sentinel s => bool_decide (s = target)
  | PathError _ _ e => errno_is e target
  | OperationError _ inner => Is inner target
  | wrapError _ inner => Is inner target
  | _ => false
  end.

(** [errors.As(err, &apiErr)] for [apiErr smithy.APIError]: the first
    error of the chain that implements the interface, given by its
    [ErrorCode()]. *)
Fixpoint AsAPIError (err : error) : option string :=
  match err with
  | GenericAPIError code _ => Some code
  | TypesNotFound o => Some (default "NotFound" o)
  | TypesNoSuchKey o => Some (default "NoSuchKey" o)
  | OperationError _ inner => AsAPIError inner
  | wrapError _ inner => AsAPIError inner
  | _ => None
  end.

(** [errors.As] for a [*types.NotFound] and a [*types.NoSuchKey] target. *)
Fixpoint AsNotFound (err : error) : bool :=
  match err with
  | TypesNotFound _ => true
  | OperationError _ inner => AsNotFound inner
  | wrapError _ inner => AsNotFound inner
  | _ => false
  end.

Fixpoint AsNoSuchKey (err : error) : bool :=
  match err with
  | TypesNoSuchKey _ => true
  | OperationError _ inner => AsNoSuchKey inner
  | wrapError _ inner => AsNoSuchKey inner
  | _ => false
  end.


End errors.

Module fmt.

(** [fmt.Errorf("%w: %v", kind, cause)]. *)
Definition Errorf_w_v (kind : error) (cause : error) : error :=
  wrapError (errors.Error kind +:+ ": " +:+ errors.Error cause) kind.

(** [fmt.Errorf("%w: <text>", kind)]. *)
Definition Errorf_w_text (kind : error) (text : string) : error :=
  wrapError (errors.Error kind +:+ ": " +:+ text) kind.

(** [fmt.Errorf("<text>: %w", cause)]. *)
Definition Errorf_text_w (text : string) (cause : error) : error :=
  wrapError (text +:+ ": " +:+ errors.Error cause) cause.

(** [fmt.Errorf("%w: %d <text>", kind, n)]. *)
Definition Errorf_w_d_text (kind : error) (n : nat) (text : string) : error :=
  wrapError (errors.Error kind +:+ ": " +:+ pretty n +:+ " " +:+ text) kind.

(** [fmt.Errorf("<text>")]. *)
Definition Errorf_text (text : string) : error := errorString text.

(** [fmt.Sprintf("%s/%s", a, b)]. *)
Definition Sprintf_s_slash_s (a b : string) : string := a +:+ "/" +:+ b.

End fmt.

(** A Go result [(T, error)] of which exactly one side is meaningful. *)
Inductive result (A : Type) :=
  | Ok (a : A)
  | Err (e : error).
Arguments Ok {A} a.
Arguments Err {A} e.

(* ===================================================================== *)
(** * context.Context *)
(* ===================================================================== *)

(** Time is counted in calls made to the outside (operating system or
    network).  A context is never cancelled, or cancelled from some instant
    on, by its deadline or by a call of its cancel function. *)
Record Context := {
  cancel_at : option nat;
  by_deadline : bool;
}.

Definition Background : Context := {| cancel_at := None; by_deadline := false |}.

(** [ctx.Err()] at instant [now]. *)
Definition ctx_Err (ctx : Context) (now : nat) : option error :=
  match cancel_at ctx with
  | Some t =>
      if bool_decide (t ≤ now)%nat
      then Some (Sentinel (if by_deadline ctx then DeadlineExceeded else Canceled))
      else None
  | None => None
  end.

(* ===================================================================== *)
(** * The operating system: a file tree with injected failures *)
(* ===================================================================== *)

(** Every entry of the tree is keyed by its cleaned absolute path.  A
    regular file has a content and a modification instant. *)
Inductive node :=
  | File (content : bytes) (mtime : nat)
  | Directory.

(** The calls a store makes to the operating system, as they are logged. *)
Inductive call :=
  | CallMkdirAll (p : string)
  | CallCreateTemp (dir : string)
  | CallCreate (p : string)
  | CallWrite (p : string)
  | CallClose (p : string)
  | CallRename (old new : string)
  | CallRemove (p : string)
  | CallOpen (p : string)
  | CallRead (p : string)
  | CallStat (p : string)
  | CallInfo (p : string).

(** An injected failure: the errno the call fails with and, for a write,
    how many bytes went through before it. *)
Record fault := { errno : Errno; progress : nat }.

Record world := {
  nodes : gmap string node;
  cwd : string;
  rand : list string;             (* the random names [os.CreateTemp] will draw *)
  faults : list (option fault);   (* the failure, if any, of the n-th call *)
  trace : list call;              (* the calls made so far *)
}.

Definition io (A : Type) : Type := world → A * world.

Global Instance io_ret : MRet io := λ A a w, (a, w).
Global Instance io_bind : MBind io := λ A B f m w, let '(a, w') := m w in f a w'.

Definition clock (w : world) : nat := length (trace w).

Definition fault_now (w : world) : option fault := mjoin (faults w !! clock w).

Definition log (c : call) (w : world) : world :=
  {| nodes := nodes w; cwd := cwd w; rand := rand w; faults := faults w;
     trace := trace w ++ [c] |}.

Definition with_nodes (m : gmap string node) (w : world) : world :=
  {| nodes := m; cwd := cwd w; rand := rand w; faults := faults w;
     trace := trace w |}.

Definition with_rand (r : list string) (w : world) : world :=
  {| nodes := nodes w; cwd := cwd w; rand := r; faults := faults w;
     trace := trace w |}.

Record FileInfo := { fi_Size : Z; fi_ModTime : nat; fi_IsDir : bool }.

(** An open file: its path and the entry it was opened on. *)
Record handle := { h_path : string; h_node : node }.

Module os.

Definition child (d e : string) : string :=
  if decide (d = "/") then "/" +:+ e else d +:+ "/" +:+ e.

Fixpoint ancestors_from (d : string) (els : list string) : list string :=
  match els with
  | [] => []
  | e :: r =>
      match r with
      | [] => []
      | _ :: _ => let d' := child d e in d' :: ancestors_from d' r
      end
  end.

(** The directories a lookup of the absolute path [p] goes through, from
    the root down to the parent of [p]. *)
Definition ancestors (p : string) : list string :=
  match filter (λ e, e ≠ "") (filepath.elements p) with
  | [] => []
  | els => "/" :: ancestors_from "/" els
  end.

(** Walking down [dirs]: a missing one is [ENOENT], a regular file in the
    way is [ENOTDIR]. *)
Fixpoint through (m : gmap string node) (dirs : list string) : option Errno :=
  match dirs with
  | [] => None
  | d :: r =>
      match m !! d with
      | None => Some ENOENT
      | Some (File _ _) => Some ENOTDIR
      | Some Directory => through m r
      end
  end.

Definition lookup_path (m : gmap string node) (p : string) : Errno + node :=
  match through m (ancestors p) with
  | Some e => inl e
  | None => match m !! p with
            | None => inl ENOENT
            | Some n => inr n
            end
  end.

(** The directory [p] has an entry. *)
Definition has_entries (m : gmap string node) (p : string) : bool :=
  existsb (λ q, bool_decide (filepath.Dir q = p ∧ q ≠ p)) (map_to_list m).*1.

(** Create the directories of [dirs] that are missing, outermost first. *)
Fixpoint mkdir_chain (dirs : list string) (m : gmap string node)
    : option Errno * gmap string node :=
  match dirs with
  | [] => (None, m)
  | d :: r =>
      match m !! d with
      | Some Directory => mkdir_chain r m
      | Some (File _ _) => (Some ENOTDIR, m)
      | None => mkdir_chain r (<[d := Directory]> m)
      end
  end.

(** [os.MkdirAll(p, perm)]. *)
Definition MkdirAll (p : string) : io (option error) := λ w,
  let w1 := log (CallMkdirAll p) w in
  match fault_now w with
  | Some f => (Some (PathError "mkdir" p (errno f)), w1)
  | None =>
      let '(e, m) := mkdir_chain (ancestors p ++ [p]) (nodes w) in
      (PathError "mkdir" p <$> e, with_nodes m w1)
  end.

(** The first drawn name that is free in [dir]. *)
Fixpoint pick_temp (m : gmap string node) (dir prefix : string)
    (rs : list string) : option (string * list string) :=
  match rs with
  | [] => None
  | r :: rs' =>
      let p := filepath.Join dir (prefix +:+ r) in
      match m !! p with
      | None => Some (p, rs')
      | Some _ => pick_temp m dir prefix rs'
      end
  end.

(** [os.CreateTemp(dir, prefix + "*")]: a new empty file, open for
    writing, created where the directories down to it exist; the result is
    its name. *)
Definition CreateTemp (dir prefix : string) : io (result string) := λ w,
  let w1 := log (CallCreateTemp dir) w in
  match fault_now w with
  | Some f => (Err (PathError "open" dir (errno f)), w1)
  | None =>
      match pick_temp (nodes w) dir prefix (rand w) with
      | None => (Err (PathError "createtemp" dir EEXIST), w1)
      | Some (p, rs) =>
          match through (nodes w) (ancestors p) with
          | Some e => (Err (PathError "open" p e), w1)
          | None =>
              (Ok p, with_rand rs
                       (with_nodes (<[p := File [] (clock w)]> (nodes w)) w1))
          end
      end
  end.

(** [os.Create(p)]: create or truncate. *)
Definition Create (p : string) : io (option error) := λ w,
  let w1 := log (CallCreate p) w in
  match fault_now w with
  | Some f => (Some (PathError "open" p (errno f)), w1)
  | None =>
      match through (nodes w) (ancestors p), nodes w !! p with
      | Some e, _ => (Some (PathError "open" p e), w1)
      | None, Some Directory => (Some (PathError "open" p EISDIR), w1)
      | None, _ => (None, with_nodes (<[p := File [] (clock w)]> (nodes w)) w1)
      end
  end.

(** Writing [data] at the end of the open file [p], as [io.Copy] does
    chunk after chunk: all of it, or under a fault the bytes that went
    through before the failure.  The result is the count written and the
    error. *)
Definition Write (p : string) (data : bytes) : io (nat * option error) := λ w,
  let w1 := log (CallWrite p) w in
  match nodes w !! p with
  | Some (File old _) =>
      match fault_now w with
      | Some f =>
          let sent := take (progress f) data in
          (length sent, Some (PathError "write" p (errno f)),
           with_nodes (<[p := File (old ++ sent) (clock w)]> (nodes w)) w1)
      | None =>
          (length data, None,
           with_nodes (<[p := File (old ++ data) (clock w)]> (nodes w)) w1)
      end
  | _ => (0%nat, Some (PathError "write" p EIO), w1)
  end.

(** [f.Close()] on an open file. *)
Definition Close (p : string) : io (option error) := λ w,
  let w1 := log (CallClose p) w in
  match fault_now w with
  | Some f => (Some (PathError "close" p (errno f)), w1)
  | None => (None, w1)
  end.

(** [os.Rename(old, new)] of a regular file: it replaces a regular file
    at [new] in one step, and is refused when [new] is a directory. *)
Definition Rename (old new : string) : io (option error) := λ w,
  let w1 := log (CallRename old new) w in
  match fault_now w with
  | Some f => (Some (PathError "rename" old (errno f)), w1)
  | None =>
      match lookup_path (nodes w) old, through (nodes w) (ancestors new),
            nodes w !! new with
      | inl e, _, _ => (Some (PathError "rename" old e), w1)
      | inr Directory, _, _ => (Some (PathError "rename" old EACCES), w1)
      | inr (File _ _), Some e, _ => (Some (PathError "rename" old e), w1)
      | inr (File _ _), None, Some Directory =>
          (Some (PathError "rename" old EISDIR), w1)
      | inr (File c t), None, _ =>
          (None, with_nodes (<[new := File c t]> (delete old (nodes w))) w1)
      end
  end.

(** [os.Remove(p)]: a regular file, or an empty directory. *)
Definition Remove (p : string) : io (option error) := λ w,
  let w1 := log (CallRemove p) w in
  match fault_now w with
  | Some f => (Some (PathError "remove" p (errno f)), w1)
  | None =>
      match lookup_path (nodes w) p with
      | inl e => (Some (PathError "remove" p e), w1)
      | inr (File _ _) => (None, with_nodes (delete p (nodes w)) w1)
      | inr Directory =>
          if has_entries (nodes w) p
          then (Some (PathError "remove" p ENOTEMPTY), w1)
          else (None, with_nodes (delete p (nodes w)) w1)
      end
  end.

(** [os.Open(p)]: directories open too. *)
Definition Open (p : string) : io (result handle) := λ w,
  let w1 := log (CallOpen p) w in
  match fault_now w with
  | Some f => (Err (PathError "open" p (errno f)), w1)
  | None =>
      match lookup_path (nodes w) p with
      | inl e => (Err (PathError "open" p e), w1)
      | inr n => (Ok {| h_path := p; h_node := n |}, w1)
      end
  end.

(** The open file [h] once [os.Create(p)] has gone through.  [os.Create]
    truncates the file that is at [p]: when [h] was opened on that very
    path, the file it reads is the one just emptied.  (The modification
    time, which no read returns, is left as it was.) *)
Definition truncated (p : string) (h : handle) : handle :=
  if decide (h_path h = p)
  then {| h_path := h_path h;
          h_node := match h_node h with
                    | File _ t => File [] t
                    | Directory => Directory
                    end |}
  else h.

(** [io.ReadAll(file)]. *)
Definition ReadAll (h : handle) : io (result bytes) := λ w,
  let w1 := log (CallRead (h_path h)) w in
  match fault_now w with
  | Some f => (Err (PathError "read" (h_path h) (errno f)), w1)
  | None =>
      match h_node h with
      | File c _ => (Ok c, w1)
      | Directory => (Err (PathError "read" (h_path h) EISDIR), w1)
      end
  end.

Definition info_of (n : node) : FileInfo :=
  match n with
  | File c t => {| fi_Size := Z.of_nat (length c); fi_ModTime := t; fi_IsDir := false |}
  | Directory => {| fi_Size := 4096; fi_ModTime := 0; fi_IsDir := true |}
  end.

(** [os.Stat(p)]. *)
Definition Stat (p : string) : io (result FileInfo) := λ w,
  let w1 := log (CallStat p) w in
  match fault_now w with
  | Some f => (Err (PathError "stat" p (errno f)), w1)
  | None =>
      match lookup_path (nodes w) p with
      | inl e => (Err (PathError "stat" p e), w1)
      | inr n => (Ok (info_of n), w1)
      end
  end.

(** [d.Info()] on an entry met by a walk. *)
Definition Info (p : string) (n : node) : io (result FileInfo) := λ w,
  let w1 := log (CallInfo p) w in
  match fault_now w with
  | Some f => (Err (PathError "lstat" p (errno f)), w1)
  | None => (Ok (info_of n), w1)
  end.

(** [filepath.Rel(base, p)] for [p] below [base], the only targets a
    walk of [base] passes. *)
Fixpoint strip_prefix (pre s : string) : option string :=
  match pre, s with
  | EmptyString, _ => Some s
  | String a pre', String b s' =>
      if Ascii.eqb a b then strip_prefix pre' s' else None
  | String _ _, EmptyString => None
  end.

Definition Rel (base p : string) : option string :=
  if decide (p = base) then Some "."
  else strip_prefix (child base "") p.

Fixpoint elems_le (a b : list string) : bool :=
  match a, b with
  | [], _ => true
  | _ :: _, [] => false
  | x :: a', y :: b' =>
      if String.eqb x y then elems_le a' b' else str_lt x y
  end.

(** The entries [filepath.WalkDir(root, fn)] passes to [fn]: the root and
    all that is below it, each directory before its entries, the entries
    of a directory by name. *)
Definition walk_entries (m : gmap string node) (root : string)
    : list (string * node) :=
  sort_by (λ a b, elems_le (filepath.elements a.1) (filepath.elements b.1))
          (filter (λ pn, is_Some (Rel root pn.1)) (map_to_list m)).

(** The tree as a walk that starts now reads it. *)
Definition ReadTree : io (gmap string node) := λ w, (nodes w, w).

(** [filepath.Abs]. *)
Definition Abs (w : world) (p : string) : string :=
  if filepath.IsAbs p then filepath.Clean p else filepath.Join (cwd w) p.

End os.

(* ===================================================================== *)
(** * The store contract's data (store.go) *)
(* ===================================================================== *)

(** An [io.Reader] handed in as a body: the bytes it yields and the error,
    if any, it ends with instead of [io.EOF]. *)
Record Reader := { r_data : bytes; r_err : option error }.

Definition NewReader (b : bytes) : Reader := {| r_data := b; r_err := None |}.

(** An [io.WriterAt] handed in as a sink: a buffer that grows on demand,
    up to its capacity when it has one. *)
Record WriterAt := { buf : bytes; capacity : option nat }.

Definition NewWriteAtBuffer : WriterAt := {| buf := []; capacity := None |}.

Definition write_at (b data : bytes) (off : nat) : bytes :=
  take off (b ++ replicate (off - length b) Byte.x00) ++ data
    ++ drop (off + length data) b.

(** [w.WriteAt(data, off)]: the count written, the error, and the sink
    afterwards. *)
Definition WriteAt (w : WriterAt) (data : bytes) (off : nat)
    : nat * option error * WriterAt :=
  match capacity w with
  | Some c =>
      if bool_decide (off + length data ≤ c)%nat
      then (length data, None, {| buf := write_at (buf w) data off; capacity := Some c |})
      else let fit := take (c - off) data in
           (length fit, Some (Sentinel ErrShortWrite),
            {| buf := write_at (buf w) fit off; capacity := Some c |})
  | None =>
      (length data, None, {| buf := write_at (buf w) data off; capacity := None |})
  end.

Module ObjectInfo.
Record t := {
  Key : string;
  Size : Z;
  ContentType : string;
  ETag : string;
  LastModified : option nat;      (* [None] is the zero [time.Time] *)
  Metadata : gmap string string;
}.
End ObjectInfo.

Module UploadInput.
Record t := {
  Key : string;
  Body : option Reader;           (* [None] is a nil [io.Reader] *)
  ContentType : string;
  Metadata : gmap string string;
}.
End UploadInput.

Module UploadOutput.
Record t := {
  Location : string;
  VersionID : string;
  ETag : string;
}.
End UploadOutput.

Module ListInput.
Record t := {
  Prefix : string;
  MaxKeys : Z;                    (* int32 *)
  StartAfter : string;
}.
End ListInput.

Module ListOutput.
Record t := {
  Objects : list ObjectInfo.t;
  IsTruncated : bool;
  NextMarker : string;
}.
End ListOutput.

(** [objects[len(objects)-1].Key] when [len(objects) > 0], else the zero
    string the field of a fresh [ListOutput] holds. *)
Definition last_key (objects : list ObjectInfo.t) : string :=
  match last objects with
  | Some o => ObjectInfo.Key o
  | None => ""
  end.

(* ===================================================================== *)
(** * The local backend (filesystem.go) *)
(* ===================================================================== *)

Record FileSystemStore := { basePath : string }.

Module FileSystemStore.

Definition now : io nat := λ w, (clock w, w).

Definition to_lower (c : ascii) : ascii :=
  let n := nat_of_ascii c in
  if bool_decide (65 ≤ n ≤ 90)%nat then ascii_of_nat (n + 32) else c.

(** [strings.ToLower] first looks whether every byte is ASCII. *)
Definition isASCII (s : string) : bool :=
  forallb (λ c, bool_decide (nat_of_ascii c < 128)%nat) (String.list_ascii_of_string s).

(** Its path for a string of ASCII bytes: the letters A to Z lowered,
    byte by byte. *)
Fixpoint lower_bytes (s : string) : string :=
  match s with
  | EmptyString => ""
  | String c r => String (to_lower c) (lower_bytes r)
  end.

Definition is_byte (n : nat) (c : ascii) : bool := bool_decide (nat_of_ascii c = n).

(** Its other path, [strings.Map(unicode.ToLower, s)], rune by rune.  The
    letters A to Z are lowered, and so are the two letters beyond ASCII
    whose lower case is an ASCII letter: U+0130, the bytes C4 B0, becomes
    [i], and U+212A, the bytes E2 84 AA, becomes [k].  Every other
    character beyond ASCII is left as it is here: [unicode.ToLower] maps it
    to a character beyond ASCII, and [strings.Map] turns a byte that is not
    UTF-8 into U+FFFD, so that the result has a byte beyond ASCII in the
    source exactly when it has one here, and is otherwise the same. *)
Fixpoint lower_runes (s : string) : string :=
  match s with
  | EmptyString => ""
  | String c r =>
      match r with
      | String d r1 =>
          if is_byte 196 c && is_byte 176 d then String "i" (lower_runes r1)
          else
            match r1 with
            | String e r2 =>
                if is_byte 226 c && is_byte 132 d && is_byte 170 e
                then String "k" (lower_runes r2)
                else String (to_lower c) (lower_runes r)
            | EmptyString => String (to_lower c) (lower_runes r)
            end
      | EmptyString => String (to_lower c) (lower_runes r)
      end
  end.

(** [strings.ToLower]. *)
Definition ToLower (s : string) : string :=
  if isASCII s then lower_bytes s else lower_runes s.

Definition contentTypes : list (string * string) :=
  [ (".html", "text/html"); (".htm", "text/html"); (".css", "text/css");
    (".js", "application/javascript"); (".json", "application/json");
    (".xml", "application/xml"); (".txt", "text/plain");
    (".md", "text/markdown"); (".pdf", "application/pdf");
    (".zip", "application/zip"); (".tar", "application/x-tar");
    (".gz", "application/gzip"); (".png", "image/png");
    (".jpg", "image/jpeg"); (".jpeg", "image/jpeg"); (".gif", "image/gif");
    (".svg", "image/svg+xml"); (".webp", "image/webp");
    (".ico", "image/x-icon"); (".mp3", "audio/mpeg"); (".mp4", "video/mp4");
    (".webm", "video/webm"); (".wasm", "application/wasm") ].

Definition detectContentType (filename : string) : string :=
  let ext := ToLower (filepath.Ext filename) in
  match (list_to_map contentTypes : gmap string string) !! ext with
  | Some ct => ct
  | None => "application/octet-stream"
  end.

(** [NewFileSystemStore(basePath, log, opts...)] with the option
    [createBasePath]. *)
Definition NewFileSystemStore (base : string) (createBasePath : bool)
    : io (result FileSystemStore) :=
  if decide (base = "") then mret (Err (fmt.Errorf_text "base path is required"))
  else λ w,
    let absPath := os.Abs w base in
    if createBasePath then
      let '(e, w1) := os.MkdirAll absPath w in
      match e with
      | Some e => (Err (fmt.Errorf_text_w "failed to create base path" e), w1)
      | None => (Ok {| basePath := absPath |}, w1)
      end
    else
      let '(r, w1) := os.Stat absPath w in
      match r with
      | Err e => (Err (fmt.Errorf_text_w "base path does not exist" e), w1)
      | Ok info =>
          if fi_IsDir info then (Ok {| basePath := absPath |}, w1)
          else (Err (fmt.Errorf_text "base path is not a directory"), w1)
      end.

(** [fullPath]: the sanitizer of keys. *)
Definition fullPath (f : FileSystemStore) (key : string) : result string :=
  if decide (key = "") then Err (Sentinel ErrInvalidBlobKey)
  else
    let cleanKey := filepath.Clean key in
    if HasPrefix cleanKey ".." || filepath.IsAbs cleanKey
    then Err (fmt.Errorf_w_text (Sentinel ErrInvalidBlobKey) "invalid key path")
    else Ok (filepath.Join (basePath f) cleanKey).

Definition upload_failed (e : error) : error :=
  fmt.Errorf_w_v (Sentinel ErrBlobUploadFailed) e.

(** The part of [Upload] between the creation of the temporary file and
    the run of the deferred clean-up: the result, and whether the
    temporary file has been closed. *)
Definition Upload_write (tmpPath fullPath : string) (body : Reader)
    : io (result UploadOutput.t * bool) :=
  '(written, err) ← os.Write tmpPath (r_data body);
  match err, r_err body with
  | Some e, _ => mret (Err (upload_failed e), false)
  | None, Some e => mret (Err (upload_failed e), false)
  | None, None =>
      err ← os.Close tmpPath;
      match err with
      | Some e => mret (Err (upload_failed e), true)
      | None =>
          err ← os.Rename tmpPath fullPath;
          match err with
          | Some e => mret (Err (upload_failed e), true)
          | None =>
              let etag := hex.EncodeToString (md5.Sum (r_data body)) in
              mret (Ok {| UploadOutput.Location := fullPath;
                          UploadOutput.VersionID := "";
                          UploadOutput.ETag := etag |}, true)
          end
      end
  end.

(** The function deferred by [Upload] once the temporary file exists:
    [tmpFile.Close(); os.Remove(tmpPath)], the first of which makes no call
    on a file that is closed already.  The errors of both are dropped. *)
Definition Upload_cleanup (tmpPath : string) (closed : bool) : io () :=
  _ ← (if closed then mret None else os.Close tmpPath);
  _ ← os.Remove tmpPath;
  mret ().

(** [Upload] from the creation of the temporary file on: the writes, then
    the deferred clean-up, whatever the outcome. *)
Definition Upload_temp (tmpPath fullPath : string) (body : Reader)
    : io (result UploadOutput.t) :=
  '(res, closed) ← Upload_write tmpPath fullPath body;
  _ ← Upload_cleanup tmpPath closed;
  mret res.

Definition Upload (f : FileSystemStore) (ctx : Context) (input : UploadInput.t)
    : io (result UploadOutput.t) :=
  if decide (UploadInput.Key input = "") then mret (Err (Sentinel ErrInvalidBlobKey))
  else
    match UploadInput.Body input with
    | None => mret (Err (fmt.Errorf_w_text (Sentinel ErrInvalidInput) "body is required"))
    | Some body =>
        match fullPath f (UploadInput.Key input) with
        | Err e => mret (Err e)
        | Ok fullPath =>
            let dir := filepath.Dir fullPath in
            err ← os.MkdirAll dir;
            match err with
            | Some e => mret (Err (upload_failed e))
            | None =>
                t ← now;
                match ctx_Err ctx t with
                | Some e => mret (Err e)
                | None =>
                    r ← os.CreateTemp dir ".tmp-";
                    match r with
                    | Err e => mret (Err (upload_failed e))
                    | Ok tmpPath => Upload_temp tmpPath fullPath body
                    end
                end
            end
        end
    end.

Definition download_failed (e : error) : error :=
  fmt.Errorf_w_v (Sentinel ErrBlobDownloadFailed) e.

Definition Download (f : FileSystemStore) (ctx : Context) (key : string)
    (w : WriterAt) : io (Z * option error * WriterAt) :=
  match fullPath f key with
  | Err e => mret (0, Some e, w)
  | Ok fullPath =>
      r ← os.Open fullPath;
      match r with
      | Err e =>
          if errors.Is e ErrNotExist
          then mret (0, Some (Sentinel ErrBlobNotFound), w)
          else mret (0, Some (download_failed e), w)
      | Ok file =>
          res ← (t ← now;
                 match ctx_Err ctx t with
                 | Some e => mret (0, Some e, w)
                 | None =>
                     d ← os.ReadAll file;
                     match d with
                     | Err e => mret (0, Some (download_failed e), w)
                     | Ok data =>
                         let '(n, err, w') := WriteAt w data 0 in
                         match err with
                         | Some e => mret (Z.of_nat n, Some (download_failed e), w')
                         | None => mret (Z.of_nat n, None, w')
                         end
                     end
                 end);
          (* deferred: file.Close() *)
          _ ← os.Close (h_path file);
          mret res
      end
  end.

Definition GetObject (f : FileSystemStore) (ctx : Context) (key : string)
    : io (result handle) :=
  match fullPath f key with
  | Err e => mret (Err e)
  | Ok fullPath =>
      r ← os.Open fullPath;
      match r with
      | Err e =>
          if errors.Is e ErrNotExist then mret (Err (Sentinel ErrBlobNotFound))
          else mret (Err (download_failed e))
      | Ok file => mret (Ok file)
      end
  end.

Definition HeadObject (f : FileSystemStore) (ctx : Context) (key : string)
    : io (result ObjectInfo.t) :=
  match fullPath f key with
  | Err e => mret (Err e)
  | Ok fullPath =>
      r ← os.Stat fullPath;
      match r with
      | Err e =>
          if errors.Is e ErrNotExist then mret (Err (Sentinel ErrBlobNotFound))
          else mret (Err (fmt.Errorf_text_w "failed to get object info" e))
      | Ok info =>
          if fi_IsDir info then mret (Err (Sentinel ErrBlobNotFound))
          else mret (Ok {| ObjectInfo.Key := key;
                           ObjectInfo.Size := fi_Size info;
                           ObjectInfo.ContentType := detectContentType key;
                           ObjectInfo.ETag := "";
                           ObjectInfo.LastModified := Some (fi_ModTime info);
                           ObjectInfo.Metadata := ∅ |})
      end
  end.

Definition Delete (f : FileSystemStore) (ctx : Context) (key : string)
    : io (option error) :=
  match fullPath f key with
  | Err e => mret (Some e)
  | Ok fullPath =>
      err ← os.Remove fullPath;
      match err with
      | Some e =>
          if errors.Is e ErrNotExist then mret None
          else mret (Some (fmt.Errorf_w_v (Sentinel ErrBlobDeleteFailed) e))
      | None => mret None
      end
  end.

(** The loop of [DeleteMultiple] over the keys that remain, [keys] being
    the whole slice and [failedKeys] what has been collected so far. *)
Fixpoint DeleteMultiple_loop (f : FileSystemStore) (ctx : Context)
    (keys : list string) (remaining : list string) (failedKeys : list string)
    : io (list string * option error) :=
  match remaining with
  | [] =>
      if bool_decide (0 < length failedKeys)%nat
      then mret (failedKeys,
                 Some (fmt.Errorf_w_d_text (Sentinel ErrBlobDeleteFailed)
                         (length failedKeys) "files failed to delete"))
      else mret ([], None)
  | key :: rest =>
      t ← now;
      match ctx_Err ctx t with
      | Some e => mret (failedKeys ++ keys, Some e)
      | None =>
          err ← Delete f ctx key;
          match err with
          | Some e =>
              if negb (errors.Is e ErrBlobNotFound)
              then DeleteMultiple_loop f ctx keys rest (failedKeys ++ [key])
              else DeleteMultiple_loop f ctx keys rest failedKeys
          | None => DeleteMultiple_loop f ctx keys rest failedKeys
          end
      end
  end.

Definition DeleteMultiple (f : FileSystemStore) (ctx : Context)
    (keys : list string) : io (list string * option error) :=
  if bool_decide (length keys = 0)%nat then mret ([], None)
  else DeleteMultiple_loop f ctx keys keys [].

(** The callback of the walk of [List], run over the entries that
    remain; it ends the walk by returning an error. *)
Fixpoint List_walk (f : FileSystemStore) (ctx : Context)
    (prefix startAfter : string) (entries : list (string * node))
    (objects : list ObjectInfo.t) : io (list ObjectInfo.t * option error) :=
  match entries with
  | [] => mret (objects, None)
  | (path, d) :: rest =>
      match d with
      | Directory => List_walk f ctx prefix startAfter rest objects
      | File _ _ =>
          t ← now;
          match ctx_Err ctx t with
          | Some e => mret (objects, Some e)
          | None =>
              match os.Rel (basePath f) path with
              | None => List_walk f ctx prefix startAfter rest objects
              | Some key =>
                  let key := filepath.ToSlash key in
                  if bool_decide (prefix ≠ "") && negb (HasPrefix key prefix)
                  then List_walk f ctx prefix startAfter rest objects
                  else if bool_decide (startAfter ≠ "") && str_le key startAfter
                  then List_walk f ctx prefix startAfter rest objects
                  else
                    r ← os.Info path d;
                    match r with
                    | Err _ => List_walk f ctx prefix startAfter rest objects
                    | Ok info =>
                        List_walk f ctx prefix startAfter rest
                          (objects ++
                           [{| ObjectInfo.Key := key;
                               ObjectInfo.Size := fi_Size info;
                               ObjectInfo.ContentType := detectContentType key;
                               ObjectInfo.ETag := "";
                               ObjectInfo.LastModified := Some (fi_ModTime info);
                               ObjectInfo.Metadata := ∅ |}])
                    end
              end
          end
      end
  end.

(** [sort.Slice(objects, func(i, j) { objects[i].Key < objects[j].Key })]. *)
Definition sort_objects (objects : list ObjectInfo.t) : list ObjectInfo.t :=
  sort_by (λ a b, str_le (ObjectInfo.Key a) (ObjectInfo.Key b)) objects.

(** The end of [List]: sort, cut at [maxKeys], set the marker. *)
Definition List_page (maxKeys : Z) (objects : list ObjectInfo.t) : ListOutput.t :=
  let objects := sort_objects objects in
  let isTruncated := bool_decide (maxKeys < Z.of_nat (length objects)) in
  let objects := if isTruncated then take (Z.to_nat maxKeys) objects else objects in
  {| ListOutput.Objects := objects;
     ListOutput.IsTruncated := isTruncated;
     ListOutput.NextMarker := last_key objects |}.

(** [filepath.WalkDir(f.basePath, fn)]: the root is looked up first, and
    a failure of that is handed to [fn], which returns it. *)
Definition List_collect (f : FileSystemStore) (ctx : Context) (input : ListInput.t)
    : io (list ObjectInfo.t * option error) :=
  r ← os.Stat (basePath f);
  match r with
  | Err e => mret ([], Some e)
  | Ok _ =>
      tree ← os.ReadTree;
      List_walk f ctx (ListInput.Prefix input) (ListInput.StartAfter input)
                (os.walk_entries tree (basePath f)) []
  end.

Definition List (f : FileSystemStore) (ctx : Context) (input : ListInput.t)
    : io (result ListOutput.t) :=
  let maxKeys := ListInput.MaxKeys input in
  let maxKeys := if bool_decide (maxKeys ≤ 0) then 1000 else maxKeys in
  '(objects, err) ← List_collect f ctx input;
  match err with
  | Some e =>
      if negb (errors.Is e Canceled) && negb (errors.Is e DeadlineExceeded)
      then mret (Err (fmt.Errorf_text_w "failed to list objects" e))
      else mret (Ok (List_page maxKeys objects))
  | None => mret (Ok (List_page maxKeys objects))
  end.

Definition Exists (f : FileSystemStore) (ctx : Context) (key : string)
    : io (bool * option error) :=
  r ← HeadObject f ctx key;
  match r with
  | Err e =>
      if errors.Is e ErrBlobNotFound then mret (false, None)
      else mret (false, Some e)
  | Ok _ => mret (true, None)
  end.

Definition Copy (f : FileSystemStore) (ctx : Context) (sourceKey destKey : string)
    : io (option error) :=
  if bool_decide (sourceKey = "" ∨ destKey = "")
  then mret (Some (Sentinel ErrInvalidBlobKey))
  else
    match fullPath f sourceKey with
    | Err e => mret (Some e)
    | Ok sourcePath =>
        match fullPath f destKey with
        | Err e => mret (Some e)
        | Ok destPath =>
            r ← os.Open sourcePath;
            match r with
            | Err e =>
                if errors.Is e ErrNotExist then mret (Some (Sentinel ErrBlobNotFound))
                else mret (Some (fmt.Errorf_text_w "failed to open source file" e))
            | Ok sourceFile =>
                res ← (err ← os.MkdirAll (filepath.Dir destPath);
                       match err with
                       | Some e =>
                           mret (Some (fmt.Errorf_text_w
                                         "failed to create destination directory" e))
                       | None =>
                           err ← os.Create destPath;
                           match err with
                           | Some e =>
                               mret (Some (fmt.Errorf_text_w
                                             "failed to create destination file" e))
                           | None =>
                               (* [os.Create] has truncated the file: when
                                  both paths are one, the open source is
                                  that file and reads as empty *)
                               let sourceFile := os.truncated destPath sourceFile in
                               res ← (d ← os.ReadAll sourceFile;
                                      match d with
                                      | Err e => mret (Some e)
                                      | Ok data =>
                                          '(_, err) ← os.Write destPath data;
                                          mret err
                                      end);
                               res ← match res with
                                     | Some e =>
                                         _ ← os.Remove destPath;
                                         mret (Some (fmt.Errorf_text_w
                                                       "failed to copy file" e))
                                     | None => mret None
                                     end;
                               (* deferred: destFile.Close() *)
                               _ ← os.Close destPath;
                               mret res
                           end
                       end);
                (* deferred: sourceFile.Close() *)
                _ ← os.Close (h_path sourceFile);
                mret res
            end
        end
    end.

End FileSystemStore.

(* ===================================================================== *)
(** * The SDK client and the bucket behind it *)
(* ===================================================================== *)

Module aws.
(** [aws.ToString], [aws.ToInt64], [aws.ToBool]: the zero value for nil. *)
Definition ToString (p : option string) : string := default "" p.
Definition ToInt64 (p : option Z) : Z := default 0 p.
Definition ToBool (p : option bool) : bool := default false p.
End aws.

Module s3.

Record Object := {
  o_Body : bytes;
  o_ContentType : string;
  o_Metadata : gmap string string;
  o_ETag : string;
  o_LastModified : nat;
}.

(** The requests sent, as they are logged, each with the [Bucket] it
    names. *)
Inductive request :=
  | PutObject (bucket key : string)
  | GetObject (bucket key : string)
  | HeadObject (bucket key : string)
  | DeleteObject (bucket key : string)
  | DeleteObjects (bucket : string) (keys : list string)
  | ListObjectsV2 (bucket : string) (prefix startAfter : option string) (maxKeys : Z)
  | CopyObject (bucket copySource key : string).

(** The service as the client of one store sees it: the objects of the
    bucket that the requests of the store name, the keys whose deletion
    the service refuses, the error, if any, that signing a request locally
    runs into, the failure, if any, of the n-th request (a transport error,
    an API error, a cancelled context), and the requests sent so far. *)
Record remote := {
  objects : gmap string Object;
  locked : list string;
  signing_error : option error;
  failures : list (option error);
  requests : list request;
}.

Definition net (A : Type) : Type := remote → A * remote.

Global Instance net_ret : MRet net := λ A a r, (a, r).
Global Instance net_bind : MBind net := λ A B f m r, let '(a, r') := m r in f a r'.

Definition sent (q : request) (r : remote) : remote :=
  {| objects := objects r; locked := locked r;
     signing_error := signing_error r; failures := failures r;
     requests := requests r ++ [q] |}.

Definition with_objects (m : gmap string Object) (r : remote) : remote :=
  {| objects := m; locked := locked r;
     signing_error := signing_error r; failures := failures r;
     requests := requests r |}.

Definition failure_now (r : remote) : option error :=
  mjoin (failures r !! length (requests r)).

Definition quote : string := String (ascii_of_nat 34) "".

Definition etag_of (body : bytes) : string :=
  quote +:+ hex.EncodeToString (md5.Sum body) +:+ quote.

Record UploadOutput := {
  up_Location : string;
  up_ETag : option string;
  up_VersionID : option string;
}.

Record HeadObjectOutput := {
  ho_ContentLength : option Z;
  ho_ContentType : option string;
  ho_ETag : option string;
  ho_Metadata : gmap string string;
  ho_LastModified : option nat;
}.

Record ListedObject := {
  lo_Key : option string;
  lo_Size : option Z;
  lo_ETag : option string;
  lo_LastModified : option nat;
}.

Record ListObjectsV2Output := {
  lo_Contents : list ListedObject;
  lo_IsTruncated : option bool;
}.

Record DeleteError := {
  de_Key : option string;
  de_Code : option string;
  de_Message : option string;
}.

Record DeleteObjectsOutput := { do_Errors : list DeleteError }.

(** [uploader.Upload(ctx, &s3.PutObjectInput{...})]. *)
Definition Upload (bucket key : string) (body : Reader) (contentType : string)
    (metadata : gmap string string) : net (result UploadOutput) := λ r,
  let r1 := sent (PutObject bucket key) r in
  match failure_now r, r_err body with
  | Some e, _ => (Err e, r1)
  | None, Some e => (Err e, r1)
  | None, None =>
      let o := {| o_Body := r_data body; o_ContentType := contentType;
                  o_Metadata := metadata; o_ETag := etag_of (r_data body);
                  o_LastModified := length (requests r) |} in
      (Ok {| up_Location := "https://" +:+ bucket +:+ ".s3.amazonaws.com/" +:+ key;
             up_ETag := Some (o_ETag o);
             up_VersionID := None |},
       with_objects (<[key := o]> (objects r)) r1)
  end.

Definition no_such_key (operation : string) : error :=
  OperationError operation (TypesNoSuchKey None).

(** [downloader.Download(ctx, w, &s3.GetObjectInput{...})]: the parts
    land in the sink at their offsets, which amounts to the whole body
    at offset 0. *)
Definition Download (bucket key : string) (w : WriterAt)
    : net (Z * option error * WriterAt) := λ r,
  let r1 := sent (GetObject bucket key) r in
  match failure_now r with
  | Some e => (0, Some e, w, r1)
  | None =>
      match objects r !! key with
      | None => (0, Some (no_such_key "GetObject"), w, r1)
      | Some o =>
          let '(n, err, w') := WriteAt w (o_Body o) 0 in
          (Z.of_nat n, err, w', r1)
      end
  end.

(** [client.GetObject]: the body of the response, to be read. *)
Definition GetObject_call (bucket key : string) : net (result bytes) := λ r,
  let r1 := sent (GetObject bucket key) r in
  match failure_now r with
  | Some e => (Err e, r1)
  | None =>
      match objects r !! key with
      | None => (Err (no_such_key "GetObject"), r1)
      | Some o => (Ok (o_Body o), r1)
      end
  end.

(** [client.HeadObject]: a missing key is a bare 404, [*types.NotFound]. *)
Definition HeadObject_call (bucket key : string)
    : net (result HeadObjectOutput) := λ r,
  let r1 := sent (HeadObject bucket key) r in
  match failure_now r with
  | Some e => (Err e, r1)
  | None =>
      match objects r !! key with
      | None => (Err (OperationError "HeadObject" (TypesNotFound None)), r1)
      | Some o =>
          (Ok {| ho_ContentLength := Some (Z.of_nat (length (o_Body o)));
                 ho_ContentType := Some (o_ContentType o);
                 ho_ETag := Some (o_ETag o);
                 ho_Metadata := o_Metadata o;
                 ho_LastModified := Some (o_LastModified o) |}, r1)
      end
  end.

(** [client.DeleteObject]: the service answers success whether or not the
    key held an object. *)
Definition DeleteObject_call (bucket key : string) : net (option error) := λ r,
  let r1 := sent (DeleteObject bucket key) r in
  match failure_now r with
  | Some e => (Some e, r1)
  | None => (None, with_objects (delete key (objects r)) r1)
  end.

(** The per-object part of [DeleteObjects]: a refused key is reported in
    [Errors] and the others are deleted all the same. *)
Fixpoint delete_each (locked : list string) (keys : list string)
    (m : gmap string Object) : list DeleteError * gmap string Object :=
  match keys with
  | [] => ([], m)
  | k :: rest =>
      if bool_decide (k ∈ locked) then
        let '(errs, m') := delete_each locked rest m in
        ({| de_Key := Some k; de_Code := Some "AccessDenied";
            de_Message := Some "Access Denied" |} :: errs, m')
      else delete_each locked rest (delete k m)
  end.

Definition DeleteObjects_call (bucket : string) (keys : list string)
    : net (result DeleteObjectsOutput) := λ r,
  let r1 := sent (DeleteObjects bucket keys) r in
  match failure_now r with
  | Some e => (Err e, r1)
  | None =>
      let '(errs, m) := delete_each (locked r) keys (objects r) in
      (Ok {| do_Errors := errs |}, with_objects m r1)
  end.

Definition matches (prefix startAfter : option string) (key : string) : bool :=
  HasPrefix key (aws.ToString prefix)
  && match startAfter with
     | Some after => str_lt after key
     | None => true
     end.

(** [client.ListObjectsV2]: one page, in the byte order of the keys. *)
Definition ListObjectsV2_call (bucket : string)
    (prefix startAfter : option string) (maxKeys : Z)
    : net (result ListObjectsV2Output) := λ r,
  let r1 := sent (ListObjectsV2 bucket prefix startAfter maxKeys) r in
  match failure_now r with
  | Some e => (Err e, r1)
  | None =>
      let all := sort_by (λ a b, str_le a.1 b.1)
                   (filter (λ ko, matches prefix startAfter ko.1 = true)
                           (map_to_list (objects r))) in
      let n := Z.to_nat (Z.min maxKeys 1000) in
      (Ok {| lo_Contents :=
               (λ ko, {| lo_Key := Some ko.1;
                         lo_Size := Some (Z.of_nat (length (o_Body ko.2)));
                         lo_ETag := Some (o_ETag ko.2);
                         lo_LastModified := Some (o_LastModified ko.2) |})
               <$> take n all;
             lo_IsTruncated := Some (bool_decide (n < length all)%nat) |}, r1)
  end.

Definition access_denied (operation : string) : error :=
  OperationError operation (GenericAPIError "AccessDenied" "Access Denied").

(** What a copy makes of the object [o]: the same body, content type,
    metadata and ETag, modified now. *)
Definition copy_of (o : Object) (now : nat) : Object :=
  {| o_Body := o_Body o; o_ContentType := o_ContentType o;
     o_Metadata := o_Metadata o; o_ETag := o_ETag o; o_LastModified := now |}.

Definition hex_digit (c : ascii) : option nat :=
  let n := nat_of_ascii c in
  if bool_decide (48 ≤ n ≤ 57)%nat then Some (n - 48)%nat
  else if bool_decide (65 ≤ n ≤ 70)%nat then Some (n - 55)%nat
  else if bool_decide (97 ≤ n ≤ 102)%nat then Some (n - 87)%nat
  else None.

(** The key of a [CopySource] as the service reads it: URL-decoded, a
    percent sign and two hexadecimal digits being the byte they spell and a
    plus sign a space.  The client of blob.go does not encode the key it
    puts there. *)
Fixpoint unescape (s : string) : option string :=
  match s with
  | EmptyString => Some ""
  | String c r =>
      if Ascii.eqb c "%" then
        match r with
        | String h (String l r') =>
            match hex_digit h, hex_digit l with
            | Some a, Some b => String (ascii_of_nat (16 * a + b)) <$> unescape r'
            | _, _ => None
            end
        | _ => None
        end
      else String (if Ascii.eqb c "+" then " "%char else c) <$> unescape r
  end.

Definition invalid_argument (operation : string) : error :=
  OperationError operation
    (GenericAPIError "InvalidArgument" "Invalid copy source encoding").

(** [client.CopyObject]: the service reads [CopySource] as the name of a
    bucket, a slash and a key, which it decodes.  A source in the bucket
    that the request names is copied within it; the objects of another
    bucket are out of the reach of this client. *)
Definition CopyObject_call (bucket copySource key : string)
    : net (option error) := λ r,
  let r1 := sent (CopyObject bucket copySource key) r in
  match failure_now r with
  | Some e => (Some e, r1)
  | None =>
      match os.strip_prefix (bucket +:+ "/") copySource with
      | None => (Some (access_denied "CopyObject"), r1)
      | Some written =>
          match unescape written with
          | None => (Some (invalid_argument "CopyObject"), r1)
          | Some sourceKey =>
              match objects r !! sourceKey with
              | None => (Some (no_such_key "CopyObject"), r1)
              | Some o =>
                  (None, with_objects (<[key := copy_of o (length (requests r))]>
                                         (objects r)) r1)
              end
          end
      end
  end.

(** [presignClient.PresignGetObject] and [PresignPutObject]: the request
    is signed locally and nothing is sent. *)
Definition Presign (method bucket key : string) (contentType : option string)
    (expiresSeconds : Z) : net (result string) := λ r,
  match signing_error r with
  | Some e => (Err e, r)
  | None =>
      (Ok ("https://" +:+ bucket +:+ ".s3.amazonaws.com/" +:+ key
           +:+ "?X-Amz-Expires=" +:+ pretty expiresSeconds
           +:+ "&X-Amz-SignedHeaders=host"
           +:+ match contentType with Some _ => ";content-type" | None => "" end
           +:+ "&x-id=" +:+ method), r)
  end.

End s3.

(* ===================================================================== *)
(** * The networked backend (blob.go) *)
(* ===================================================================== *)

Record S3Store := { bucket : string }.

Module S3Store.

Import s3.

(** [isNotFoundError]. *)
Definition isNotFoundError (err : error) : bool :=
  match errors.AsAPIError err with
  | Some code =>
      if bool_decide (code = "NotFound" ∨ code = "NoSuchKey" ∨ code = "404")
      then true
      else errors.AsNotFound err || errors.AsNoSuchKey err
  | None => errors.AsNotFound err || errors.AsNoSuchKey err
  end.

Definition Upload (s : S3Store) (ctx : Context) (input : UploadInput.t)
    : net (result UploadOutput.t) :=
  if decide (UploadInput.Key input = "") then mret (Err (Sentinel ErrInvalidBlobKey))
  else
    match UploadInput.Body input with
    | None => mret (Err (fmt.Errorf_w_text (Sentinel ErrInvalidInput) "body is required"))
    | Some body =>
        let contentType :=
          if decide (UploadInput.ContentType input = "")
          then "application/octet-stream" else UploadInput.ContentType input in
        r ← s3.Upload (bucket s) (UploadInput.Key input) body contentType
                      (UploadInput.Metadata input);
        match r with
        | Err e => mret (Err (fmt.Errorf_w_v (Sentinel ErrBlobUploadFailed) e))
        | Ok result =>
            mret (Ok {| UploadOutput.Location := up_Location result;
                        UploadOutput.ETag := aws.ToString (up_ETag result);
                        UploadOutput.VersionID :=
                          match up_VersionID result with
                          | Some v => v
                          | None => ""
                          end |})
        end
    end.

Definition Download (s : S3Store) (ctx : Context) (key : string) (w : WriterAt)
    : net (Z * option error * WriterAt) :=
  if decide (key = "") then mret (0, Some (Sentinel ErrInvalidBlobKey), w)
  else
    '(n, err, w') ← s3.Download (bucket s) key w;
    match err with
    | Some e =>
        if isNotFoundError e then mret (0, Some (Sentinel ErrBlobNotFound), w')
        else mret (0, Some (fmt.Errorf_w_v (Sentinel ErrBlobDownloadFailed) e), w')
    | None => mret (n, None, w')
    end.

Definition GetObject (s : S3Store) (ctx : Context) (key : string)
    : net (result bytes) :=
  if decide (key = "") then mret (Err (Sentinel ErrInvalidBlobKey))
  else
    r ← GetObject_call (bucket s) key;
    match r with
    | Err e =>
        if isNotFoundError e then mret (Err (Sentinel ErrBlobNotFound))
        else mret (Err (fmt.Errorf_w_v (Sentinel ErrBlobDownloadFailed) e))
    | Ok body => mret (Ok body)
    end.

Definition HeadObject (s : S3Store) (ctx : Context) (key : string)
    : net (result ObjectInfo.t) :=
  if decide (key = "") then mret (Err (Sentinel ErrInvalidBlobKey))
  else
    r ← HeadObject_call (bucket s) key;
    match r with
    | Err e =>
        if isNotFoundError e then mret (Err (Sentinel ErrBlobNotFound))
        else mret (Err (fmt.Errorf_text_w "failed to get object info" e))
    | Ok result =>
        mret (Ok {| ObjectInfo.Key := key;
                    ObjectInfo.Size := aws.ToInt64 (ho_ContentLength result);
                    ObjectInfo.ContentType := aws.ToString (ho_ContentType result);
                    ObjectInfo.ETag := aws.ToString (ho_ETag result);
                    ObjectInfo.LastModified := ho_LastModified result;
                    ObjectInfo.Metadata := ho_Metadata result |})
    end.

Definition Delete (s : S3Store) (ctx : Context) (key : string)
    : net (option error) :=
  if decide (key = "") then mret (Some (Sentinel ErrInvalidBlobKey))
  else
    err ← DeleteObject_call (bucket s) key;
    match err with
    | Some e => mret (Some (fmt.Errorf_w_v (Sentinel ErrBlobDeleteFailed) e))
    | None => mret None
    end.

Definition maxKeysPerRequest : nat := 1000.

(** The loop [for i := 0; i < len(keys); i += maxKeysPerRequest] of
    [DeleteMultiple], from index [i] on.  [fuel] bounds the number of
    rounds; [length keys] is always enough. *)
Fixpoint DeleteMultiple_loop (s : S3Store) (fuel : nat) (keys : list string)
    (i : nat) (failedKeys : list string) : net (list string) :=
  match fuel with
  | O => mret failedKeys
  | S fuel' =>
      if bool_decide (i < length keys)%nat then
        let end_ := (i + maxKeysPerRequest)%nat in
        let end_ := if bool_decide (length keys < end_)%nat then length keys else end_ in
        let batch := take (end_ - i) (drop i keys) in
        r ← DeleteObjects_call (bucket s) batch;
        match r with
        | Err _ =>
            DeleteMultiple_loop s fuel' keys (i + maxKeysPerRequest)
                                (failedKeys ++ batch)
        | Ok result =>
            DeleteMultiple_loop s fuel' keys (i + maxKeysPerRequest)
              (failedKeys ++ ((λ errObj, aws.ToString (de_Key errObj))
                                <$> do_Errors result))
        end
      else mret failedKeys
  end.

Definition DeleteMultiple (s : S3Store) (ctx : Context) (keys : list string)
    : net (list string * option error) :=
  if bool_decide (length keys = 0)%nat then mret ([], None)
  else
    failedKeys ← DeleteMultiple_loop s (length keys) keys 0 [];
    if bool_decide (0 < length failedKeys)%nat
    then mret (failedKeys,
               Some (fmt.Errorf_w_d_text (Sentinel ErrBlobDeleteFailed)
                       (length failedKeys) "objects failed to delete"))
    else mret ([], None).

Definition List (s : S3Store) (ctx : Context) (input : ListInput.t)
    : net (result ListOutput.t) :=
  let maxKeys := ListInput.MaxKeys input in
  let maxKeys := if bool_decide (maxKeys ≤ 0) then 1000 else maxKeys in
  let prefix := if decide (ListInput.Prefix input = "") then None
                else Some (ListInput.Prefix input) in
  let startAfter := if decide (ListInput.StartAfter input = "") then None
                    else Some (ListInput.StartAfter input) in
  r ← ListObjectsV2_call (bucket s) prefix startAfter maxKeys;
  match r with
  | Err e => mret (Err (fmt.Errorf_text_w "failed to list objects" e))
  | Ok result =>
      let objects :=
        (λ obj, {| ObjectInfo.Key := aws.ToString (lo_Key obj);
                   ObjectInfo.Size := aws.ToInt64 (lo_Size obj);
                   ObjectInfo.ContentType := "";
                   ObjectInfo.ETag := aws.ToString (lo_ETag obj);
                   ObjectInfo.LastModified := lo_LastModified obj;
                   ObjectInfo.Metadata := ∅ |}) <$> lo_Contents result in
      mret (Ok {| ListOutput.Objects := objects;
                  ListOutput.IsTruncated := aws.ToBool (lo_IsTruncated result);
                  ListOutput.NextMarker := last_key objects |})
  end.

Definition Exists (s : S3Store) (ctx : Context) (key : string)
    : net (bool * option error) :=
  r ← HeadObject s ctx key;
  match r with
  | Err e =>
      if errors.Is e ErrBlobNotFound then mret (false, None)
      else mret (false, Some e)
  | Ok _ => mret (true, None)
  end.

Definition Copy (s : S3Store) (ctx : Context) (sourceKey destKey : string)
    : net (option error) :=
  if bool_decide (sourceKey = "" ∨ destKey = "")
  then mret (Some (Sentinel ErrInvalidBlobKey))
  else
    err ← CopyObject_call (bucket s)
            (fmt.Sprintf_s_slash_s (bucket s) sourceKey) destKey;
    match err with
    | Some e =>
        if isNotFoundError e then mret (Some (Sentinel ErrBlobNotFound))
        else mret (Some (fmt.Errorf_text_w "failed to copy object" e))
    | None => mret None
    end.

Definition GeneratePresignedURL (s : S3Store) (ctx : Context) (key : string)
    (expirationSeconds : Z) : net (result string) :=
  if decide (key = "") then mret (Err (Sentinel ErrInvalidBlobKey))
  else
    r ← Presign "GetObject" (bucket s) key None expirationSeconds;
    match r with
    | Err e => mret (Err (fmt.Errorf_text_w "failed to generate presigned URL" e))
    | Ok url => mret (Ok url)
    end.

Definition GeneratePresignedUploadURL (s : S3Store) (ctx : Context) (key : string)
    (contentType : string) (expirationSeconds : Z) : net (result string) :=
  if decide (key = "") then mret (Err (Sentinel ErrInvalidBlobKey))
  else
    r ← Presign "PutObject" (bucket s) key
          (if decide (contentType = "") then None else Some contentType)
          expirationSeconds;
    match r with
    | Err e =>
        mret (Err (fmt.Errorf_text_w "failed to generate presigned upload URL" e))
    | Ok url => mret (Ok url)
    end.

End S3Store.

(* ===================================================================== *)
(** * The options of the networked backend (blob.go) *)
(* ===================================================================== *)

Record s3Options := {
  uploadPartSize : Z;             (* int64 *)
  uploadConcurrency : Z;          (* int *)
  uploadLeavePartsErr : bool;
  downloadPartSize : Z;           (* int64 *)
  downloadConcurrency : Z;        (* int *)
  customEndpoint : string;
  usePathStyle : bool;
}.

(** [defaultS3Options]. *)
Definition defaultS3Options : s3Options :=
  {| uploadPartSize := 10 * 1024 * 1024;
     uploadConcurrency := 5;
     uploadLeavePartsErr := false;
     downloadPartSize := 10 * 1024 * 1024;
     downloadConcurrency := 5;
     customEndpoint := "";
     usePathStyle := false |}.

(** [S3Option]: a function that updates the options. *)
Definition S3Option : Type := s3Options → s3Options.

Definition WithUploadPartSize (size : Z) : S3Option := λ o,
  if bool_decide (5 * 1024 * 1024 ≤ size)
  then {| uploadPartSize := size;
          uploadConcurrency := uploadConcurrency o;
          uploadLeavePartsErr := uploadLeavePartsErr o;
          downloadPartSize := downloadPartSize o;
          downloadConcurrency := downloadConcurrency o;
          customEndpoint := customEndpoint o;
          usePathStyle := usePathStyle o |}
  else o.

Definition WithUploadConcurrency (n : Z) : S3Option := λ o,
  if bool_decide (0 < n)
  then {| uploadPartSize := uploadPartSize o;
          uploadConcurrency := n;
          uploadLeavePartsErr := uploadLeavePartsErr o;
          downloadPartSize := downloadPartSize o;
          downloadConcurrency := downloadConcurrency o;
          customEndpoint := customEndpoint o;
          usePathStyle := usePathStyle o |}
  else o.

Definition WithDownloadPartSize (size : Z) : S3Option := λ o,
  if bool_decide (0 < size)
  then {| uploadPartSize := uploadPartSize o;
          uploadConcurrency := uploadConcurrency o;
          uploadLeavePartsErr := uploadLeavePartsErr o;
          downloadPartSize := size;
          downloadConcurrency := downloadConcurrency o;
          customEndpoint := customEndpoint o;
          usePathStyle := usePathStyle o |}
  else o.

Definition WithDownloadConcurrency (n : Z) : S3Option := λ o,
  if bool_decide (0 < n)
  then {| uploadPartSize := uploadPartSize o;
          uploadConcurrency := uploadConcurrency o;
          uploadLeavePartsErr := uploadLeavePartsErr o;
          downloadPartSize := downloadPartSize o;
          downloadConcurrency := n;
          customEndpoint := customEndpoint o;
          usePathStyle := usePathStyle o |}
  else o.

Definition WithCustomEndpoint (endpoint : string) : S3Option := λ o,
  {| uploadPartSize := uploadPartSize o;
     uploadConcurrency := uploadConcurrency o;
     uploadLeavePartsErr := uploadLeavePartsErr o;
     downloadPartSize := downloadPartSize o;
     downloadConcurrency := downloadConcurrency o;
     customEndpoint := endpoint;
     usePathStyle := usePathStyle o |}.

Definition WithPathStyle (enabled : bool) : S3Option := λ o,
  {| uploadPartSize := uploadPartSize o;
     uploadConcurrency := uploadConcurrency o;
     uploadLeavePartsErr := uploadLeavePartsErr o;
     downloadPartSize := downloadPartSize o;
     downloadConcurrency := downloadConcurrency o;
     customEndpoint := customEndpoint o;
     usePathStyle := enabled |}.

(** The settings of [manager.Uploader] and [manager.Downloader], and the
    endpoint settings of the client. *)
Record Uploader := {
  up_PartSize : Z;
  up_Concurrency : Z;
  up_LeavePartsOnError : bool;
}.

Record Downloader := {
  down_PartSize : Z;
  down_Concurrency : Z;
}.

Record ClientOptions := {
  BaseEndpoint : option string;
  UsePathStyle : bool;
}.

(** What [NewS3Store] builds: the store, with its client, its uploader and
    its downloader as they are configured. *)
Record S3StoreParts := {
  store : S3Store;
  client : ClientOptions;
  uploader : Uploader;
  downloader : Downloader;
}.

(** [NewS3Store(ctx, cfg, log, opts...)]: [S3Bucket] is [cfg.S3Bucket],
    and [loaded] the error, if any, of [awsconfig.LoadDefaultConfig]. *)
Definition NewS3Store (S3Bucket : string) (loaded : option error)
    (opts : list S3Option) : result S3StoreParts :=
  if decide (S3Bucket = "") then Err (fmt.Errorf_text "S3 bucket name is required")
  else
    let options := foldl (λ o opt, opt o) defaultS3Options opts in
    match loaded with
    | Some err => Err (fmt.Errorf_text_w "failed to load AWS config" err)
    | None =>
        Ok {| store := {| bucket := S3Bucket |};
              client :=
                if decide (customEndpoint options = "")
                then {| BaseEndpoint := None; UsePathStyle := false |}
                else {| BaseEndpoint := Some (customEndpoint options);
                        UsePathStyle := usePathStyle options |};
              uploader := {| up_PartSize := uploadPartSize options;
                             up_Concurrency := uploadConcurrency options;
                             up_LeavePartsOnError := uploadLeavePartsErr options |};
              downloader := {| down_PartSize := downloadPartSize options;
                               down_Concurrency := downloadConcurrency options |} |}
    end.

(** [Bucket]. *)
Definition Bucket (s : S3Store) : string := bucket s.


(* ===================================================================== *)
(** * Notions used in the statements *)
(* ===================================================================== *)

(** A result that is a rejection of the key. *)
Definition invalid_key (e : error) : Prop := errors.Is e ErrInvalidBlobKey = true.

(** The path elements of a key that name something, and those that go one
    level up. *)
Definition is_name (e : string) : bool := bool_decide (e ≠ "" ∧ e ≠ "." ∧ e ≠ "..").
Definition is_dotdot (e : string) : bool := bool_decide (e = "..").

(** A key escapes the root when, followed element by element from the
    root, it steps above it at some point: some initial part of the key has
    more [..] elements than names. *)
Definition escapes_root (key : string) : Prop :=
  ∃ n, (length (filter (λ e, is_name e = true) (take n (filepath.elements key)))
        < length (filter (λ e, is_dotdot e = true) (take n (filepath.elements key))))%nat.

(** The error of a Go result. *)
Definition result_err {A} (r : result A) : option error :=
  match r with
  | Ok _ => None
  | Err e => Some e
  end.

(** A run that refuses the key: it returns an error that is the
    invalid-key error, and leaves the state, the log of calls included, as
    it found it. *)
Definition refuses {S A} (run : S → A * S) (err_of : A → option error) (w : S) : Prop :=
  ∃ e, err_of (run w).1 = Some e ∧ invalid_key e ∧ (run w).2 = w.

(** The keys that the sanitizer is to refuse. *)
Definition unsafe_key (key : string) : Prop :=
  key = "" ∨ filepath.IsAbs key = true ∨ escapes_root key.

(** No failure is scheduled for the calls made from now on. *)
Definition quiet (w : world) : Prop :=
  ∀ i, (clock w ≤ i)%nat → mjoin (faults w !! i) = None.

Definition quiet_remote (r : s3.remote) : Prop :=
  ∀ i, (length (s3.requests r) ≤ i)%nat → mjoin (s3.failures r !! i) = None.

(** What every call leaves alone is the schedule of failures; and time
    moves on by one. *)
Definition ticks (w w' : world) : Prop :=
  faults w' = faults w ∧ clock w' = S (clock w).

(** Time has not gone back, and the schedule of failures is the same. *)
Definition later (w w' : world) : Prop :=
  faults w' = faults w ∧ (clock w ≤ clock w')%nat.

(** The context is never cancelled. *)
Definition live (ctx : Context) : Prop := cancel_at ctx = None.

(** What a reader finds under a path: the content of the regular file
    there, if there is one. *)
Definition content_at (w : world) (p : string) : option bytes :=
  match nodes w !! p with
  | Some (File c _) => Some c
  | _ => None
  end.

(** The path holds a stored object (a regular file), or nothing at all:
    not a directory, and nothing that is not a directory lies on the way
    to it. *)
Definition object_or_missing (m : gmap string node) (p : string) : Prop :=
  os.lookup_path m p = inl ENOENT ∨ ∃ c t, os.lookup_path m p = inr (File c t).

(** The deletions that [DeleteMultiple] makes on the local backend for
    [keys], one after the other, starting from the failed keys [failed]:
    the failed keys at the end, and the state. *)
Fixpoint deletes (f : FileSystemStore) (ctx : Context) (keys failed : list string)
    (w : world) : list string * world :=
  match keys with
  | [] => (failed, w)
  | key :: rest =>
      let '(err, w') := FileSystemStore.Delete f ctx key w in
      deletes f ctx rest
        (match err with
         | Some e => if negb (errors.Is e ErrBlobNotFound) then failed ++ [key] else failed
         | None => failed
         end) w'
  end.

(** The context is found live by the check made before each of these
    deletions. *)
Fixpoint live_during (f : FileSystemStore) (ctx : Context) (keys : list string)
    (w : world) : Prop :=
  match keys with
  | [] => True
  | key :: rest =>
      ctx_Err ctx (clock w) = None
      ∧ live_during f ctx rest (FileSystemStore.Delete f ctx key w).2
  end.

(** The one error that stands for all the failed keys of a batch delete. *)
Definition aggregate (failed : list string) (what : string) : option error :=
  if bool_decide (failed = []) then None
  else Some (fmt.Errorf_w_d_text (Sentinel ErrBlobDeleteFailed) (length failed) what).

(** [l] cut into pieces of [n] elements, the last one possibly shorter. *)
Fixpoint chunks_upto {A} (fuel n : nat) (l : list A) : list (list A) :=
  match fuel with
  | O => []
  | S fuel' =>
      match l with
      | [] => []
      | _ :: _ => take n l :: chunks_upto fuel' n (drop n l)
      end
  end.

Definition chunks {A} (n : nat) (l : list A) : list (list A) :=
  chunks_upto (length l) n l.

(** The batched requests that [DeleteMultiple] sends on the networked
    backend, one after the other: a batch whose request fails counts as
    failed whole, of a batch whose request succeeds the keys reported in
    error count. *)
Fixpoint send_batches (bucket : string) (batches : list (list string))
    (failed : list string) (r : s3.remote) : list string * s3.remote :=
  match batches with
  | [] => (failed, r)
  | batch :: rest =>
      let '(res, r') := s3.DeleteObjects_call bucket batch r in
      send_batches bucket rest
        (failed ++ match res with
                   | Err _ => batch
                   | Ok result => (λ errObj, aws.ToString (s3.de_Key errObj))
                                    <$> s3.do_Errors result
                   end) r'
  end.





(** A bucket whose service denies the next request. *)
Definition denying_bucket : s3.remote :=
  {| s3.objects := ∅; s3.locked := [];
     s3.signing_error := None;
     s3.failures := [Some (OperationError "HeadObject"
                             (GenericAPIError "AccessDenied" "Access Denied"))];
     s3.requests := [] |}.

(** The key under which an entry of the tree is stored: a regular file
    at or below the root of the store, by its path from the root. *)
Definition key_of (f : FileSystemStore) (pn : string * node) : option string :=
  match pn.2 with
  | Directory => None
  | File _ _ => filepath.ToSlash <$> os.Rel (basePath f) pn.1
  end.

(** The keys stored, in no particular order. *)
Definition stored_keys (f : FileSystemStore) (w : world) : list string :=
  omap (key_of f) (map_to_list (nodes w)).

(** The key passes the filters of the listing: it begins with the prefix,
    and comes strictly after the cursor when there is one. *)
Definition listed (input : ListInput.t) (key : string) : bool :=
  HasPrefix key (ListInput.Prefix input)
  && (bool_decide (ListInput.StartAfter input = "")
      || str_lt (ListInput.StartAfter input) key).

Definition max_keys (input : ListInput.t) : nat :=
  Z.to_nat (if bool_decide (ListInput.MaxKeys input ≤ 0) then 1000
            else ListInput.MaxKeys input).

(** A listing in the words of the specification: all the keys that pass
    the filters, then sorted in ascending order, then cut at the maximum;
    with the page go the truncation flag and the marker. *)
Definition List_spec (keys : list string) (input : ListInput.t)
    : list string * bool * string :=
  let matching := filter (λ k, listed input k = true) keys in
  let sorted := sort_by str_le matching in
  let page := take (max_keys input) sorted in
  (page, bool_decide (max_keys input < length sorted)%nat, default "" (last page)).

(** None of the temporary names the system may draw in the directory of
    [p] is [p] itself. *)
Definition temp_names_avoid (w : world) (p : string) : Prop :=
  ∀ r, r ∈ rand w → filepath.Join (filepath.Dir p) (".tmp-" +:+ r) ≠ p.

(** An upload request for [payload] under [key]. *)
Definition upload_of (key : string) (payload : bytes) : UploadInput.t :=
  {| UploadInput.Key := key; UploadInput.Body := Some (NewReader payload);
     UploadInput.ContentType := ""; UploadInput.Metadata := ∅ |}.

(** A machine with nothing but a root directory, and a store made on it. *)
Definition fresh_disk : world :=
  {| nodes := {[ "/" := Directory ]}; cwd := "/";
     rand := ["1"; "2"; "3"; "4"; "5"; "6"; "7"; "8"];
     faults := []; trace := [] |}.

Definition blobs : FileSystemStore := {| basePath := "/srv/blobs" |}.

Definition fresh_store : world :=
  (FileSystemStore.NewFileSystemStore "/srv/blobs" true fresh_disk).2.

Definition put (key payload : string) (w : world) : world :=
  (FileSystemStore.Upload blobs Background (upload_of key (bytes_of_string payload)) w).2.


(** The store with two objects, and a context that is cancelled right
    after the next call. *)
Definition two_objects : world := put "a/2" "2" (put "a/1" "1" fresh_store).

Definition cancelled_after_one_call : Context :=
  {| cancel_at := Some (S (clock two_objects)); by_deadline := false |}.

(** An empty bucket, and a store on it. *)
Definition fresh_bucket : s3.remote :=
  {| s3.objects := ∅; s3.locked := [];
     s3.signing_error := None; s3.failures := []; s3.requests := [] |}.

Definition remote_blobs : S3Store := {| bucket := "blobs" |}.

Definition put_remote (key payload : string) (r : s3.remote) : s3.remote :=
  (S3Store.Upload remote_blobs Background (upload_of key (bytes_of_string payload)) r).2.

(** What a listing returned, when it returned a page: the keys of the
    page, the truncation flag and the marker. *)
Definition page_of (r : result ListOutput.t) : option (list string * bool * string) :=
  match r with
  | Ok out => Some (ObjectInfo.Key <$> ListOutput.Objects out,
                    ListOutput.IsTruncated out, ListOutput.NextMarker out)
  | Err _ => None
  end.

(** The store with the five objects a/1 .. a/5, put in no order. *)
Definition five_objects : world :=
  put "a/4" "4" (put "a/2" "2" (put "a/5" "5" (put "a/1" "1" (put "a/3" "3" fresh_store)))).

(** The same five objects in a bucket. *)
Definition five_remote_objects : s3.remote :=
  put_remote "a/4" "4" (put_remote "a/2" "2" (put_remote "a/5" "5"
    (put_remote "a/1" "1" (put_remote "a/3" "3" fresh_bucket)))).

(** A single path element that names something: not empty, not [.] or
    [..], and without a separator in it. *)
Definition is_step (e : string) : Prop :=
  is_name e = true ∧ filepath.elements e = [e].

(** A path as [filepath.Abs] returns it: absolute, and clean already. *)
Definition clean_absolute (p : string) : Prop :=
  filepath.IsAbs p = true ∧ filepath.Clean p = p.

(** The request for the page after [marker]. *)
Definition next_page (input : ListInput.t) (marker : string) : ListInput.t :=
  {| ListInput.Prefix := ListInput.Prefix input;
     ListInput.MaxKeys := ListInput.MaxKeys input;
     ListInput.StartAfter := marker |}.

(** The context is cancelled already at the instant of [w]. *)
Definition cancelled (ctx : Context) (w : world) : Prop :=
  ∃ t, cancel_at ctx = Some t ∧ (t ≤ clock w)%nat.

(** A context cancelled from the start. *)
Definition already_cancelled : Context :=
  {| cancel_at := Some 0%nat; by_deadline := false |}.

(** The name is made of ASCII characters. *)
Definition is_ascii (s : string) : Prop :=
  Forall (λ c, (nat_of_ascii c < 128)%nat) (String.list_ascii_of_string s).

(** The store with an object under a/1.txt and one under b.txt, on a
    disk that fills up during the fifth call to come, after two bytes of it
    have been written. *)
Definition two_files_full_disk : world :=
  let w := put "b.txt" "old" (put "a/1.txt" "hello" fresh_store) in
  {| nodes := nodes w; cwd := cwd w; rand := rand w;
     faults := replicate (clock w + 4) None
               ++ [Some {| errno := ENOSPC; progress := 2 |}];
     trace := trace w |}.

(** An upload request with metadata and no content type. *)
Definition tagged_upload : UploadInput.t :=
  {| UploadInput.Key := "report.pdf";
     UploadInput.Body := Some (NewReader (bytes_of_string "hello"));
     UploadInput.ContentType := "";
     UploadInput.Metadata := {[ "owner" := "ops" ]} |}.

(** An upload request that states a content type and metadata. *)
Definition labelled_upload : UploadInput.t :=
  {| UploadInput.Key := "report.pdf";
     UploadInput.Body := Some (NewReader (bytes_of_string "hello"));
     UploadInput.ContentType := "text/plain";
     UploadInput.Metadata := {[ "owner" := "ops" ]} |}.

(** The options that the package lets a caller make. *)
Inductive package_option : S3Option → Prop :=
  | option_UploadPartSize size : package_option (WithUploadPartSize size)
  | option_UploadConcurrency n : package_option (WithUploadConcurrency n)
  | option_DownloadPartSize size : package_option (WithDownloadPartSize size)
  | option_DownloadConcurrency n : package_option (WithDownloadConcurrency n)
  | option_CustomEndpoint endpoint : package_option (WithCustomEndpoint endpoint)
  | option_PathStyle enabled : package_option (WithPathStyle enabled).

(** Settings the managers can work with: parts of at least 5 MiB for
    uploads, parts of some size for downloads, and at least one worker. *)
Definition usable_settings (o : s3Options) : Prop :=
  5 * 1024 * 1024 ≤ uploadPartSize o ∧ 0 < uploadConcurrency o
  ∧ 0 < downloadPartSize o ∧ 0 < downloadConcurrency o
  ∧ uploadLeavePartsErr o = false.

(** A key that reads the same URL-decoded: it has no percent sign and no
    plus sign. *)
Definition plain_key (key : string) : Prop :=
  Forall (λ c, c ≠ "%"%char ∧ c ≠ "+"%char) (String.list_ascii_of_string key).

(** What [os.Remove] lets go of, or finds gone already: a regular file,
    a directory without entries, or nothing at all. *)
Definition deletable (m : gmap string node) (p : string) : Prop :=
  os.lookup_path m p = inl ENOENT
  ∨ (∃ c t, os.lookup_path m p = inr (File c t))
  ∨ (os.lookup_path m p = inr Directory ∧ os.has_entries m p = false).

(** The error of [Delete] when [os.Remove] fails with [errno]. *)
Definition delete_failed (p : string) (errno : Errno) : error :=
  fmt.Errorf_w_v (Sentinel ErrBlobDeleteFailed) (PathError "remove" p errno).

(** No failure was injected into a removal made from [w] to [w']. *)
Definition no_failed_removal (w w' : world) : Prop :=
  ∀ i p, trace w' !! i = Some (CallRemove p) → (clock w ≤ i)%nat →
         mjoin (faults w !! i) = None.

(** The same, as a check that can be run: every call of the log that is
    a removal was scheduled without a failure. *)
Definition removals_unfailed (w w' : world) : bool :=
  forallb (λ ic, match ic.2 with
                 | CallRemove _ => bool_decide (mjoin (faults w !! ic.1) = None)
                 | _ => true
                 end)
          (imap pair (trace w')).

(* ===================================================================== *)
(** * Facts about paths and the sanitizer *)
(* ===================================================================== *)

(** The digests of the test suite of RFC 1321. *)
Lemma md5_test_suite :
  hex.EncodeToString (md5.Sum (bytes_of_string ""))
    = "d41d8cd98f00b204e9800998ecf8427e"
  ∧ hex.EncodeToString (md5.Sum (bytes_of_string "a"))
    = "0cc175b9c0f1b6a831c399e269772661"
  ∧ hex.EncodeToString (md5.Sum (bytes_of_string "abc"))
    = "900150983cd24fb0d6963f7d28e17f72"
  ∧ hex.EncodeToString (md5.Sum (bytes_of_string "message digest"))
    = "f96b697d7cb7938d525a2f31aaf161d0"
  ∧ hex.EncodeToString (md5.Sum (bytes_of_string "abcdefghijklmnopqrstuvwxyz"))
    = "c3fcd3d76192e4007dfb496cca67e13b"
  ∧ hex.EncodeToString (md5.Sum (bytes_of_string
      "12345678901234567890123456789012345678901234567890123456789012345678901234567890"))
    = "57edf4a22be3c955ac49da2e2107b67a".
Proof. repeat split; vm_compute; reflexivity. Qed.

(** [Clean] on paths of the kinds its documentation lists. *)
Lemma Clean_examples :
  filepath.Clean <$> [""; "abc"; "abc//def//ghi"; "abc/./../def"; "abc/def/";
                      "../../abc"; "/../abc"; "abc/../../././../def"; "//abc";
                      "a/.."; "..foo/bar"; "/"]
  = ["."; "abc"; "abc/def/ghi"; "def"; "abc/def";
     "../../abc"; "/abc"; "../../def"; "/abc";
     "."; "..foo/bar"; "/"].
Proof. vm_compute. reflexivity. Qed.

(** Paths of the store: the full path of a key, its directory, and how a
    walk names a file below the root. *)
Lemma path_examples :
  FileSystemStore.fullPath blobs "a/b/../c.txt" = Ok "/srv/blobs/a/c.txt"
  ∧ filepath.Dir "/srv/blobs/a/c.txt" = "/srv/blobs/a"
  ∧ os.ancestors "/srv/blobs/a/c.txt" = ["/"; "/srv"; "/srv/blobs"; "/srv/blobs/a"]
  ∧ os.Rel "/srv/blobs" "/srv/blobs/a/c.txt" = Some "a/c.txt"
  ∧ os.Rel "/srv/blobs" "/srv/blobster" = None
  ∧ FileSystemStore.detectContentType "a/Report.PDF" = "application/pdf"
  ∧ FileSystemStore.detectContentType "a/noext" = "application/octet-stream".
Proof. repeat split; vm_compute; reflexivity. Qed.

Lemma clean_loop_dotdot_head els : ∀ dotdot out,
  (0 < dotdot)%nat →
  ∃ rest, filepath.clean_loop false els dotdot out = ".." :: rest.
Proof.
  induction els as [|e r IH]; intros dotdot out Hpos; simpl.
  - destruct dotdot as [|d]; [lia|]. simpl. eauto.
  - repeat case_decide; try destruct out; eauto with lia.
Qed.

Lemma clean_loop_escape els : ∀ dotdot out n,
  (length out + length (filter (λ e, is_name e = true) (take n els))
   < length (filter (λ e, is_dotdot e = true) (take n els)))%nat →
  ∃ rest, filepath.clean_loop false els dotdot out = ".." :: rest.
Proof.
  induction els as [|e r IH]; intros dotdot out n Hn.
  - rewrite take_nil in Hn. simpl in Hn. lia.
  - destruct n as [|n]; [simpl in Hn; lia|].
    rewrite firstn_cons in Hn. rewrite !filter_cons in Hn.
    destruct (decide (is_name e = true)) as [Hname|Hname],
             (decide (is_dotdot e = true)) as [Hdd|Hdd];
      unfold is_name, is_dotdot in Hname, Hdd;
      rewrite ?bool_decide_eq_true in Hname, Hdd; simpl.
    + subst e. tauto.
    + rewrite decide_False by (intros [?|?]; tauto).
      rewrite decide_False by tauto.
      apply (IH _ _ n). simpl in *. lia.
    + subst e. rewrite decide_False by (intros [?|?]; discriminate).
      rewrite decide_True by done.
      destruct out as [|o out'].
      * apply clean_loop_dotdot_head. lia.
      * apply (IH _ _ n). simpl in Hn. lia.
    + rewrite decide_True; [by eauto|].
      destruct (decide (e = "")); [by left|].
      destruct (decide (e = ".")); [by right|].
      exfalso. apply Hname. done.
Qed.

Lemma join_dotdot_prefix rest :
  HasPrefix (Join_strings (".." :: rest) "/") ".." = true.
Proof. destruct rest; reflexivity. Qed.

Lemma join_dotdot_nonempty rest : Join_strings (".." :: rest) "/" ≠ "".
Proof. destruct rest; discriminate. Qed.

(** The sanitizer refuses every unsafe key. *)
Lemma fullPath_rejects f key :
  unsafe_key key →
  ∃ e, FileSystemStore.fullPath f key = Err e ∧ invalid_key e.
Proof.
  unfold FileSystemStore.fullPath, invalid_key.
  intros [-> | [Habs | [n Hn]]].
  - rewrite decide_True by done. eauto.
  - case_decide; [eauto|].
    unfold filepath.Clean. rewrite decide_False by done. rewrite Habs.
    rewrite orb_true_r. eauto.
  - case_decide; [eauto|].
    destruct (filepath.IsAbs key) eqn:Habs.
    + unfold filepath.Clean. rewrite decide_False by done. rewrite Habs.
      rewrite orb_true_r. eauto.
    + destruct (clean_loop_escape (filepath.elements key) 0 [] n) as [rest Hrest];
        [simpl; lia|].
      unfold filepath.Clean. rewrite decide_False by done. rewrite Habs, Hrest.
      rewrite decide_False by apply join_dotdot_nonempty.
      rewrite join_dotdot_prefix. eauto.
Qed.

Arguments clock : simpl never.
Arguments ctx_Err : simpl never.
Arguments fault_now : simpl never.
Arguments s3.failure_now : simpl never.
Arguments errors.Is : simpl nomatch.

(** Unfolding the sequencing of the two state-passing monads. *)
Ltac run_io :=
  cbn;
  repeat (progress unfold mbind, mret, io_bind, io_ret, s3.net_bind, s3.net_ret,
                          FileSystemStore.now; cbn).

Lemma fullPath_error f key e :
  FileSystemStore.fullPath f key = Err e →
  e = Sentinel ErrInvalidBlobKey ∨
  e = fmt.Errorf_w_text (Sentinel ErrInvalidBlobKey) "invalid key path".
Proof.
  unfold FileSystemStore.fullPath. intros H.
  repeat case_decide; try destruct (_ || _); simplify_eq; auto.
Qed.

Lemma fullPath_error_invalid f key e :
  FileSystemStore.fullPath f key = Err e →
  invalid_key e ∧ errors.Is e ErrBlobNotFound = false.
Proof. intros [-> | ->]%fullPath_error; split; reflexivity. Qed.

Lemma fullPath_nonempty f key p :
  FileSystemStore.fullPath f key = Ok p → key ≠ "".
Proof. unfold FileSystemStore.fullPath. case_decide; [done|]. by intros _ ->. Qed.

(** ** The operations of the local backend on a key the sanitizer refuses *)

Section local_refusals.
Context (f : FileSystemStore) (ctx : Context) (key : string) (e : error).
Hypothesis Hkey : FileSystemStore.fullPath f key = Err e.

Lemma Upload_refuses input w :
  UploadInput.Key input = key → UploadInput.Body input ≠ None →
  refuses (FileSystemStore.Upload f ctx input) result_err w.
Proof.
  intros Hk Hb. destruct (fullPath_error_invalid _ _ _ Hkey) as [Hinv _].
  unfold refuses, FileSystemStore.Upload. rewrite Hk.
  case_decide; [by exists (Sentinel ErrInvalidBlobKey)|].
  destruct (UploadInput.Body input); [|done]. rewrite Hkey. by exists e.
Qed.

Lemma Download_refuses sink w :
  refuses (FileSystemStore.Download f ctx key sink) (λ r, r.1.2) w.
Proof.
  destruct (fullPath_error_invalid _ _ _ Hkey) as [Hinv _].
  unfold refuses, FileSystemStore.Download. rewrite Hkey. by exists e.
Qed.

Lemma GetObject_refuses w :
  refuses (FileSystemStore.GetObject f ctx key) result_err w.
Proof.
  destruct (fullPath_error_invalid _ _ _ Hkey) as [Hinv _].
  unfold refuses, FileSystemStore.GetObject. rewrite Hkey. by exists e.
Qed.

Lemma HeadObject_refuses w :
  refuses (FileSystemStore.HeadObject f ctx key) result_err w.
Proof.
  destruct (fullPath_error_invalid _ _ _ Hkey) as [Hinv _].
  unfold refuses, FileSystemStore.HeadObject. rewrite Hkey. by exists e.
Qed.

Lemma Delete_refuses w :
  refuses (FileSystemStore.Delete f ctx key) id w.
Proof.
  destruct (fullPath_error_invalid _ _ _ Hkey) as [Hinv _].
  unfold refuses, FileSystemStore.Delete. rewrite Hkey. by exists e.
Qed.

Lemma Exists_refuses w :
  refuses (FileSystemStore.Exists f ctx key) snd w.
Proof.
  destruct (fullPath_error_invalid _ _ _ Hkey) as [Hinv Hnf].
  unfold refuses, FileSystemStore.Exists, FileSystemStore.HeadObject.
  rewrite Hkey. exists e. run_io. by rewrite Hnf.
Qed.

Lemma Copy_refuses_source other w :
  refuses (FileSystemStore.Copy f ctx key other) id w.
Proof.
  destruct (fullPath_error_invalid _ _ _ Hkey) as [Hinv _].
  unfold refuses, FileSystemStore.Copy.
  case_bool_decide; [by exists (Sentinel ErrInvalidBlobKey)|].
  rewrite Hkey. by exists e.
Qed.

Lemma Copy_refuses_dest other w :
  refuses (FileSystemStore.Copy f ctx other key) id w.
Proof.
  destruct (fullPath_error_invalid _ _ _ Hkey) as [Hinv _].
  unfold refuses, FileSystemStore.Copy.
  case_bool_decide; [by exists (Sentinel ErrInvalidBlobKey)|].
  destruct (FileSystemStore.fullPath f other) as [p|e'] eqn:Ho.
  - rewrite Hkey. by exists e.
  - exists e'. by destruct (fullPath_error_invalid _ _ _ Ho).
Qed.

End local_refusals.

(** ** The operations of the networked backend on the empty key *)

Section remote_refusals.
Context (s : S3Store) (ctx : Context).

Lemma S3_Upload_refuses_empty input r :
  UploadInput.Key input = "" →
  refuses (S3Store.Upload s ctx input) result_err r.
Proof.
  intros Hk. unfold refuses, S3Store.Upload. rewrite Hk.
  by exists (Sentinel ErrInvalidBlobKey).
Qed.

Lemma S3_Download_refuses_empty sink r :
  refuses (S3Store.Download s ctx "" sink) (λ x, x.1.2) r.
Proof. by exists (Sentinel ErrInvalidBlobKey). Qed.

Lemma S3_GetObject_refuses_empty r :
  refuses (S3Store.GetObject s ctx "") result_err r.
Proof. by exists (Sentinel ErrInvalidBlobKey). Qed.

Lemma S3_HeadObject_refuses_empty r :
  refuses (S3Store.HeadObject s ctx "") result_err r.
Proof. by exists (Sentinel ErrInvalidBlobKey). Qed.

Lemma S3_Delete_refuses_empty r :
  refuses (S3Store.Delete s ctx "") id r.
Proof. by exists (Sentinel ErrInvalidBlobKey). Qed.

Lemma S3_Exists_refuses_empty r :
  refuses (S3Store.Exists s ctx "") snd r.
Proof. by exists (Sentinel ErrInvalidBlobKey). Qed.

Lemma S3_Copy_refuses_empty source dest r :
  source = "" ∨ dest = "" →
  refuses (S3Store.Copy s ctx source dest) id r.
Proof.
  intros H. unfold refuses, S3Store.Copy.
  rewrite bool_decide_eq_true_2 by done. by exists (Sentinel ErrInvalidBlobKey).
Qed.

Lemma S3_presign_refuses_empty contentType expiry r :
  refuses (S3Store.GeneratePresignedURL s ctx "" expiry) result_err r ∧
  refuses (S3Store.GeneratePresignedUploadURL s ctx "" contentType expiry) result_err r.
Proof. split; by exists (Sentinel ErrInvalidBlobKey). Qed.

End remote_refusals.

(* ===================================================================== *)
(** * Facts about the operating-system model *)
(* ===================================================================== *)

Ltac solve_ticks :=
  split; [done | unfold clock; simpl; rewrite length_app; simpl; lia].

Lemma ticks_later w w' : ticks w w' → later w w'.
Proof. intros [? ?]. split; [done|lia]. Qed.

Lemma later_refl w : later w w.
Proof. by split. Qed.

Lemma later_trans w1 w2 w3 : later w1 w2 → later w2 w3 → later w1 w3.
Proof. intros [? ?] [? ?]. split; [congruence|lia]. Qed.

Lemma quiet_now w : quiet w → fault_now w = None.
Proof. intros H. apply H. lia. Qed.

Lemma quiet_later w w' : quiet w → later w w' → quiet w'.
Proof. intros H [Hf Hc] i Hi. rewrite Hf. apply H. lia. Qed.

(** Directories that stay directories keep a path passable. *)
Lemma through_keeps m m' dirs :
  (∀ d, m !! d = Some Directory → m' !! d = Some Directory) →
  os.through m dirs = None → os.through m' dirs = None.
Proof.
  intros Hm. induction dirs as [|d r IH]; simpl; [done|].
  destruct (m !! d) as [[]|] eqn:Hd; try done.
  rewrite (Hm _ Hd). done.
Qed.

Lemma mkdir_chain_keeps dirs : ∀ m e m' q n,
  os.mkdir_chain dirs m = (e, m') → m !! q = Some n → m' !! q = Some n.
Proof.
  induction dirs as [|d r IH]; simpl; intros m e m' q n H Hq; [by simplify_eq|].
  destruct (m !! d) as [[]|] eqn:Hd; simplify_eq; eauto.
  eapply IH; [done|]. rewrite lookup_insert_ne; [done|]. by intros ->; simplify_eq.
Qed.

Lemma mkdir_chain_adds_dirs dirs : ∀ m e m' q,
  os.mkdir_chain dirs m = (e, m') → m !! q = None →
  m' !! q = None ∨ m' !! q = Some Directory.
Proof.
  induction dirs as [|d r IH]; simpl; intros m e m' q H Hq; [simplify_eq; auto|].
  destruct (m !! d) as [[]|] eqn:Hd; simplify_eq; eauto.
  destruct (decide (d = q)) as [->|Hne].
  - right. eapply mkdir_chain_keeps; [done|]. by rewrite lookup_insert_eq.
  - eapply IH; [done|]. by rewrite lookup_insert_ne.
Qed.

Lemma MkdirAll_inv p w e w' :
  os.MkdirAll p w = (e, w') →
  ticks w w' ∧ rand w' = rand w
  ∧ (∀ q n, nodes w !! q = Some n → nodes w' !! q = Some n)
  ∧ (∀ q, content_at w' q = content_at w q).
Proof.
  unfold os.MkdirAll. intros H.
  destruct (fault_now w).
  { simplify_eq. split; [solve_ticks|]. done. }
  destruct (os.mkdir_chain _ _) as [e' m] eqn:Hm. simplify_eq.
  split; [solve_ticks|]. split; [done|]. split.
  - intros q n. by eapply mkdir_chain_keeps.
  - intros q. unfold content_at. simpl.
    destruct (nodes w !! q) as [n|] eqn:Hq.
    + by rewrite (mkdir_chain_keeps _ _ _ _ _ _ Hm Hq).
    + by destruct (mkdir_chain_adds_dirs _ _ _ _ _ Hm Hq) as [-> | ->].
Qed.

Lemma pick_temp_spec m dir pre rs p rs' :
  os.pick_temp m dir pre rs = Some (p, rs') →
  m !! p = None ∧ ∃ r, r ∈ rs ∧ p = filepath.Join dir (pre +:+ r).
Proof.
  induction rs as [|r rs IH]; simpl; [done|].
  destruct (m !! filepath.Join dir (pre +:+ r)) eqn:Hm.
  - intros [? [r' [? ?]]]%IH. split; [done|]. exists r'. split; [by right|done].
  - intros [= <- <-]. split; [done|]. exists r. split; [by left|done].
Qed.

Lemma CreateTemp_inv dir pre w r w' :
  os.CreateTemp dir pre w = (r, w') →
  ticks w w' ∧
  match r with
  | Ok tmp => nodes w !! tmp = None
              ∧ os.through (nodes w) (os.ancestors tmp) = None
              ∧ nodes w' = <[tmp := File [] (clock w)]> (nodes w)
              ∧ ∃ x, x ∈ rand w ∧ tmp = filepath.Join dir (pre +:+ x)
  | Err _ => nodes w' = nodes w
  end.
Proof.
  unfold os.CreateTemp. intros H.
  repeat case_match; simplify_eq; (split; [solve_ticks|]); try done.
  match goal with H : os.pick_temp _ _ _ _ = _ |- _ =>
    apply pick_temp_spec in H as [? ?] end.
  done.
Qed.

Lemma Write_inv p data w n e w' :
  os.Write p data w = (n, e, w') →
  ticks w w' ∧
  (∀ q, q ≠ p → nodes w' !! q = nodes w !! q) ∧
  (∀ old t, nodes w !! p = Some (File old t) →
     ∃ sent, nodes w' !! p = Some (File (old ++ sent) (clock w))
             ∧ (e = None → sent = data)).
Proof.
  unfold os.Write. intros H.
  repeat case_match; simplify_eq; (split; [solve_ticks|]);
    (split; [by intros; simpl; rewrite ?lookup_insert_ne|]);
    intros; simplify_eq/=; rewrite ?lookup_insert_eq;
    eexists; (split; [done|]); by intros.
Qed.

Lemma Close_inv p w e w' :
  os.Close p w = (e, w') → ticks w w' ∧ nodes w' = nodes w.
Proof.
  unfold os.Close. intros H.
  repeat case_match; simplify_eq; (split; [solve_ticks|]); done.
Qed.

Lemma Rename_inv old new w e w' :
  os.Rename old new w = (e, w') →
  ticks w w' ∧
  match e with
  | Some _ => nodes w' = nodes w
  | None => ∃ c t, nodes w !! old = Some (File c t)
                   ∧ os.through (nodes w) (os.ancestors new) = None
                   ∧ nodes w !! new ≠ Some Directory
                   ∧ nodes w' = <[new := File c t]> (delete old (nodes w))
  end.
Proof.
  unfold os.Rename, os.lookup_path. intros H.
  repeat case_match; simplify_eq; (split; [solve_ticks|]);
    try done; eexists _, _; repeat split; eauto; congruence.
Qed.

Lemma Remove_inv p w e w' :
  os.Remove p w = (e, w') →
  ticks w w' ∧
  (∀ q, q ≠ p → nodes w' !! q = nodes w !! q) ∧
  (nodes w' !! p = nodes w !! p ∨ nodes w' !! p = None) ∧
  (fault_now w = None → os.through (nodes w) (os.ancestors p) = None →
   nodes w !! p ≠ Some Directory → nodes w' !! p = None).
Proof.
  unfold os.Remove, os.lookup_path. intros H.
  repeat case_match; simplify_eq/=; (split; [solve_ticks|]);
    (split; [by intros; rewrite ?lookup_delete_ne|]);
    rewrite ?lookup_delete_eq; (split; [by auto|]); intros; simplify_eq; done.
Qed.

Lemma through_error m dirs e :
  os.through m dirs = Some e → e = ENOENT ∨ e = ENOTDIR.
Proof.
  induction dirs as [|d r IH]; simpl; [done|].
  destruct (m !! d) as [[]|]; [|done|]; intros [= <-]; auto.
Qed.

Lemma lookup_path_error m p e :
  os.lookup_path m p = inl e → e = ENOENT ∨ e = ENOTDIR.
Proof.
  unfold os.lookup_path.
  destruct (os.through m (os.ancestors p)) as [e'|] eqn:Ht.
  - intros [= <-]. by eapply through_error.
  - destruct (m !! p); [done|]. intros [= <-]. by left.
Qed.

(** ** The log of calls *)

Lemma MkdirAll_trace p w e w' :
  os.MkdirAll p w = (e, w') → trace w' = trace w ++ [CallMkdirAll p].
Proof. unfold os.MkdirAll. intros H. repeat case_match; by simplify_eq. Qed.

Lemma CreateTemp_trace dir pre w r w' :
  os.CreateTemp dir pre w = (r, w') → trace w' = trace w ++ [CallCreateTemp dir].
Proof. unfold os.CreateTemp. intros H. repeat case_match; by simplify_eq. Qed.

Lemma Create_trace p w e w' :
  os.Create p w = (e, w') → trace w' = trace w ++ [CallCreate p].
Proof. unfold os.Create. intros H. repeat case_match; by simplify_eq. Qed.

Lemma Write_trace p data w n e w' :
  os.Write p data w = (n, e, w') → trace w' = trace w ++ [CallWrite p].
Proof. unfold os.Write. intros H. repeat case_match; by simplify_eq. Qed.

Lemma Close_trace p w e w' :
  os.Close p w = (e, w') → trace w' = trace w ++ [CallClose p].
Proof. unfold os.Close. intros H. repeat case_match; by simplify_eq. Qed.

Lemma Rename_trace old new w e w' :
  os.Rename old new w = (e, w') → trace w' = trace w ++ [CallRename old new].
Proof. unfold os.Rename. intros H. repeat case_match; by simplify_eq. Qed.

Lemma Remove_trace p w e w' :
  os.Remove p w = (e, w') → trace w' = trace w ++ [CallRemove p].
Proof. unfold os.Remove. intros H. repeat case_match; by simplify_eq. Qed.

Lemma Open_trace p w r w' :
  os.Open p w = (r, w') → trace w' = trace w ++ [CallOpen p].
Proof. unfold os.Open. intros H. repeat case_match; by simplify_eq. Qed.

Lemma ReadAll_trace h w r w' :
  os.ReadAll h w = (r, w') → trace w' = trace w ++ [CallRead (h_path h)].
Proof. unfold os.ReadAll. intros H. repeat case_match; by simplify_eq. Qed.

(** The check of the removals decides what it is a check of. *)
Lemma removals_unfailed_spec w w' :
  removals_unfailed w w' = true → no_failed_removal w w'.
Proof.
  unfold removals_unfailed, no_failed_removal. intros H i p Hi _.
  rewrite forallb_forall in H.
  specialize (H (i, CallRemove p)). cbn [fst snd] in H.
  eapply bool_decide_eq_true_1, H, list_elem_of_In.
  apply (list_elem_of_lookup_2 _ i). by rewrite list_lookup_imap, Hi.
Qed.

(** A removal that is the call made at the instant of [w1], between [w]
    and [w'], was not failed when none was. *)
Lemma no_failed_removal_at w w1 w' p rest :
  no_failed_removal w w' →
  faults w1 = faults w → (clock w ≤ clock w1)%nat →
  trace w' = trace w1 ++ CallRemove p :: rest →
  fault_now w1 = None.
Proof.
  intros Hno Hf Hle Ht. unfold fault_now. rewrite Hf.
  apply (Hno _ p); [|done].
  rewrite Ht. unfold clock. rewrite lookup_app_r by lia.
  by rewrite Nat.sub_diag.
Qed.

(* ===================================================================== *)
(** * Facts about Upload on the local backend *)
(* ===================================================================== *)

Lemma fault_now_eq w : fault_now w = mjoin (faults w !! clock w).
Proof. done. Qed.

Lemma Upload_cleanup_inv tmp closed w u w' :
  FileSystemStore.Upload_cleanup tmp closed w = (u, w') →
  later w w' ∧ (clock w < clock w')%nat ∧
  (∀ q, q ≠ tmp → nodes w' !! q = nodes w !! q) ∧
  (nodes w' !! tmp = nodes w !! tmp ∨ nodes w' !! tmp = None) ∧
  (mjoin (faults w !! (clock w' - 1)%nat) = None →
   os.through (nodes w) (os.ancestors tmp) = None →
   nodes w !! tmp ≠ Some Directory → nodes w' !! tmp = None) ∧
  last (trace w') = Some (CallRemove tmp).
Proof.
  unfold FileSystemStore.Upload_cleanup. run_io. intros H.
  destruct closed.
  - destruct (os.Remove tmp w) as [e w1] eqn:HR. simplify_eq.
    pose proof (Remove_trace _ _ _ _ HR) as Htr.
    apply Remove_inv in HR as ([Hf Hc] & Hq & Ht & Hgone).
    split; [split; [done|lia]|]. split; [lia|]. split; [done|]. split; [done|].
    split; [|by rewrite Htr, last_snoc].
    intros Hfault. apply Hgone. rewrite fault_now_eq.
    by replace (clock w) with (clock w' - 1)%nat by lia.
  - destruct (os.Close tmp w) as [e0 w0] eqn:HC.
    destruct (os.Remove tmp w0) as [e w1] eqn:HR. simplify_eq.
    pose proof (Remove_trace _ _ _ _ HR) as Htr.
    apply Close_inv in HC as ([Hf0 Hc0] & Hn0).
    apply Remove_inv in HR as ([Hf Hc] & Hq & Ht & Hgone).
    rewrite Hn0 in *.
    split; [split; [congruence|lia]|]. split; [lia|]. split; [done|]. split; [done|].
    split; [|by rewrite Htr, last_snoc].
    intros Hfault. apply Hgone. rewrite fault_now_eq, Hf0.
    by replace (clock w0) with (clock w' - 1)%nat by lia.
Qed.


Lemma Upload_write_inv tmp full body w res closed w' t0 :
  nodes w !! tmp = Some (File [] t0) → tmp ≠ full →
  os.through (nodes w) (os.ancestors tmp) = None →
  FileSystemStore.Upload_write tmp full body w = (res, closed, w') →
  later w w' ∧
  os.through (nodes w') (os.ancestors tmp) = None ∧
  nodes w' !! tmp ≠ Some Directory ∧
  match res with
  | Ok out =>
      (∃ t, os.lookup_path (nodes w') full = inr (File (r_data body) t))
      ∧ UploadOutput.ETag out = hex.EncodeToString (md5.Sum (r_data body))
      ∧ UploadOutput.Location out = full
      ∧ nodes w' !! tmp = None
  | Err e =>
      errors.Is e ErrBlobUploadFailed = true
      ∧ (∀ q, q ≠ tmp → nodes w' !! q = nodes w !! q)
  end.
Proof.
  intros Htmp Hne Hthr. unfold FileSystemStore.Upload_write. run_io. intros H.
  destruct (os.Write tmp (r_data body) w) as [[n e1] w1] eqn:HW.
  apply Write_inv in HW as (T1 & Hq1 & Hw1).
  destruct (Hw1 _ _ Htmp) as (sent & Htmp1 & Hsent). clear Hw1.
  assert (Hthr1 : os.through (nodes w1) (os.ancestors tmp) = None).
  { eapply through_keeps; [|exact Hthr]. intros d Hd.
    rewrite Hq1; [done|]. intros ->. congruence. }
  assert (Hfail : ∀ w2, later w w2 → nodes w2 = nodes w1 → ∀ e,
            later w w2 ∧ os.through (nodes w2) (os.ancestors tmp) = None ∧
            nodes w2 !! tmp ≠ Some Directory ∧
            errors.Is (FileSystemStore.upload_failed e) ErrBlobUploadFailed = true ∧
            (∀ q, q ≠ tmp → nodes w2 !! q = nodes w !! q)).
  { intros w2 L2 Hn2 e. rewrite Hn2. repeat split; try done; try apply L2.
    rewrite Htmp1. done. }
  destruct e1 as [e1|].
  { simplify_eq. apply Hfail; [by apply ticks_later|done]. }
  specialize (Hsent eq_refl). subst sent.
  destruct (r_err body) as [eb|].
  { simplify_eq. apply Hfail; [by apply ticks_later|done]. }
  destruct (os.Close tmp w1) as [e2 w2] eqn:HC.
  apply Close_inv in HC as (T2 & Hn2).
  assert (L2 : later w w2).
  { eapply later_trans; by apply ticks_later. }
  destruct e2 as [e2|].
  { simplify_eq. by apply Hfail. }
  destruct (os.Rename tmp full w2) as [e3 w3] eqn:HR.
  apply Rename_inv in HR as (T3 & HR).
  assert (L3 : later w w3).
  { eapply later_trans; [exact L2|by apply ticks_later]. }
  destruct e3 as [e3|].
  { simplify_eq. apply Hfail; [done|congruence]. }
  destruct HR as (c & t & Hold & Hthrf & Hnd & Hn3). simplify_eq.
  rewrite Hn2, Htmp1 in Hold. simplify_eq. rewrite Hn2 in *. simpl in *.
  assert (Hdirs : ∀ d, nodes w1 !! d = Some Directory → nodes w' !! d = Some Directory).
  { intros d Hd. rewrite Hn3.
    rewrite lookup_insert_ne by (intros ->; congruence).
    rewrite lookup_delete_ne by (intros ->; congruence). done. }
  split; [done|]. split; [by eapply through_keeps|].
  rewrite Hn3. rewrite lookup_insert_ne by done. rewrite lookup_delete_eq.
  split; [done|]. split; [|done].
  exists (clock w). unfold os.lookup_path.
  rewrite <- Hn3. rewrite (through_keeps _ _ _ Hdirs Hthrf).
  rewrite Hn3, lookup_insert_eq. done.
Qed.

Lemma Upload_temp_inv tmp full body w res w' t0 :
  nodes w !! tmp = Some (File [] t0) → tmp ≠ full →
  os.through (nodes w) (os.ancestors tmp) = None →
  FileSystemStore.Upload_temp tmp full body w = (res, w') →
  later w w' ∧ (clock w < clock w')%nat ∧
  last (trace w') = Some (CallRemove tmp) ∧
  (mjoin (faults w !! (clock w' - 1)%nat) = None → nodes w' !! tmp = None) ∧
  match res with
  | Ok out =>
      (∃ t, os.lookup_path (nodes w') full = inr (File (r_data body) t))
      ∧ UploadOutput.ETag out = hex.EncodeToString (md5.Sum (r_data body))
      ∧ UploadOutput.Location out = full
  | Err e =>
      errors.Is e ErrBlobUploadFailed = true
      ∧ nodes w' !! full = nodes w !! full
      ∧ ∀ q, q ≠ tmp → nodes w' !! q = nodes w !! q
  end.
Proof.
  intros Htmp Hne Hthr. unfold FileSystemStore.Upload_temp. run_io. intros H.
  destruct (FileSystemStore.Upload_write tmp full body w) as [[res0 closed] w1] eqn:HW.
  destruct (FileSystemStore.Upload_cleanup tmp closed w1) as [u w2] eqn:HC.
  simplify_eq.
  apply (Upload_write_inv _ _ _ _ _ _ _ _ Htmp Hne Hthr) in HW
    as (L1 & Hthr1 & Hnd1 & Hres).
  apply Upload_cleanup_inv in HC as (L2 & Hlt & Hq & Hsame & Hgone & Hlast).
  split; [by eapply later_trans|].
  split; [destruct L1 as [_ ?]; lia|].
  split; [done|].
  split.
  { intros Hf. apply Hgone; [|done|done]. destruct L1 as [-> _]. done. }
  destruct res as [out|e].
  - destruct Hres as ((t & Hfull) & Hetag & Hloc & Hnone).
    split; [|done]. exists t.
    unfold os.lookup_path in *.
    destruct (os.through (nodes w1) (os.ancestors full)) eqn:Hthrf; [done|].
    rewrite (through_keeps (nodes w1) (nodes w') (os.ancestors full)); [|  |done].
    + by rewrite Hq.
    + intros d Hd. rewrite Hq; [done|]. intros ->. congruence.
  - destruct Hres as (Hkind & Hframe). split; [done|]. split.
    + rewrite Hq by done. by apply Hframe.
    + intros q Hqt. rewrite Hq by done. by apply Hframe.
Qed.

Lemma Upload_inv f ctx input body full w res w' :
  UploadInput.Body input = Some body →
  FileSystemStore.fullPath f (UploadInput.Key input) = Ok full →
  temp_names_avoid w full →
  FileSystemStore.Upload f ctx input w = (res, w') →
  later w w' ∧
  match res with
  | Ok out =>
      (∃ t, os.lookup_path (nodes w') full = inr (File (r_data body) t))
      ∧ UploadOutput.ETag out = hex.EncodeToString (md5.Sum (r_data body))
      ∧ UploadOutput.Location out = full
  | Err e => content_at w' full = content_at w full
  end.
Proof.
  intros Hbody Hfull Havoid. unfold FileSystemStore.Upload.
  rewrite decide_False by (by eapply fullPath_nonempty).
  rewrite Hbody, Hfull. run_io. intros H.
  destruct (os.MkdirAll (filepath.Dir full) w) as [e1 w1] eqn:HM.
  apply MkdirAll_inv in HM as (T1 & Hr1 & Hkeep & Hcontent).
  destruct e1 as [e1|].
  { simplify_eq. split; [by apply ticks_later|done]. }
  destruct (ctx_Err ctx (clock w1)) as [ec|].
  { simplify_eq. split; [by apply ticks_later|done]. }
  destruct (os.CreateTemp (filepath.Dir full) ".tmp-" w1) as [r2 w2] eqn:HT.
  apply CreateTemp_inv in HT as (T2 & HT).
  assert (L2 : later w w2).
  { eapply later_trans; by apply ticks_later. }
  destruct r2 as [tmp|e2].
  2:{ simplify_eq. split; [done|]. rewrite <- Hcontent. unfold content_at. by rewrite HT. }
  destruct HT as (Hfree & Hthr & Hn2 & x & Hx & Htmp).
  assert (Hne : tmp ≠ full).
  { rewrite Htmp. apply Havoid. by rewrite <- Hr1. }
  assert (Htmp2 : nodes w2 !! tmp = Some (File [] (clock w1))).
  { by rewrite Hn2, lookup_insert_eq. }
  assert (Hthr2 : os.through (nodes w2) (os.ancestors tmp) = None).
  { eapply through_keeps; [|exact Hthr]. intros d Hd. rewrite Hn2.
    rewrite lookup_insert_ne; [done|]. intros ->. congruence. }
  apply (Upload_temp_inv _ _ _ _ _ _ _ Htmp2 Hne Hthr2) in H
    as (L3 & _ & _ & _ & Hres).
  split; [by eapply later_trans|].
  destruct res as [out|e]; [done|].
  destruct Hres as (_ & Hsame & _). rewrite <- Hcontent. unfold content_at.
  rewrite Hsame, Hn2. by rewrite lookup_insert_ne.
Qed.


(* ===================================================================== *)
(** * Facts about reading on the local backend *)
(* ===================================================================== *)

Lemma live_Err ctx t : live ctx → ctx_Err ctx t = None.
Proof. unfold live, ctx_Err. by intros ->. Qed.

Lemma quiet_log c w : quiet w → quiet (log c w).
Proof. intros H. eapply quiet_later; [done|]. apply ticks_later. solve_ticks. Qed.


Lemma write_at_fresh data : write_at [] data 0 = data.
Proof. unfold write_at. cbn. rewrite drop_nil. apply app_nil_r. Qed.

Lemma WriteAt_unbounded sink data :
  capacity sink = None →
  WriteAt sink data 0 =
    (length data, None, {| buf := write_at (buf sink) data 0; capacity := None |}).
Proof. unfold WriteAt. by intros ->. Qed.

Section local_reads.
Context (f : FileSystemStore) (ctx : Context) (key full : string).
Context (data : bytes) (t : nat) (w : world).
Hypothesis Hfull : FileSystemStore.fullPath f key = Ok full.
Hypothesis Hfile : os.lookup_path (nodes w) full = inr (File data t).
Hypothesis Hquiet : quiet w.
Hypothesis Hlive : live ctx.

Lemma Download_stored sink :
  capacity sink = None →
  (FileSystemStore.Download f ctx key sink w).1 =
    (Z.of_nat (length data), None,
     {| buf := write_at (buf sink) data 0; capacity := None |}).
Proof.
  intros Hcap. unfold FileSystemStore.Download. rewrite Hfull. run_io.
  unfold os.Open. rewrite (quiet_now _ Hquiet), Hfile. run_io.
  rewrite (live_Err _ _ Hlive). unfold os.ReadAll. run_io.
  rewrite (quiet_now _ (quiet_log _ _ Hquiet)).
  rewrite (WriteAt_unbounded _ _ Hcap). by destruct (os.Close _ _).
Qed.


Lemma HeadObject_stored :
  (FileSystemStore.HeadObject f ctx key w).1 =
    Ok {| ObjectInfo.Key := key;
          ObjectInfo.Size := Z.of_nat (length data);
          ObjectInfo.ContentType := FileSystemStore.detectContentType key;
          ObjectInfo.ETag := "";
          ObjectInfo.LastModified := Some t;
          ObjectInfo.Metadata := ∅ |}.
Proof.
  unfold FileSystemStore.HeadObject. rewrite Hfull. run_io.
  unfold os.Stat. by rewrite (quiet_now _ Hquiet), Hfile.
Qed.

End local_reads.

Lemma lookup_path_content w p c t :
  os.lookup_path (nodes w) p = inr (File c t) → content_at w p = Some c.
Proof.
  unfold os.lookup_path, content_at. intros H.
  repeat case_match; simplify_eq; done.
Qed.

(* ===================================================================== *)
(** * Facts about the networked backend *)
(* ===================================================================== *)

Lemma quiet_remote_now r : quiet_remote r → s3.failure_now r = None.
Proof. intros H. apply H. lia. Qed.

Lemma quiet_remote_sent q r : quiet_remote r → quiet_remote (s3.sent q r).
Proof.
  intros H i Hi. apply H. simpl in Hi. rewrite length_app in Hi. simpl in Hi. lia.
Qed.



Section remote_reads.
Context (s : S3Store) (ctx : Context) (key : string) (o : s3.Object) (r : s3.remote).
Hypothesis Hkey : key ≠ "".
Hypothesis Hobj : s3.objects r !! key = Some o.
Hypothesis Hquiet : quiet_remote r.



End remote_reads.

(* ===================================================================== *)
(** * C2: what is uploaded is what is read back *)
(* ===================================================================== *)




(* ===================================================================== *)
(** * C4: HeadObject after an upload on the local backend *)
(* ===================================================================== *)

(** C4, counterexample.  After the upload of ["hello"] under
    ["greeting.txt"], whose result carries the MD5 of the content as its
    ETag, [HeadObject] returns size 5 and an empty ETag, which is not that
    hash. *)
Lemma local_head_has_no_etag :
  (FileSystemStore.Upload blobs Background
     (upload_of "greeting.txt" (bytes_of_string "hello")) fresh_store).1
  = Ok {| UploadOutput.Location := "/srv/blobs/greeting.txt";
          UploadOutput.VersionID := "";
          UploadOutput.ETag := "5d41402abc4b2a76b9719d911017c592" |}
  ∧ (FileSystemStore.HeadObject blobs Background "greeting.txt"
       (put "greeting.txt" "hello" fresh_store)).1
    = Ok {| ObjectInfo.Key := "greeting.txt";
            ObjectInfo.Size := 5;
            ObjectInfo.ContentType := "text/plain";
            ObjectInfo.ETag := "";
            ObjectInfo.LastModified := Some 3%nat;
            ObjectInfo.Metadata := ∅ |}
  ∧ hex.EncodeToString (md5.Sum (bytes_of_string "hello"))
    = "5d41402abc4b2a76b9719d911017c592"
  ∧ "" ≠ hex.EncodeToString (md5.Sum (bytes_of_string "hello")).
Proof.
  split; [vm_compute; reflexivity|].
  split; [vm_compute; reflexivity|].
  split; [vm_compute; reflexivity|].
  vm_compute. discriminate.
Qed.

(** C4, as amended.  On the local backend, after a successful upload of a
    payload, the ETag of the upload's result is the hexadecimal MD5 of the
    payload, and [HeadObject] on the key (no call failing) returns an
    [ObjectInfo] with the key, [Size] equal to the payload's length and an
    empty [ETag]: the local [HeadObject] does not report a content hash.
    For ["hello"] the size is 5 and the upload's ETag is
    5d41402abc4b2a76b9719d911017c592. *)
Theorem local_head_after_upload :
  (∀ f ctx ctx' key payload w out w' full,
     FileSystemStore.fullPath f key = Ok full →
     temp_names_avoid w full →
     FileSystemStore.Upload f ctx (upload_of key payload) w = (Ok out, w') →
     quiet w' →
     UploadOutput.ETag out = hex.EncodeToString (md5.Sum payload)
     ∧ ∃ info, (FileSystemStore.HeadObject f ctx' key w').1 = Ok info
               ∧ ObjectInfo.Key info = key
               ∧ ObjectInfo.Size info = Z.of_nat (length payload)
               ∧ ObjectInfo.ETag info = "")
  ∧ Z.of_nat (length (bytes_of_string "hello")) = 5
  ∧ hex.EncodeToString (md5.Sum (bytes_of_string "hello"))
    = "5d41402abc4b2a76b9719d911017c592".
Proof.
  split; [|split; vm_compute; reflexivity].
  intros f ctx ctx' key payload w out w' full Hfull Havoid Hup Hquiet.
  apply (Upload_inv f ctx (upload_of key payload) (NewReader payload)
           full w (Ok out) w' eq_refl Hfull Havoid) in Hup
    as (_ & (t & Hfile) & Hetag & _). simpl in Hfile, Hetag.
  split; [done|].
  eexists. split; [by eapply HeadObject_stored|]. done.
Qed.

(** The theorem at work on ["hello"] put under ["greeting.txt"]. *)
Lemma local_head_after_upload_witness :
  ∃ info, (FileSystemStore.HeadObject blobs Background "greeting.txt"
             (put "greeting.txt" "hello" fresh_store)).1 = Ok info
          ∧ ObjectInfo.Key info = "greeting.txt"
          ∧ ObjectInfo.Size info = 5
          ∧ ObjectInfo.ETag info = "".
Proof.
  pose (run := FileSystemStore.Upload blobs Background
                 (upload_of "greeting.txt" (bytes_of_string "hello")) fresh_store).
  assert (Hfull : FileSystemStore.fullPath blobs "greeting.txt"
                  = Ok "/srv/blobs/greeting.txt") by (vm_compute; reflexivity).
  assert (Hrand : rand fresh_store = ["1"; "2"; "3"; "4"; "5"; "6"; "7"; "8"])
    by (vm_compute; reflexivity).
  assert (Havoid : temp_names_avoid fresh_store "/srv/blobs/greeting.txt").
  { intros r Hr. rewrite Hrand in Hr. revert r Hr. apply Forall_forall.
    repeat constructor; vm_compute; discriminate. }
  assert (Hout : run.1 = Ok {| UploadOutput.Location := "/srv/blobs/greeting.txt";
                               UploadOutput.VersionID := "";
                               UploadOutput.ETag := "5d41402abc4b2a76b9719d911017c592" |})
    by (vm_compute; reflexivity).
  assert (Hup : run = (Ok {| UploadOutput.Location := "/srv/blobs/greeting.txt";
                             UploadOutput.VersionID := "";
                             UploadOutput.ETag := "5d41402abc4b2a76b9719d911017c592" |},
                       put "greeting.txt" "hello" fresh_store)).
  { rewrite (surjective_pairing run), Hout. reflexivity. }
  assert (Hfaults : faults (put "greeting.txt" "hello" fresh_store) = [])
    by (vm_compute; reflexivity).
  assert (Hquiet : quiet (put "greeting.txt" "hello" fresh_store)).
  { intros i _. rewrite Hfaults. reflexivity. }
  exact (proj2 (proj1 local_head_after_upload blobs Background Background
                  "greeting.txt" (bytes_of_string "hello") fresh_store _ _ _
                  Hfull Havoid Hup Hquiet)).
Defined.

(* ===================================================================== *)
(** * C7: a failed upload leaves the key as it was *)
(* ===================================================================== *)



(* ===================================================================== *)
(** * Facts about Delete *)
(* ===================================================================== *)

Lemma lookup_path_delete_file m p c t :
  os.lookup_path m p = inr (File c t) →
  os.lookup_path (delete p m) p = inl ENOENT.
Proof.
  unfold os.lookup_path. intros H.
  destruct (os.through m (os.ancestors p)) eqn:Hthr; [done|].
  destruct (m !! p) as [n|] eqn:Hp; simplify_eq.
  rewrite (through_keeps m (delete p m) _); [by rewrite lookup_delete_eq| |done].
  intros d Hd. rewrite lookup_delete_ne; [done|]. intros ->. congruence.
Qed.

(** Removing a regular file changes nothing about the paths that held an
    object or nothing. *)
Lemma through_delete_file m p c t dirs :
  m !! p = Some (File c t) →
  os.through m dirs = None ∨ os.through m dirs = Some ENOENT →
  os.through (delete p m) dirs = os.through m dirs.
Proof.
  intros Hp. induction dirs as [|d r IH]; simpl; [done|].
  destruct (decide (d = p)) as [->|Hne].
  - rewrite Hp. intros [?|?]; done.
  - rewrite lookup_delete_ne by done. destruct (m !! d) as [[]|]; auto.
Qed.

Lemma object_or_missing_delete m p c t q :
  os.lookup_path m p = inr (File c t) →
  object_or_missing m q → object_or_missing (delete p m) q.
Proof.
  intros Hp Hq.
  assert (Hmp : m !! p = Some (File c t)).
  { unfold os.lookup_path in Hp. repeat case_match; simplify_eq; done. }
  destruct (decide (q = p)) as [->|Hne].
  { left. by eapply lookup_path_delete_file. }
  unfold object_or_missing, os.lookup_path in *.
  rewrite lookup_delete_ne by done.
  rewrite (through_delete_file m p c t _ Hmp); [done|].
  destruct Hq as [Hq | (c' & t' & Hq)]; repeat case_match; simplify_eq; auto.
Qed.

Section local_delete.
Context (f : FileSystemStore) (ctx : Context) (key full : string) (w : world).
Hypothesis Hfull : FileSystemStore.fullPath f key = Ok full.
Hypothesis Hnow : fault_now w = None.

Lemma Delete_missing :
  os.lookup_path (nodes w) full = inl ENOENT →
  FileSystemStore.Delete f ctx key w = (None, log (CallRemove full) w).
Proof.
  intros H. unfold FileSystemStore.Delete. rewrite Hfull. run_io.
  unfold os.Remove. by rewrite Hnow, H.
Qed.

Lemma Delete_file c t :
  os.lookup_path (nodes w) full = inr (File c t) →
  FileSystemStore.Delete f ctx key w =
    (None, with_nodes (delete full (nodes w)) (log (CallRemove full) w)).
Proof.
  intros H. unfold FileSystemStore.Delete. rewrite Hfull. run_io.
  unfold os.Remove. by rewrite Hnow, H.
Qed.

(** [Delete] by what is found at the path of the key. *)
Lemma Delete_lookup :
  FileSystemStore.Delete f ctx key w =
    match os.lookup_path (nodes w) full with
    | inl ENOENT => (None, log (CallRemove full) w)
    | inl e => (Some (delete_failed full e), log (CallRemove full) w)
    | inr (File _ _) =>
        (None, with_nodes (delete full (nodes w)) (log (CallRemove full) w))
    | inr Directory =>
        if os.has_entries (nodes w) full
        then (Some (delete_failed full ENOTEMPTY), log (CallRemove full) w)
        else (None, with_nodes (delete full (nodes w)) (log (CallRemove full) w))
    end.
Proof.
  unfold FileSystemStore.Delete. rewrite Hfull. run_io.
  unfold os.Remove. rewrite Hnow.
  destruct (os.lookup_path (nodes w) full) as [[]|[]]; try done.
  by destruct (os.has_entries _ _).
Qed.

End local_delete.

Lemma through_delete_any m p dirs :
  os.through m dirs = None →
  os.through (delete p m) dirs = None ∨ os.through (delete p m) dirs = Some ENOENT.
Proof.
  induction dirs as [|d r IH]; simpl; [by left|].
  destruct (decide (d = p)) as [->|Hne].
  - rewrite lookup_delete_eq. by right.
  - rewrite lookup_delete_ne by done. by destruct (m !! d) as [[]|].
Qed.

(** Whatever was at a path, nothing is once it has been removed. *)
Lemma lookup_path_delete m p n :
  os.lookup_path m p = inr n → os.lookup_path (delete p m) p = inl ENOENT.
Proof.
  unfold os.lookup_path. intros H.
  destruct (os.through m (os.ancestors p)) eqn:Hthr; [done|].
  destruct (through_delete_any m p _ Hthr) as [-> | ->]; [|done].
  by rewrite lookup_delete_eq.
Qed.

(** The paths at which [os.Remove] fails for another reason than there
    being nothing: a directory with entries, and a path that goes through
    a regular file. *)
Lemma not_deletable m p :
  ¬ deletable m p ↔
  os.lookup_path m p = inl ENOTDIR
  ∨ (os.lookup_path m p = inr Directory ∧ os.has_entries m p = true).
Proof.
  unfold deletable. split.
  - intros Hnot. destruct (os.lookup_path m p) as [e|[c t|]] eqn:Hl.
    + destruct (lookup_path_error _ _ _ Hl) as [-> | ->]; [|by left].
      exfalso. apply Hnot. by left.
    + exfalso. apply Hnot. right. left. eauto.
    + right. split; [done|]. destruct (os.has_entries m p) eqn:He; [done|].
      exfalso. apply Hnot. right. by right.
  - intros [Hl | [Hl He]] [H | [(c & t & H) | [H He']]]; congruence.
Qed.

(** [Delete] where [os.Remove] fails so: the delete-failed error, the tree
    as it was, and the same again at the next call. *)
Lemma Delete_refused f ctx key full w :
  FileSystemStore.fullPath f key = Ok full →
  quiet w →
  ¬ deletable (nodes w) full →
  ∃ errno,
    (errno = ENOTEMPTY ∨ errno = ENOTDIR)
    ∧ FileSystemStore.Delete f ctx key w
      = (Some (delete_failed full errno), log (CallRemove full) w)
    ∧ FileSystemStore.Delete f ctx key (log (CallRemove full) w)
      = (Some (delete_failed full errno),
         log (CallRemove full) (log (CallRemove full) w)).
Proof.
  intros Hfull Hquiet Hnot.
  rewrite (Delete_lookup f ctx key full w Hfull (quiet_now _ Hquiet)).
  rewrite (Delete_lookup f ctx key full _ Hfull (quiet_now _ (quiet_log _ _ Hquiet))).
  cbn [nodes log].
  apply not_deletable in Hnot as [Hl | [Hl He]]; rewrite Hl.
  - exists ENOTDIR. auto.
  - rewrite He. exists ENOTEMPTY. auto.
Qed.

Lemma S3_Delete_quiet s ctx key r :
  key ≠ "" → s3.failure_now r = None →
  S3Store.Delete s ctx key r =
    (None, s3.with_objects (delete key (s3.objects r))
             (s3.sent (s3.DeleteObject (bucket s) key) r)).
Proof.
  intros Hkey Hnow. unfold S3Store.Delete. rewrite decide_False by done. run_io.
  unfold s3.DeleteObject_call. by rewrite Hnow.
Qed.

(* ===================================================================== *)
(** * C6: Delete is idempotent *)
(* ===================================================================== *)

(** C6, counterexample.  With an object stored under [a/1.txt], the key
    [a] is valid and holds no object ([Exists] returns false), yet [Delete]
    of it does not return success: it returns the delete-failed error around
    the refusal of [os.Remove] to remove a directory that has entries, the
    first time and the second time. *)
Lemma delete_fails_on_directory_key :
  let w := put "a/1.txt" "hello" fresh_store in
  let once := FileSystemStore.Delete blobs Background "a" w in
  FileSystemStore.fullPath blobs "a" = Ok "/srv/blobs/a"
  ∧ (FileSystemStore.Exists blobs Background "a" w).1 = (false, None)
  ∧ once.1 = Some (delete_failed "/srv/blobs/a" ENOTEMPTY)
  ∧ (FileSystemStore.Delete blobs Background "a" once.2).1
    = Some (delete_failed "/srv/blobs/a" ENOTEMPTY)
  ∧ errors.Is (delete_failed "/srv/blobs/a" ENOTEMPTY) ErrBlobDeleteFailed = true
  ∧ errors.Error (delete_failed "/srv/blobs/a" ENOTEMPTY)
    = "blob delete failed: remove /srv/blobs/a: directory not empty".
Proof. repeat split; vm_compute; reflexivity. Qed.

(** C6, as amended.  On the local backend, for a valid key and no call
    failing.  When the path of the key holds a stored object, a directory
    without entries or nothing, [Delete] returns no error, nothing is at the
    path afterwards, a [Delete] of what is absent changes nothing in the
    tree, and so a second [Delete] of the same key returns no error either.
    When it holds a directory with entries, or goes through a regular file,
    [Delete] returns the delete-failed error around the error of
    [os.Remove], leaves the tree as it was, and does the same the second
    time; these are the only two cases.  On the networked backend, for a
    key that is not empty and no request failing, [Delete] returns no error
    whether or not the key holds an object, the first time and the second
    time. *)
Theorem delete_is_idempotent :
  (∀ f ctx key full w,
     FileSystemStore.fullPath f key = Ok full →
     quiet w →
     deletable (nodes w) full →
     ∃ w1 w2,
       FileSystemStore.Delete f ctx key w = (None, w1)
       ∧ os.lookup_path (nodes w1) full = inl ENOENT
       ∧ (os.lookup_path (nodes w) full = inl ENOENT → nodes w1 = nodes w)
       ∧ FileSystemStore.Delete f ctx key w1 = (None, w2)
       ∧ nodes w2 = nodes w1)
  ∧ (∀ f ctx key full w,
       FileSystemStore.fullPath f key = Ok full →
       quiet w →
       ¬ deletable (nodes w) full →
       ∃ errno w1 w2,
         (errno = ENOTEMPTY ∨ errno = ENOTDIR)
         ∧ FileSystemStore.Delete f ctx key w = (Some (delete_failed full errno), w1)
         ∧ nodes w1 = nodes w
         ∧ FileSystemStore.Delete f ctx key w1 = (Some (delete_failed full errno), w2)
         ∧ nodes w2 = nodes w
         ∧ errors.Is (delete_failed full errno) ErrBlobDeleteFailed = true
         ∧ errors.Is (delete_failed full errno) ErrBlobNotFound = false)
  ∧ (∀ m p,
       ¬ deletable m p ↔
       os.lookup_path m p = inl ENOTDIR
       ∨ (os.lookup_path m p = inr Directory ∧ os.has_entries m p = true))
  ∧ (∀ s ctx key r,
       key ≠ "" →
       quiet_remote r →
       ∃ r1 r2,
         S3Store.Delete s ctx key r = (None, r1)
         ∧ s3.objects r1 !! key = None
         ∧ (s3.objects r !! key = None → s3.objects r1 = s3.objects r)
         ∧ S3Store.Delete s ctx key r1 = (None, r2)
         ∧ s3.objects r2 = s3.objects r1).
Proof.
  split; [|split; [|split; [exact not_deletable|]]].
  - intros f ctx key full w Hfull Hquiet Hdel.
    assert (Hgone : ∀ n, os.lookup_path (nodes w) full = inr n →
              FileSystemStore.Delete f ctx key w
              = (None, with_nodes (delete full (nodes w)) (log (CallRemove full) w)) →
              ∃ w1 w2,
                FileSystemStore.Delete f ctx key w = (None, w1)
                ∧ os.lookup_path (nodes w1) full = inl ENOENT
                ∧ (os.lookup_path (nodes w) full = inl ENOENT → nodes w1 = nodes w)
                ∧ FileSystemStore.Delete f ctx key w1 = (None, w2)
                ∧ nodes w2 = nodes w1).
    { intros n Hn Hrun. eexists _, _.
      split; [exact Hrun|].
      split; [by eapply lookup_path_delete|].
      split; [by rewrite Hn|].
      split; [apply Delete_missing|done].
      - done.
      - apply (quiet_now (with_nodes _ (log _ w))), (quiet_log _ _ Hquiet).
      - by eapply lookup_path_delete. }
    destruct Hdel as [Hmiss | [(c & t & Hfile) | [Hdir Hempty]]].
    + eexists _, _.
      split; [by apply Delete_missing; auto using quiet_now|].
      split; [done|]. split; [done|].
      split; [by apply Delete_missing; auto using quiet_now, quiet_log|done].
    + eapply Hgone; [done|]. by eapply Delete_file; eauto using quiet_now.
    + eapply Hgone; [done|].
      rewrite (Delete_lookup f ctx key full w Hfull (quiet_now _ Hquiet)).
      by rewrite Hdir, Hempty.
  - intros f ctx key full w Hfull Hquiet Hnot.
    destruct (Delete_refused f ctx key full w Hfull Hquiet Hnot)
      as (errno & Herrno & H1 & H2).
    exists errno. eexists _, _. split; [done|]. split; [exact H1|].
    split; [done|]. split; [exact H2|]. done.
  - intros s ctx key r Hkey Hquiet. eexists _, _.
    split; [by apply S3_Delete_quiet; auto using quiet_remote_now|].
    split; [by simpl; rewrite lookup_delete_eq|].
    split; [by intros ?; simpl; rewrite delete_id|].
    split.
    + apply S3_Delete_quiet; [done|].
      apply (quiet_remote_now (s3.with_objects _ (s3.sent _ r))),
            (quiet_remote_sent _ _ Hquiet).
    + simpl. apply delete_id. by rewrite lookup_delete_eq.
Qed.

(** The theorem at work: an object deleted twice, and the key of a
    directory with an entry refused twice. *)
Lemma delete_is_idempotent_witness :
  (∃ w1 w2,
     FileSystemStore.Delete blobs Background "a/1.txt"
       (put "a/1.txt" "hello" fresh_store) = (None, w1)
     ∧ FileSystemStore.Delete blobs Background "a/1.txt" w1 = (None, w2))
  ∧ (∃ errno w1 w2,
       FileSystemStore.Delete blobs Background "a"
         (put "a/1.txt" "hello" fresh_store)
       = (Some (delete_failed "/srv/blobs/a" errno), w1)
       ∧ FileSystemStore.Delete blobs Background "a" w1
         = (Some (delete_failed "/srv/blobs/a" errno), w2)).
Proof.
  assert (Hfaults : faults (put "a/1.txt" "hello" fresh_store) = [])
    by (vm_compute; reflexivity).
  assert (Hquiet : quiet (put "a/1.txt" "hello" fresh_store)).
  { intros i _. rewrite Hfaults. reflexivity. }
  split.
  - assert (Hfull : FileSystemStore.fullPath blobs "a/1.txt" = Ok "/srv/blobs/a/1.txt")
      by (vm_compute; reflexivity).
    assert (Hobj : deletable (nodes (put "a/1.txt" "hello" fresh_store))
                     "/srv/blobs/a/1.txt").
    { right. left. exists (bytes_of_string "hello"), 3%nat. vm_compute. reflexivity. }
    destruct (proj1 delete_is_idempotent blobs Background "a/1.txt" _ _ Hfull Hquiet Hobj)
      as (w1 & w2 & H1 & _ & _ & H2 & _).
    exists w1, w2. split; [exact H1|exact H2].
  - assert (Hfull : FileSystemStore.fullPath blobs "a" = Ok "/srv/blobs/a")
      by (vm_compute; reflexivity).
    assert (Hnot : ¬ deletable (nodes (put "a/1.txt" "hello" fresh_store)) "/srv/blobs/a").
    { apply (proj1 (proj2 (proj2 delete_is_idempotent))). right.
      split; vm_compute; reflexivity. }
    destruct (proj1 (proj2 delete_is_idempotent) blobs Background "a" _ _
                Hfull Hquiet Hnot)
      as (errno & w1 & w2 & _ & H1 & _ & H2 & _).
    exists errno, w1, w2. split; [exact H1|exact H2].
Defined.

(* ===================================================================== *)
(** * Facts about DeleteMultiple on the local backend *)
(* ===================================================================== *)

Lemma Delete_later f ctx key w e w' :
  FileSystemStore.Delete f ctx key w = (e, w') → later w w'.
Proof.
  unfold FileSystemStore.Delete. destruct (FileSystemStore.fullPath f key) as [p|e0].
  - run_io. destruct (os.Remove p w) as [e1 w1] eqn:HR.
    apply Remove_inv in HR as (T & _).
    repeat case_match; intros [= <- <-]; by apply ticks_later.
  - intros [= <- <-]. apply later_refl.
Qed.

(** The loop, once it is past keys during which the context was live, is
    the loop on the keys that remain, from the state the deletions made. *)
Lemma DeleteMultiple_loop_prefix f ctx keys done : ∀ rest failed w,
  live_during f ctx done w →
  FileSystemStore.DeleteMultiple_loop f ctx keys (done ++ rest) failed w =
    FileSystemStore.DeleteMultiple_loop f ctx keys rest
      (deletes f ctx done failed w).1 (deletes f ctx done failed w).2.
Proof.
  induction done as [|key done IH]; intros rest failed w Hlive; [done|].
  destruct Hlive as [Hnow Hlive]. simpl. run_io. rewrite Hnow.
  destruct (FileSystemStore.Delete f ctx key w) as [err w1] eqn:HD. simpl in Hlive.
  destruct err as [e|]; [destruct (negb _)|]; by rewrite IH.
Qed.

Lemma DeleteMultiple_loop_end f ctx keys failed w :
  FileSystemStore.DeleteMultiple_loop f ctx keys [] failed w =
    (failed, aggregate failed "files failed to delete", w).
Proof.
  simpl. unfold aggregate. destruct failed as [|k failed]; [done|].
  rewrite bool_decide_eq_true_2 by (simpl; lia).
  by rewrite bool_decide_eq_false_2.
Qed.

Lemma live_live_during f ctx keys : ∀ w, live ctx → live_during f ctx keys w.
Proof.
  induction keys as [|key keys IH]; intros w Hlive; [done|].
  split; [by apply live_Err|by apply IH].
Qed.

(** With a context that is live all along, [DeleteMultiple] is the
    deletions one after the other and the aggregate error. *)
Lemma DeleteMultiple_live f ctx keys w :
  live_during f ctx keys w →
  FileSystemStore.DeleteMultiple f ctx keys w =
    ((deletes f ctx keys [] w).1,
     aggregate (deletes f ctx keys [] w).1 "files failed to delete",
     (deletes f ctx keys [] w).2).
Proof.
  intros Hlive. unfold FileSystemStore.DeleteMultiple.
  case_bool_decide as Hlen.
  - destruct keys; [done|simpl in Hlen; lia].
  - rewrite <- (app_nil_r keys) at 2.
    rewrite DeleteMultiple_loop_prefix by done. apply DeleteMultiple_loop_end.
Qed.

Lemma lookup_path_missing_delete m p c t q :
  os.lookup_path m p = inr (File c t) →
  os.lookup_path m q = inl ENOENT →
  os.lookup_path (delete p m) q = inl ENOENT.
Proof.
  intros Hp Hq.
  destruct (object_or_missing_delete m p c t q Hp) as [H | (c' & t' & H)];
    [by left|done|].
  exfalso. destruct (decide (q = p)) as [->|Hne]; [congruence|].
  assert (Hmp : m !! p = Some (File c t)).
  { unfold os.lookup_path in Hp. repeat case_match; simplify_eq; done. }
  unfold os.lookup_path in Hq, H.
  rewrite lookup_delete_ne in H by done.
  rewrite (through_delete_file m p c t _ Hmp) in H.
  - repeat case_match; simplify_eq.
  - repeat case_match; simplify_eq; auto.
Qed.

(** Deleting keys that hold an object or nothing fails for none of them,
    and leaves all of them absent. *)
Lemma deletes_objects f ctx keys : ∀ failed w,
  quiet w →
  Forall (λ key, ∃ full, FileSystemStore.fullPath f key = Ok full
                         ∧ object_or_missing (nodes w) full) keys →
  (deletes f ctx keys failed w).1 = failed
  ∧ quiet (deletes f ctx keys failed w).2
  ∧ (∀ q, os.lookup_path (nodes w) q = inl ENOENT →
          os.lookup_path (nodes (deletes f ctx keys failed w).2) q = inl ENOENT)
  ∧ Forall (λ key, ∃ full, FileSystemStore.fullPath f key = Ok full
                   ∧ os.lookup_path (nodes (deletes f ctx keys failed w).2) full
                     = inl ENOENT) keys.
Proof.
  induction keys as [|key keys IH]; intros failed w Hquiet Hkeys; [done|].
  apply Forall_cons in Hkeys as [(full & Hfull & Hobj) Hkeys]. simpl.
  assert (Hstep : ∃ w1, FileSystemStore.Delete f ctx key w = (None, w1)
            ∧ quiet w1
            ∧ os.lookup_path (nodes w1) full = inl ENOENT
            ∧ (∀ q, os.lookup_path (nodes w) q = inl ENOENT →
                    os.lookup_path (nodes w1) q = inl ENOENT)
            ∧ ∀ q, object_or_missing (nodes w) q → object_or_missing (nodes w1) q).
  { destruct Hobj as [Hmiss | (c & t & Hfile)].
    - eexists. split; [by apply Delete_missing; auto using quiet_now|].
      split; [by apply quiet_log|]. done.
    - eexists. split; [by eapply Delete_file; eauto using quiet_now|].
      split; [by apply (quiet_log _ _ Hquiet)|].
      split; [by eapply lookup_path_delete_file|].
      split; intros q.
      + by eapply lookup_path_missing_delete.
      + by eapply object_or_missing_delete. }
  destruct Hstep as (w1 & -> & Hquiet1 & Hgone & Hpres & Hkeep).
  destruct (IH failed w1 Hquiet1) as (Hf & Hq & Hpres' & Hall).
  { eapply Forall_impl; [exact Hkeys|]. intros k (p & ? & ?). eauto. }
  split; [done|]. split; [done|]. split; [by auto|].
  apply Forall_cons. split; [|done]. exists full. auto.
Qed.

(** The failed keys only grow. *)
Lemma deletes_failed_grow f ctx keys : ∀ failed w,
  ∃ more, (deletes f ctx keys failed w).1 = failed ++ more.
Proof.
  induction keys as [|k keys IH]; intros failed w; simpl.
  - exists []. by rewrite app_nil_r.
  - destruct (FileSystemStore.Delete f ctx k w) as [err w1].
    destruct err as [e|]; [destruct (negb _)|]; [|apply IH..].
    destruct (IH (failed ++ [k]) w1) as [more ->].
    exists (k :: more). by rewrite <- app_assoc.
Qed.

(** The deletions for a batch are those for its first keys, then those for
    the others. *)
Lemma deletes_app f ctx done rest : ∀ failed w,
  deletes f ctx (done ++ rest) failed w =
    deletes f ctx rest (deletes f ctx done failed w).1 (deletes f ctx done failed w).2.
Proof.
  induction done as [|k done IH]; intros failed w; [done|].
  cbn [app deletes]. destruct (FileSystemStore.Delete f ctx k w) as [err w1].
  apply IH.
Qed.

Lemma deletes_later f ctx keys : ∀ failed w, later w (deletes f ctx keys failed w).2.
Proof.
  induction keys as [|k keys IH]; intros failed w; [apply later_refl|].
  cbn [deletes]. destruct (FileSystemStore.Delete f ctx k w) as [err w1] eqn:HD.
  eapply later_trans; [by eapply Delete_later|apply IH].
Qed.

(** A key that the sanitizer refuses costs the loop no call: it joins the
    failed keys, and the state stays as it is. *)
Lemma deletes_refused f ctx key e rest failed w :
  FileSystemStore.fullPath f key = Err e →
  deletes f ctx (key :: rest) failed w = deletes f ctx rest (failed ++ [key]) w.
Proof.
  intros Hkey. destruct (fullPath_error_invalid _ _ _ Hkey) as [_ Hnf].
  cbn [deletes]. unfold FileSystemStore.Delete. rewrite Hkey. run_io.
  by rewrite Hnf.
Qed.

Lemma deletes_all_refused f ctx keys : ∀ failed w,
  Forall unsafe_key keys →
  deletes f ctx keys failed w = (failed ++ keys, w).
Proof.
  induction keys as [|k keys IH]; intros failed w Hkeys.
  - by rewrite app_nil_r.
  - apply Forall_cons in Hkeys as [Hk Hkeys].
    destruct (fullPath_rejects f k Hk) as (e & He & _).
    rewrite (deletes_refused _ _ _ _ _ _ _ He), IH by done.
    by rewrite <- app_assoc.
Qed.

Lemma live_during_refused f ctx keys w :
  Forall unsafe_key keys → ctx_Err ctx (clock w) = None →
  live_during f ctx keys w.
Proof.
  intros Hkeys Hctx. induction Hkeys as [|k keys Hk Hkeys IH]; [done|].
  split; [done|].
  destruct (fullPath_rejects f k Hk) as (e & He & _).
  unfold FileSystemStore.Delete. by rewrite He.
Qed.

(** A key that [deletes] meets is among the failed keys at the end when
    the sanitizer refuses it. *)
Lemma deletes_reports_refused f ctx key keys : ∀ failed w,
  unsafe_key key → key ∈ keys → key ∈ (deletes f ctx keys failed w).1.
Proof.
  intros failed w Hkey. revert failed w.
  induction keys as [|k keys IH]; intros failed w Hin; [by apply elem_of_nil in Hin|].
  apply elem_of_cons in Hin as [<-|Hin].
  - destruct (fullPath_rejects f key Hkey) as (e & He & _).
    rewrite (deletes_refused _ _ _ _ _ _ _ He).
    destruct (deletes_failed_grow f ctx keys (failed ++ [key]) w) as [more ->].
    set_solver.
  - cbn [deletes]. destruct (FileSystemStore.Delete f ctx k w) as [err w1].
    by apply IH.
Qed.

(* ===================================================================== *)
(** * C9: cancellation in the middle of DeleteMultiple *)
(* ===================================================================== *)

(** C9.  On the local backend, when the check made by [DeleteMultiple]
    before some key, after the keys [done] have been handled, finds the
    context cancelled, the call returns the failed keys collected so far
    followed by every key of the whole input, those of [done] that were
    deleted included, together with the error of the context, which is not
    of the delete-failed kind. *)
Theorem delete_multiple_cancelled f ctx done rest w err :
  rest ≠ [] →
  live_during f ctx done w →
  ctx_Err ctx (clock (deletes f ctx done [] w).2) = Some err →
  FileSystemStore.DeleteMultiple f ctx (done ++ rest) w =
    ((deletes f ctx done [] w).1 ++ (done ++ rest), Some err,
     (deletes f ctx done [] w).2)
  ∧ errors.Is err ErrBlobDeleteFailed = false
  ∧ (err = Sentinel Canceled ∨ err = Sentinel DeadlineExceeded).
Proof.
  intros Hrest Hlive Hctx. split.
  - unfold FileSystemStore.DeleteMultiple.
    rewrite bool_decide_eq_false_2.
    2:{ rewrite length_app. destruct rest; [done|simpl; lia]. }
    rewrite DeleteMultiple_loop_prefix by done.
    destruct rest as [|key rest]; [done|]. simpl. run_io. by rewrite Hctx.
  - unfold ctx_Err in Hctx.
    destruct (cancel_at ctx); [|done]. case_bool_decide; [|done].
    destruct (by_deadline ctx); simplify_eq; auto.
Qed.

(** The theorem at work: cancelled after the first of two deletions. *)
Lemma delete_multiple_cancelled_witness :
  ∃ w', FileSystemStore.DeleteMultiple blobs cancelled_after_one_call
          ["a/1"; "a/2"] two_objects
        = (["a/1"; "a/2"], Some (Sentinel Canceled), w')
        ∧ content_at two_objects "/srv/blobs/a/1" = Some (bytes_of_string "1")
        ∧ content_at w' "/srv/blobs/a/1" = None.
Proof.
  pose (d := deletes blobs cancelled_after_one_call ["a/1"] [] two_objects).
  assert (Hlive : live_during blobs cancelled_after_one_call ["a/1"] two_objects).
  { split; [vm_compute; reflexivity|exact I]. }
  assert (Hctx : ctx_Err cancelled_after_one_call (clock d.2) = Some (Sentinel Canceled))
    by (vm_compute; reflexivity).
  assert (Hfailed : d.1 = []) by (vm_compute; reflexivity).
  destruct (delete_multiple_cancelled blobs cancelled_after_one_call
              ["a/1"] ["a/2"] two_objects (Sentinel Canceled)
              ltac:(discriminate) Hlive Hctx) as [Hrun _].
  fold d in Hrun. rewrite Hfailed in Hrun.
  exists d.2. split; [exact Hrun|].
  split; vm_compute; reflexivity.
Defined.

(* ===================================================================== *)
(** * Facts about DeleteMultiple on the networked backend *)
(* ===================================================================== *)

Lemma chunks_upto_concat {A} n : ∀ fuel (l : list A),
  (0 < n)%nat → (length l ≤ fuel)%nat → concat (chunks_upto fuel n l) = l.
Proof.
  induction fuel as [|fuel IH]; intros l Hn Hl.
  - destruct l; [done|simpl in Hl; lia].
  - destruct l as [|x l]; [done|]. cbn [chunks_upto concat].
    rewrite IH; [apply take_drop|done|].
    rewrite length_drop. simpl in *. lia.
Qed.

Lemma chunks_upto_sizes {A} n : ∀ fuel (l : list A),
  (0 < n)%nat →
  Forall (λ b, (0 < length b ≤ n)%nat) (chunks_upto fuel n l).
Proof.
  induction fuel as [|fuel IH]; intros l Hn; [constructor|].
  destruct l as [|x l]; [constructor|]. cbn [chunks_upto].
  constructor; [|by apply IH].
  rewrite length_take. simpl. lia.
Qed.

(** The loop by index of the networked [DeleteMultiple] sends the pieces
    of what remains from the index on. *)
Lemma S3_DeleteMultiple_loop_batches s keys : ∀ fuel i failed r,
  S3Store.DeleteMultiple_loop s fuel keys i failed r =
    send_batches (bucket s)
      (chunks_upto fuel S3Store.maxKeysPerRequest (drop i keys)) failed r.
Proof.
  induction fuel as [|fuel IH]; intros i failed r; [done|].
  cbn [S3Store.DeleteMultiple_loop chunks_upto].
  case_bool_decide as Hi.
  - destruct (drop i keys) as [|x l] eqn:Hdrop.
    { apply (f_equal length) in Hdrop. rewrite length_drop in Hdrop. simpl in Hdrop. lia. }
    rewrite <- Hdrop.
    assert (Hbatch : take ((if bool_decide (length keys < i + S3Store.maxKeysPerRequest)%nat
                            then length keys else (i + S3Store.maxKeysPerRequest)%nat) - i)
                          (drop i keys)
                     = take S3Store.maxKeysPerRequest (drop i keys)).
    { case_bool_decide as Hend.
      - rewrite !take_ge; [done| |]; rewrite length_drop; lia.
      - f_equal. lia. }
    rewrite Hbatch. cbn [send_batches]. run_io.
    destruct (s3.DeleteObjects_call _ _ r) as [[result|e] r1];
      rewrite IH, drop_drop; done.
  - rewrite drop_ge by lia. done.
Qed.

Lemma S3_DeleteMultiple_batches s ctx keys r :
  S3Store.DeleteMultiple s ctx keys r =
    ((send_batches (bucket s) (chunks S3Store.maxKeysPerRequest keys) [] r).1,
     aggregate (send_batches (bucket s) (chunks S3Store.maxKeysPerRequest keys) [] r).1
               "objects failed to delete",
     (send_batches (bucket s) (chunks S3Store.maxKeysPerRequest keys) [] r).2).
Proof.
  unfold S3Store.DeleteMultiple, chunks. case_bool_decide as Hlen.
  - destruct keys; [done|simpl in Hlen; lia].
  - run_io. rewrite S3_DeleteMultiple_loop_batches. rewrite drop_0.
    destruct (send_batches _ _ _ _) as [failed r1]. simpl.
    unfold aggregate. destruct failed as [|k failed]; [done|].
    rewrite bool_decide_eq_true_2 by (simpl; lia).
    by rewrite bool_decide_eq_false_2.
Qed.

Lemma send_batches_requests b batches : ∀ failed r,
  s3.requests (send_batches b batches failed r).2 =
    s3.requests r ++ (s3.DeleteObjects b <$> batches).
Proof.
  induction batches as [|batch batches IH]; intros failed r; simpl.
  - by rewrite app_nil_r.
  - unfold s3.DeleteObjects_call.
    destruct (s3.failure_now r); [|destruct (s3.delete_each _ _ _)];
      rewrite IH; simpl; by rewrite <- app_assoc.
Qed.

(** What a batch request that goes through does: the keys it reports are
    the refused keys of the batch, in order, and every other key of the
    batch is gone. *)
Lemma delete_each_spec locked keys : ∀ m,
  (λ errObj, aws.ToString (s3.de_Key errObj)) <$> (s3.delete_each locked keys m).1
    = filter (λ k, k ∈ locked) keys
  ∧ (∀ k, k ∈ keys → k ∉ locked → (s3.delete_each locked keys m).2 !! k = None)
  ∧ (∀ k, m !! k = None → (s3.delete_each locked keys m).2 !! k = None).
Proof.
  induction keys as [|key keys IH]; intros m; [set_solver|].
  simpl. rewrite filter_cons. case_bool_decide as Hl.
  - destruct (IH m) as (He & Hgone & Hnone).
    destruct (s3.delete_each locked keys m) as [errs m'] eqn:Hde. simpl in *.
    rewrite decide_True by done. split; [by f_equal|]. split; [|done].
    intros k [->|Hk]%elem_of_cons Hnl; [done|by apply Hgone].
  - destruct (IH (delete key m)) as (He & Hgone & Hnone).
    rewrite decide_False by done. split; [done|]. split.
    + intros k [->|Hk]%elem_of_cons Hnl; [|by apply Hgone].
      apply Hnone. by rewrite lookup_delete_eq.
    + intros k Hk. apply Hnone.
      destruct (decide (key = k)) as [->|]; [by rewrite lookup_delete_eq|].
      by rewrite lookup_delete_ne.
Qed.

(** With no request failing and no key refused, no key fails. *)
Lemma send_batches_quiet bk batches : ∀ failed r,
  quiet_remote r → s3.locked r = [] →
  (send_batches bk batches failed r).1 = failed.
Proof.
  induction batches as [|b batches IH]; intros failed r Hquiet Hlocked; [done|].
  cbn [send_batches]. unfold s3.DeleteObjects_call.
  rewrite (quiet_remote_now _ Hquiet).
  destruct (delete_each_spec (s3.locked r) b (s3.objects r)) as (He & _ & _).
  destruct (s3.delete_each _ _ _) as [errs m] eqn:Hde.
  cbn [fst s3.do_Errors] in *.
  rewrite IH.
  - rewrite He, Hlocked.
    replace (filter (λ k, k ∈ []) b) with (@nil string); [by rewrite app_nil_r|].
    clear. induction b as [|k b IHb]; [done|].
    rewrite filter_cons, decide_False by set_solver. done.
  - apply (quiet_remote_sent (s3.DeleteObjects bk b)) in Hquiet.
    intros i Hi. apply Hquiet. done.
  - done.
Qed.

Lemma aggregate_spec failed what :
  (failed = [] → aggregate failed what = None)
  ∧ (failed ≠ [] → ∃ e, aggregate failed what = Some e
                       ∧ errors.Is e ErrBlobDeleteFailed = true
                       ∧ errors.Is e Canceled = false
                       ∧ errors.Is e DeadlineExceeded = false).
Proof.
  unfold aggregate. split; intros H.
  - by rewrite bool_decide_eq_true_2.
  - rewrite bool_decide_eq_false_2 by done. eexists. split; [done|]. done.
Qed.

(* ===================================================================== *)
(** * C5: DeleteMultiple *)
(* ===================================================================== *)

(** C5, counterexample.  With an object stored under [a/1.txt], the key
    [a] holds no object ([Exists] returns false) and the key [a/1.txt] holds
    one; [DeleteMultiple] over the two, in this order, returns [a] as a
    failed key with the aggregate error, and not an empty list and no
    error. *)
Lemma delete_multiple_reports_directory_key :
  let w := put "a/1.txt" "hello" fresh_store in
  (FileSystemStore.Exists blobs Background "a" w).1 = (false, None)
  ∧ (FileSystemStore.Exists blobs Background "a/1.txt" w).1 = (true, None)
  ∧ (FileSystemStore.DeleteMultiple blobs Background ["a"; "a/1.txt"] w).1
    = (["a"], Some (fmt.Errorf_w_d_text (Sentinel ErrBlobDeleteFailed) 1
                      "files failed to delete"))
  ∧ ([] : list string) ≠ ["a"].
Proof. repeat split; try (vm_compute; reflexivity). discriminate. Qed.

(** C5, as amended.  On the local backend, with a live context and no call
    failing, [DeleteMultiple] over valid keys each of which holds an object
    or nothing returns no failed key and no error, and leaves all of them
    absent; a valid key whose path, when its turn comes after the deletions
    for the keys before it, is a directory with entries or goes through a
    regular file is among the failed keys, and the error is then there and
    of the delete-failed kind; with a live context, whatever
    fails, it returns the keys whose deletion failed, in the order of the
    iterations, and the aggregate error, which is there exactly when some
    key failed and is then one error of the delete-failed kind.  On the
    networked backend, with no request failing and no key refused by the
    service, it returns no failed key and no error; in general the keys are
    sent in consecutive batches of at most 1000, one request each, all of
    them whatever the earlier ones gave; the failed keys are those of the
    batches in order, a batch whose request failed counting whole, and the
    error is the aggregate one; and a batch request that goes through
    reports the keys the service refuses and deletes every other key of the
    batch. *)
Theorem delete_multiple_batches :
  (∀ f ctx keys w,
     live ctx → quiet w →
     Forall (λ key, ∃ full, FileSystemStore.fullPath f key = Ok full
                            ∧ object_or_missing (nodes w) full) keys →
     ∃ w', FileSystemStore.DeleteMultiple f ctx keys w = ([], None, w')
           ∧ Forall (λ key, ∃ full, FileSystemStore.fullPath f key = Ok full
                            ∧ os.lookup_path (nodes w') full = inl ENOENT) keys)
  ∧ (∀ f ctx done key rest full w,
       live ctx → quiet w →
       FileSystemStore.fullPath f key = Ok full →
       ¬ deletable (nodes (deletes f ctx done [] w).2) full →
       key ∈ (FileSystemStore.DeleteMultiple f ctx (done ++ key :: rest) w).1.1
       ∧ ∃ e, (FileSystemStore.DeleteMultiple f ctx (done ++ key :: rest) w).1.2 = Some e
              ∧ errors.Is e ErrBlobDeleteFailed = true)
  ∧ (∀ f ctx keys w,
       live ctx →
       FileSystemStore.DeleteMultiple f ctx keys w =
         ((deletes f ctx keys [] w).1,
          aggregate (deletes f ctx keys [] w).1 "files failed to delete",
          (deletes f ctx keys [] w).2))
  ∧ (∀ failed what,
       (failed = [] → aggregate failed what = None)
       ∧ (failed ≠ [] → ∃ e, aggregate failed what = Some e
                            ∧ errors.Is e ErrBlobDeleteFailed = true
                            ∧ errors.Is e Canceled = false
                            ∧ errors.Is e DeadlineExceeded = false))
  ∧ (∀ s ctx keys r,
       quiet_remote r → s3.locked r = [] →
       ∃ r', S3Store.DeleteMultiple s ctx keys r = ([], None, r'))
  ∧ (∀ s ctx keys r,
       concat (chunks 1000 keys) = keys
       ∧ Forall (λ batch, (0 < length batch ≤ 1000)%nat) (chunks 1000 keys)
       ∧ S3Store.DeleteMultiple s ctx keys r =
           ((send_batches (bucket s) (chunks 1000 keys) [] r).1,
            aggregate (send_batches (bucket s) (chunks 1000 keys) [] r).1
                      "objects failed to delete",
            (send_batches (bucket s) (chunks 1000 keys) [] r).2)
       ∧ s3.requests (S3Store.DeleteMultiple s ctx keys r).2 =
           s3.requests r ++ (s3.DeleteObjects (bucket s) <$> chunks 1000 keys))
  ∧ (∀ bucket batch r,
       s3.failure_now r = None →
       ∃ result r',
         s3.DeleteObjects_call bucket batch r = (Ok result, r')
         ∧ (λ errObj, aws.ToString (s3.de_Key errObj)) <$> s3.do_Errors result
           = filter (λ k, k ∈ s3.locked r) batch
         ∧ ∀ k, k ∈ batch → k ∉ s3.locked r → s3.objects r' !! k = None).
Proof.
  split; [|split; [|split; [|split; [|split; [|split]]]]].
  - intros f ctx keys w Hlive Hquiet Hkeys.
    destruct (deletes_objects f ctx keys [] w Hquiet Hkeys) as (Hf & _ & _ & Hall).
    rewrite DeleteMultiple_live by (by apply live_live_during).
    rewrite Hf. eexists. split; [reflexivity|done].
  - intros f ctx done key rest full w Hlive Hquiet Hfull Hnot.
    rewrite DeleteMultiple_live by (by apply live_live_during).
    rewrite deletes_app. cbn [fst snd deletes].
    assert (Hquiet1 : quiet (deletes f ctx done [] w).2)
      by (eapply quiet_later; [done|apply deletes_later]).
    destruct (Delete_refused f ctx key full _ Hfull Hquiet1 Hnot)
      as (errno & _ & -> & _).
    change (negb (errors.Is (delete_failed full errno) ErrBlobNotFound)) with true.
    destruct (deletes_failed_grow f ctx rest ((deletes f ctx done [] w).1 ++ [key])
                (log (CallRemove full) (deletes f ctx done [] w).2))
      as [more ->].
    split; [set_solver|].
    destruct (proj2 (aggregate_spec (((deletes f ctx done [] w).1 ++ [key]) ++ more)
                       "files failed to delete"))
      as (e & -> & He & _); [by destruct (deletes f ctx done [] w).1|]. eauto.
  - intros f ctx keys w Hlive. apply DeleteMultiple_live. by apply live_live_during.
  - apply aggregate_spec.
  - intros s ctx keys r Hquiet Hlocked.
    rewrite S3_DeleteMultiple_batches, send_batches_quiet by done. by eexists.
  - intros s ctx keys r. change 1000%nat with S3Store.maxKeysPerRequest.
    split; [apply chunks_upto_concat; unfold S3Store.maxKeysPerRequest; lia|].
    split; [apply chunks_upto_sizes; unfold S3Store.maxKeysPerRequest; lia|].
    split; [apply S3_DeleteMultiple_batches|].
    rewrite S3_DeleteMultiple_batches. apply send_batches_requests.
  - intros bucket batch r Hnow. unfold s3.DeleteObjects_call. rewrite Hnow.
    destruct (delete_each_spec (s3.locked r) batch (s3.objects r)) as (He & Hgone & _).
    destruct (s3.delete_each _ _ _) as [errs m] eqn:Hde.
    eexists _, _. split; [reflexivity|]. split; [exact He|exact Hgone].
Qed.

(** The theorem at work: two stored keys and a missing one; and the key
    of a directory that still has an entry when its turn comes. *)
Lemma delete_multiple_batches_witness :
  (∃ w', FileSystemStore.DeleteMultiple blobs Background ["a/1"; "nope"; "a/2"] two_objects
         = ([], None, w'))
  ∧ "a" ∈ (FileSystemStore.DeleteMultiple blobs Background ["a/2"; "a"; "a/1"]
             two_objects).1.1.
Proof.
  assert (Hfaults : faults two_objects = []) by (vm_compute; reflexivity).
  assert (Hquiet : quiet two_objects).
  { intros i _. rewrite Hfaults. reflexivity. }
  split.
  - assert (Hkeys : Forall (λ key, ∃ full, FileSystemStore.fullPath blobs key = Ok full
                              ∧ object_or_missing (nodes two_objects) full)
                           ["a/1"; "nope"; "a/2"]).
    { repeat constructor.
      - exists "/srv/blobs/a/1". split; [vm_compute; reflexivity|].
        right. exists (bytes_of_string "1"), 3%nat. vm_compute. reflexivity.
      - exists "/srv/blobs/nope". split; [vm_compute; reflexivity|].
        left. vm_compute. reflexivity.
      - exists "/srv/blobs/a/2". split; [vm_compute; reflexivity|].
        right. exists (bytes_of_string "2"), 9%nat. vm_compute. reflexivity. }
    destruct (proj1 delete_multiple_batches blobs Background _ _ eq_refl Hquiet Hkeys)
      as (w' & Hrun & _).
    exists w'. exact Hrun.
  - assert (Hfull : FileSystemStore.fullPath blobs "a" = Ok "/srv/blobs/a")
      by (vm_compute; reflexivity).
    assert (Hnot : ¬ deletable (nodes (deletes blobs Background ["a/2"] [] two_objects).2)
                       "/srv/blobs/a").
    { apply not_deletable. right. split; vm_compute; reflexivity. }
    exact (proj1 (proj1 (proj2 delete_multiple_batches) blobs Background ["a/2"] "a"
                    ["a/1"] _ two_objects eq_refl Hquiet Hfull Hnot)).
Defined.

(* ===================================================================== *)
(** * What the networked backend sends for a key *)
(* ===================================================================== *)

Section remote_sends.
Context (s : S3Store) (ctx : Context) (r : s3.remote).

Lemma S3_Upload_sends input body :
  UploadInput.Key input ≠ "" → UploadInput.Body input = Some body →
  s3.requests (S3Store.Upload s ctx input r).2
  = s3.requests r ++ [s3.PutObject (bucket s) (UploadInput.Key input)].
Proof.
  intros Hk Hb. unfold S3Store.Upload. rewrite decide_False by done.
  rewrite Hb. run_io. unfold s3.Upload.
  destruct (s3.failure_now r); [done|]. by destruct (r_err body).
Qed.

Lemma S3_Download_sends key sink :
  key ≠ "" →
  s3.requests (S3Store.Download s ctx key sink r).2
  = s3.requests r ++ [s3.GetObject (bucket s) key].
Proof.
  intros Hk. unfold S3Store.Download. rewrite decide_False by done.
  run_io. unfold s3.Download.
  destruct (s3.failure_now r) as [e|].
  { by destruct (S3Store.isNotFoundError e). }
  destruct (s3.objects r !! key) as [o|]; [|done].
  destruct (WriteAt sink (s3.o_Body o) 0) as [[n [e|]] sink'];
    [by destruct (S3Store.isNotFoundError e)|done].
Qed.

Lemma S3_GetObject_sends key :
  key ≠ "" →
  s3.requests (S3Store.GetObject s ctx key r).2
  = s3.requests r ++ [s3.GetObject (bucket s) key].
Proof.
  intros Hk. unfold S3Store.GetObject. rewrite decide_False by done.
  run_io. unfold s3.GetObject_call.
  destruct (s3.failure_now r) as [e|].
  { by destruct (S3Store.isNotFoundError e). }
  by destruct (s3.objects r !! key).
Qed.

Lemma S3_HeadObject_sends key :
  key ≠ "" →
  s3.requests (S3Store.HeadObject s ctx key r).2
  = s3.requests r ++ [s3.HeadObject (bucket s) key].
Proof.
  intros Hk. unfold S3Store.HeadObject. rewrite decide_False by done.
  run_io. unfold s3.HeadObject_call.
  destruct (s3.failure_now r) as [e|].
  { by destruct (S3Store.isNotFoundError e). }
  by destruct (s3.objects r !! key).
Qed.

Lemma S3_Exists_sends key :
  key ≠ "" →
  s3.requests (S3Store.Exists s ctx key r).2
  = s3.requests r ++ [s3.HeadObject (bucket s) key].
Proof.
  intros Hk. rewrite <- (S3_HeadObject_sends key Hk).
  unfold S3Store.Exists. run_io.
  destruct (S3Store.HeadObject s ctx key r) as [[info|e] r1]; [done|].
  by destruct (errors.Is e ErrBlobNotFound).
Qed.

Lemma S3_Delete_sends key :
  key ≠ "" →
  s3.requests (S3Store.Delete s ctx key r).2
  = s3.requests r ++ [s3.DeleteObject (bucket s) key].
Proof.
  intros Hk. unfold S3Store.Delete. rewrite decide_False by done.
  run_io. unfold s3.DeleteObject_call.
  by destruct (s3.failure_now r).
Qed.

Lemma S3_Copy_sends source dest :
  source ≠ "" → dest ≠ "" →
  s3.requests (S3Store.Copy s ctx source dest r).2
  = s3.requests r ++ [s3.CopyObject (bucket s) (bucket s +:+ "/" +:+ source) dest].
Proof.
  intros Hs Hd. unfold S3Store.Copy.
  rewrite bool_decide_eq_false_2 by (intros [?|?]; done).
  run_io. unfold s3.CopyObject_call, fmt.Sprintf_s_slash_s.
  destruct (s3.failure_now r) as [e|].
  { by destruct (S3Store.isNotFoundError e). }
  destruct (os.strip_prefix _ _) as [k|]; [|done].
  destruct (s3.unescape k) as [k'|]; [|done].
  by destruct (s3.objects r !! k').
Qed.

Lemma S3_presign_signs key contentType expiry :
  key ≠ "" →
  (S3Store.GeneratePresignedURL s ctx key expiry r).2 = r
  ∧ (S3Store.GeneratePresignedUploadURL s ctx key contentType expiry r).2 = r
  ∧ (s3.signing_error r = None →
     (∃ url, (S3Store.GeneratePresignedURL s ctx key expiry r).1 = Ok url)
     ∧ ∃ url, (S3Store.GeneratePresignedUploadURL s ctx key contentType expiry r).1
              = Ok url).
Proof.
  intros Hk. unfold S3Store.GeneratePresignedURL, S3Store.GeneratePresignedUploadURL.
  rewrite !decide_False by done. run_io. unfold s3.Presign.
  destruct (s3.signing_error r); [done|].
  split; [done|]. split; [done|]. intros _. split; by eexists.
Qed.

End remote_sends.

(** A run that has sent a request has not refused the key. *)
Lemma sends_not_refuses {A} (run : s3.net A) (err_of : A → option error) r q :
  s3.requests (run r).2 = s3.requests r ++ [q] → ¬ refuses run err_of r.
Proof.
  intros Hreq (e & _ & _ & Hsame). rewrite Hsame in Hreq.
  apply (f_equal length) in Hreq. rewrite length_app in Hreq. simpl in Hreq. lia.
Qed.

(* ===================================================================== *)
(** * C1: rejection of unsafe keys *)
(* ===================================================================== *)

(** C1, counterexample.  The networked backend does not refuse a key that
    escapes the root: with an object stored under ["../secret"], [Download]
    of that key sends the request and returns the five bytes without an
    error. *)
Lemma remote_store_accepts_escaping_key :
  unsafe_key "../secret" ∧
  let r := put_remote "../secret" "hello" fresh_bucket in
  let run := S3Store.Download remote_blobs Background "../secret" NewWriteAtBuffer r in
  run.1 = (5, None, {| buf := bytes_of_string "hello"; capacity := None |}) ∧
  s3.requests run.2 = [s3.PutObject "blobs" "../secret"; s3.GetObject "blobs" "../secret"].
Proof.
  split.
  - right; right. exists 1%nat. vm_compute. lia.
  - vm_compute. done.
Qed.

(** C1, as amended.  On the local backend every operation that takes a key
    refuses a key that is empty, absolute, or escapes the root, with the
    invalid-key error and before any call to the operating system: [Upload]
    (given a body), [Download], [GetObject], [HeadObject], [Delete],
    [Exists] and [Copy] (for either key).  [DeleteMultiple] makes no call
    for such a key either, wherever it stands in the batch, and reports it
    among the failed keys under its aggregate delete-failed error, which is
    not the invalid-key error; a batch of such keys only comes back whole
    with the state untouched.  On the networked backend the operations that
    take one key, the two that sign a URL included, refuse, with the
    invalid-key error and before any request, the empty key and no other:
    for every key that is not empty, absolute or escaping as it may be,
    they send their request with the bucket of the store and the key as it
    is, [Copy] naming the source as the bucket, a slash and the source key.
    [DeleteMultiple] refuses no key at all: whatever the keys are, the
    empty one included, it sends them all, in their order, in its batch
    requests. *)
Theorem key_rejection_by_backend :
  (∀ f ctx key, unsafe_key key →
     (∀ input w, UploadInput.Key input = key → UploadInput.Body input ≠ None →
                 refuses (FileSystemStore.Upload f ctx input) result_err w)
     ∧ (∀ sink w, refuses (FileSystemStore.Download f ctx key sink) (λ x, x.1.2) w)
     ∧ (∀ w, refuses (FileSystemStore.GetObject f ctx key) result_err w)
     ∧ (∀ w, refuses (FileSystemStore.HeadObject f ctx key) result_err w)
     ∧ (∀ w, refuses (FileSystemStore.Delete f ctx key) id w)
     ∧ (∀ w, refuses (FileSystemStore.Exists f ctx key) snd w)
     ∧ (∀ other w, refuses (FileSystemStore.Copy f ctx key other) id w
                   ∧ refuses (FileSystemStore.Copy f ctx other key) id w)
     ∧ (∀ rest failed w,
          deletes f ctx (key :: rest) failed w
          = deletes f ctx rest (failed ++ [key]) w)
     ∧ (∀ keys w, live ctx → key ∈ keys →
          key ∈ (FileSystemStore.DeleteMultiple f ctx keys w).1.1
          ∧ ∃ e, (FileSystemStore.DeleteMultiple f ctx keys w).1.2 = Some e
                 ∧ errors.Is e ErrBlobDeleteFailed = true
                 ∧ ¬ invalid_key e))
  ∧ (∀ f ctx keys w,
       keys ≠ [] → Forall unsafe_key keys → ctx_Err ctx (clock w) = None →
       FileSystemStore.DeleteMultiple f ctx keys w =
         (keys, Some (fmt.Errorf_w_d_text (Sentinel ErrBlobDeleteFailed) (length keys)
                        "files failed to delete"), w))
  ∧ (∀ s ctx r,
       (∀ input, UploadInput.Key input = "" →
                 refuses (S3Store.Upload s ctx input) result_err r)
       ∧ (∀ sink, refuses (S3Store.Download s ctx "" sink) (λ x, x.1.2) r)
       ∧ refuses (S3Store.GetObject s ctx "") result_err r
       ∧ refuses (S3Store.HeadObject s ctx "") result_err r
       ∧ refuses (S3Store.Delete s ctx "") id r
       ∧ refuses (S3Store.Exists s ctx "") snd r
       ∧ (∀ other, refuses (S3Store.Copy s ctx "" other) id r
                   ∧ refuses (S3Store.Copy s ctx other "") id r)
       ∧ (∀ contentType expiry,
            refuses (S3Store.GeneratePresignedURL s ctx "" expiry) result_err r
            ∧ refuses (S3Store.GeneratePresignedUploadURL s ctx "" contentType expiry)
                      result_err r))
  ∧ (∀ s ctx key r, key ≠ "" →
       (∀ input body, UploadInput.Key input = key → UploadInput.Body input = Some body →
          s3.requests (S3Store.Upload s ctx input r).2
          = s3.requests r ++ [s3.PutObject (bucket s) key])
       ∧ (∀ sink, s3.requests (S3Store.Download s ctx key sink r).2
                  = s3.requests r ++ [s3.GetObject (bucket s) key])
       ∧ s3.requests (S3Store.GetObject s ctx key r).2
         = s3.requests r ++ [s3.GetObject (bucket s) key]
       ∧ s3.requests (S3Store.HeadObject s ctx key r).2
         = s3.requests r ++ [s3.HeadObject (bucket s) key]
       ∧ s3.requests (S3Store.Delete s ctx key r).2
         = s3.requests r ++ [s3.DeleteObject (bucket s) key]
       ∧ s3.requests (S3Store.Exists s ctx key r).2
         = s3.requests r ++ [s3.HeadObject (bucket s) key]
       ∧ (∀ other, other ≠ "" →
            s3.requests (S3Store.Copy s ctx key other r).2
            = s3.requests r ++ [s3.CopyObject (bucket s) (bucket s +:+ "/" +:+ key) other]
            ∧ s3.requests (S3Store.Copy s ctx other key r).2
              = s3.requests r
                ++ [s3.CopyObject (bucket s) (bucket s +:+ "/" +:+ other) key])
       ∧ (∀ contentType expiry,
            (S3Store.GeneratePresignedURL s ctx key expiry r).2 = r
            ∧ (S3Store.GeneratePresignedUploadURL s ctx key contentType expiry r).2 = r
            ∧ (s3.signing_error r = None →
               (∃ url, (S3Store.GeneratePresignedURL s ctx key expiry r).1 = Ok url)
               ∧ ∃ url, (S3Store.GeneratePresignedUploadURL s ctx key contentType
                           expiry r).1 = Ok url)))
  ∧ (∀ s ctx key r, key ≠ "" →
       (∀ input body, UploadInput.Key input = key → UploadInput.Body input = Some body →
          ¬ refuses (S3Store.Upload s ctx input) result_err r)
       ∧ (∀ sink, ¬ refuses (S3Store.Download s ctx key sink) (λ x, x.1.2) r)
       ∧ ¬ refuses (S3Store.GetObject s ctx key) result_err r
       ∧ ¬ refuses (S3Store.HeadObject s ctx key) result_err r
       ∧ ¬ refuses (S3Store.Delete s ctx key) id r
       ∧ ¬ refuses (S3Store.Exists s ctx key) snd r
       ∧ (∀ other, other ≠ "" → ¬ refuses (S3Store.Copy s ctx key other) id r))
  ∧ (∀ s ctx keys r,
       concat (chunks 1000 keys) = keys
       ∧ s3.requests (S3Store.DeleteMultiple s ctx keys r).2
         = s3.requests r ++ (s3.DeleteObjects (bucket s) <$> chunks 1000 keys)).
Proof.
  split; [|split; [|split; [|split; [|split]]]].
  - intros f ctx key Hunsafe.
    destruct (fullPath_rejects f key Hunsafe) as [e [He _]].
    repeat split; intros;
      eauto using Upload_refuses, Download_refuses, GetObject_refuses,
        HeadObject_refuses, Delete_refuses, Exists_refuses, Copy_refuses_source,
        Copy_refuses_dest, deletes_refused.
    + rewrite DeleteMultiple_live by (by apply live_live_during).
      by apply deletes_reports_refused.
    + rewrite DeleteMultiple_live by (by apply live_live_during).
      cbn [fst snd].
      destruct (proj2 (aggregate_spec (deletes f ctx keys [] w).1
                         "files failed to delete")) as (e' & He' & Hkind & _).
      { intros Hnil.
        pose proof (deletes_reports_refused f ctx key keys [] w Hunsafe) as Hin.
        rewrite Hnil in Hin. eapply elem_of_nil, Hin. done. }
      exists e'. split; [done|]. split; [done|].
      unfold aggregate in He'. case_bool_decide; [done|]. by simplify_eq.
  - intros f ctx keys w Hne Hkeys Hctx.
    rewrite DeleteMultiple_live by (by apply live_during_refused).
    rewrite deletes_all_refused by done. cbn [app fst snd].
    unfold aggregate. by rewrite bool_decide_eq_false_2.
  - intros s ctx r.
    repeat split; intros;
      eauto using S3_Upload_refuses_empty, S3_Download_refuses_empty,
        S3_GetObject_refuses_empty, S3_HeadObject_refuses_empty,
        S3_Delete_refuses_empty, S3_Exists_refuses_empty, S3_Copy_refuses_empty.
    + by apply S3_presign_refuses_empty.
    + by apply (S3_presign_refuses_empty s ctx contentType expiry r).
  - intros s ctx key r Hkey.
    split; [intros input body <- Hb; by apply (S3_Upload_sends s ctx r input body)|].
    split; [intros sink; by apply S3_Download_sends|].
    split; [by apply S3_GetObject_sends|].
    split; [by apply S3_HeadObject_sends|].
    split; [by apply S3_Delete_sends|].
    split; [by apply S3_Exists_sends|].
    split; [intros other Ho; split; by apply S3_Copy_sends|].
    intros contentType expiry. by apply S3_presign_signs.
  - intros s ctx key r Hkey.
    split.
    { intros input body <- Hb. eapply sends_not_refuses.
      by apply (S3_Upload_sends s ctx r input body). }
    split; [intros sink; eapply sends_not_refuses; by apply S3_Download_sends|].
    split; [eapply sends_not_refuses; by apply S3_GetObject_sends|].
    split; [eapply sends_not_refuses; by apply S3_HeadObject_sends|].
    split; [eapply sends_not_refuses; by apply S3_Delete_sends|].
    split; [eapply sends_not_refuses; by apply S3_Exists_sends|].
    intros other Ho. eapply sends_not_refuses. by apply S3_Copy_sends.
  - intros s ctx keys r. change 1000%nat with S3Store.maxKeysPerRequest.
    split; [apply chunks_upto_concat; unfold S3Store.maxKeysPerRequest; lia|].
    rewrite S3_DeleteMultiple_batches. apply send_batches_requests.
Qed.

(** The theorem at work on ["../secret"]: [HeadObject] of the local store
    refuses it, a batch delete that holds it reports it, and [Download] of
    the networked store sends it. *)
Lemma key_rejection_by_backend_witness :
  unsafe_key "../secret"
  ∧ refuses (FileSystemStore.HeadObject blobs Background "../secret") result_err fresh_store
  ∧ "../secret" ∈ (FileSystemStore.DeleteMultiple blobs Background
                     ["a/1"; "../secret"] two_objects).1.1
  ∧ s3.requests (S3Store.Download remote_blobs Background "../secret" NewWriteAtBuffer
                   fresh_bucket).2
    = s3.requests fresh_bucket ++ [s3.GetObject (bucket remote_blobs) "../secret"].
Proof.
  assert (H : unsafe_key "../secret").
  { right; right. exists 1%nat. vm_compute. lia. }
  assert (Hin : "../secret" ∈ ["a/1"; "../secret"]).
  { apply elem_of_cons. right. apply elem_of_cons. by left. }
  assert (Hne : "../secret" ≠ "") by discriminate.
  split; [exact H|].
  split.
  { apply (proj1 key_rejection_by_backend blobs Background "../secret" H). }
  split.
  { apply (proj1 key_rejection_by_backend blobs Background "../secret" H).
    - reflexivity.
    - exact Hin. }
  apply (proj1 (proj2 (proj2 (proj2 key_rejection_by_backend)))
           remote_blobs Background "../secret" fresh_bucket Hne).
Defined.

(* ===================================================================== *)
(** * Facts about errors *)
(* ===================================================================== *)







Section remote_errors.
Context (s : S3Store) (ctx : Context).








End remote_errors.

(* ===================================================================== *)
(** * C8: what the networked backend makes of the client's errors *)
(* ===================================================================== *)




(* ===================================================================== *)
(** * Facts about sorting *)
(* ===================================================================== *)

Section sort_by.
Context {A : Type} (le : A → A → bool).

Lemma insert_by_perm x l : insert_by le x l ≡ₚ x :: l.
Proof.
  induction l as [|y l IH]; simpl; [done|].
  destruct (le x y); [done|]. rewrite IH. apply Permutation_swap.
Qed.

Lemma sort_by_perm l : sort_by le l ≡ₚ l.
Proof.
  induction l as [|x l IH]; simpl; [done|].
  by rewrite insert_by_perm, IH.
Qed.

Lemma sort_by_length l : length (sort_by le l) = length l.
Proof. by rewrite sort_by_perm. Qed.

Hypothesis le_total : ∀ x y, le x y = true ∨ le y x = true.

Lemma insert_by_sorted x l :
  Sorted (λ a b, le a b = true) l → Sorted (λ a b, le a b = true) (insert_by le x l).
Proof.
  induction 1 as [|y l Hs IH Hhd]; simpl; [by repeat constructor|].
  destruct (le x y) eqn:Hxy.
  - by repeat constructor.
  - constructor; [done|].
    destruct (le_total x y) as [?|Hyx]; [congruence|].
    destruct l as [|z l]; simpl; [by constructor|].
    destruct (le x z); constructor; [done|]. by inversion Hhd.
Qed.

Lemma sort_by_sorted l : Sorted (λ a b, le a b = true) (sort_by le l).
Proof.
  induction l as [|x l IH]; simpl; [constructor|]. by apply insert_by_sorted.
Qed.

End sort_by.

(** Sorting by a key and then taking the keys is sorting the keys. *)
Lemma insert_by_fmap {A B} (f : A → B) (le : B → B → bool) x l :
  f <$> insert_by (λ a b, le (f a) (f b)) x l = insert_by le (f x) (f <$> l).
Proof.
  induction l as [|y l IH]; [done|].
  cbn [insert_by]. rewrite fmap_cons. cbn [insert_by].
  destruct (le (f x) (f y)); [done|]. by rewrite fmap_cons, IH.
Qed.

Lemma sort_by_fmap {A B} (f : A → B) (le : B → B → bool) l :
  f <$> sort_by (λ a b, le (f a) (f b)) l = sort_by le (f <$> l).
Proof.
  induction l as [|x l IH]; [done|].
  cbn [sort_by]. rewrite fmap_cons. cbn [sort_by].
  by rewrite insert_by_fmap, IH.
Qed.

(** ** The order of keys *)

Lemma str_le_le a b : str_le a b = true ↔ (a ≤ b)%string.
Proof. unfold str_le, String.le. symmetry. apply Is_true_true. Qed.

Lemma str_le_total a b : str_le a b = true ∨ str_le b a = true.
Proof. apply String.leb_total. Qed.

Lemma str_lt_not_le a b : str_lt a b = negb (str_le b a).
Proof.
  unfold str_lt, str_le, String.ltb, String.leb.
  rewrite (String.compare_antisym b a). by destruct (String.compare a b).
Qed.

Lemma Sorted_weaken {A} (R R' : relation A) l :
  (∀ a b, R a b → R' a b) → Sorted R l → Sorted R' l.
Proof.
  intros HR. induction 1 as [|x l Hs IH Hhd]; constructor; [done|].
  destruct Hhd; constructor; auto.
Qed.

Lemma sort_keys_sorted l : Sorted (≤)%string (sort_by str_le l).
Proof.
  eapply Sorted_weaken; [|apply (sort_by_sorted str_le str_le_total)].
  intros a b. apply str_le_le.
Qed.

(** Two lists with the same keys sort to the same list. *)
Lemma sort_keys_unique l1 l2 :
  l1 ≡ₚ l2 → sort_by str_le l1 = sort_by str_le l2.
Proof.
  intros H. apply (Sorted_unique (≤)%string); [apply sort_keys_sorted..|].
  by rewrite !sort_by_perm.
Qed.

(* ===================================================================== *)
(** * Facts about List on the local backend *)
(* ===================================================================== *)

Lemma HasPrefix_empty s : HasPrefix s "" = true.
Proof. by destruct s. Qed.

(** The two skips of the walk's callback, taken together, are the filter. *)
Lemma listed_code input key :
  listed input key =
    negb (bool_decide (ListInput.Prefix input ≠ "")
          && negb (HasPrefix key (ListInput.Prefix input)))
    && negb (bool_decide (ListInput.StartAfter input ≠ "")
             && str_le key (ListInput.StartAfter input)).
Proof.
  unfold listed. rewrite str_lt_not_le.
  destruct (decide (ListInput.Prefix input = "")) as [Hp|Hp].
  - rewrite Hp, HasPrefix_empty.
    repeat case_bool_decide; try done; by destruct (str_le _ _).
  - repeat case_bool_decide; try done;
      by destruct (HasPrefix _ _), (str_le _ _).
Qed.

Lemma List_walk_quiet f ctx input entries : ∀ objects w,
  quiet w → live ctx →
  ∃ new w',
    FileSystemStore.List_walk f ctx (ListInput.Prefix input)
      (ListInput.StartAfter input) entries objects w = (objects ++ new, None, w')
    ∧ quiet w'
    ∧ ObjectInfo.Key <$> new
      = filter (λ k, listed input k = true) (omap (key_of f) entries).
Proof.
  induction entries as [|[path d] entries IH]; intros objects w Hquiet Hlive.
  { exists [], w. by rewrite app_nil_r. }
  cbn [FileSystemStore.List_walk]. csimpl. unfold key_of at 1. cbn [fst snd].
  destruct d as [c t|]; [|by apply IH].
  run_io. rewrite (live_Err _ _ Hlive).
  destruct (os.Rel (basePath f) path) as [key|]; [|by apply IH].
  cbn [fmap option_fmap option_map]. unfold filepath.ToSlash.
  rewrite filter_cons. rewrite listed_code.
  destruct (bool_decide (ListInput.Prefix input ≠ "") && negb (HasPrefix key _)).
  { rewrite decide_False by done. by apply IH. }
  destruct (bool_decide (ListInput.StartAfter input ≠ "") && str_le key _).
  { rewrite decide_False by done. by apply IH. }
  rewrite decide_True by done.
  unfold os.Info. rewrite (quiet_now _ Hquiet). run_io.
  match goal with
  | |- context [FileSystemStore.List_walk _ _ _ _ _ (objects ++ [?o]) _] =>
      destruct (IH (objects ++ [o]) (log (CallInfo path) w))
        as (new & w' & Hrun & Hq & Hkeys); [by apply quiet_log|done|];
      exists (o :: new), w'
  end.
  rewrite Hrun.
  split; [by rewrite <- app_assoc|]. split; [done|].
  rewrite fmap_cons. by rewrite Hkeys.
Qed.

Lemma omap_key_of_below f (l : list (string * node)) :
  omap (key_of f) (filter (λ pn, is_Some (os.Rel (basePath f) pn.1)) l)
  = omap (key_of f) l.
Proof.
  induction l as [|[p n] l IH]; [done|].
  rewrite filter_cons. cbn [fst]. case_decide as HR; csimpl.
  - by rewrite IH.
  - rewrite IH. unfold key_of at 2. cbn [fst snd].
    assert (os.Rel (basePath f) p = None) as ->.
    { destruct (os.Rel _ _); [|done]. exfalso. apply HR. eauto. }
    by destruct n.
Qed.

(** The keys the walk collects are, up to their order, the stored keys. *)
Lemma walk_keys f m :
  omap (key_of f) (os.walk_entries m (basePath f))
  ≡ₚ omap (key_of f) (map_to_list m).
Proof.
  unfold os.walk_entries. rewrite sort_by_perm. by rewrite omap_key_of_below.
Qed.

Lemma List_page_keys maxKeys objects :
  0 < maxKeys →
  ObjectInfo.Key <$> ListOutput.Objects (FileSystemStore.List_page maxKeys objects)
    = take (Z.to_nat maxKeys) (sort_by str_le (ObjectInfo.Key <$> objects))
  ∧ ListOutput.IsTruncated (FileSystemStore.List_page maxKeys objects)
    = bool_decide (Z.to_nat maxKeys < length (sort_by str_le (ObjectInfo.Key <$> objects)))%nat
  ∧ ListOutput.NextMarker (FileSystemStore.List_page maxKeys objects)
    = default "" (last (take (Z.to_nat maxKeys)
                         (sort_by str_le (ObjectInfo.Key <$> objects)))).
Proof.
  intros Hpos. unfold FileSystemStore.List_page, FileSystemStore.sort_objects.
  cbn [ListOutput.Objects ListOutput.IsTruncated ListOutput.NextMarker].
  rewrite <- (sort_by_fmap ObjectInfo.Key str_le).
  set (sorted := sort_by _ objects).
  assert (Hpage : (if bool_decide (maxKeys < Z.of_nat (length sorted))
                   then take (Z.to_nat maxKeys) sorted else sorted)
                  = take (Z.to_nat maxKeys) sorted).
  { case_bool_decide; [done|]. rewrite take_ge; [done|lia]. }
  rewrite Hpage. split; [by rewrite fmap_take|]. split.
  - rewrite length_fmap. apply bool_decide_ext. lia.
  - unfold last_key. rewrite <- fmap_take, fmap_last. by destruct (last _).
Qed.

Lemma max_keys_pos input :
  0 < (if bool_decide (ListInput.MaxKeys input ≤ 0) then 1000 else ListInput.MaxKeys input).
Proof. case_bool_decide; lia. Qed.

(** With no call failing, a live context and the root in place, [List] is
    the listing of the specification over the stored keys. *)
Lemma List_refines_spec f ctx input w :
  quiet w → live ctx →
  os.lookup_path (nodes w) (basePath f) = inr Directory →
  ∃ out w',
    FileSystemStore.List f ctx input w = (Ok out, w')
    ∧ (ObjectInfo.Key <$> ListOutput.Objects out, ListOutput.IsTruncated out,
       ListOutput.NextMarker out) = List_spec (stored_keys f w) input.
Proof.
  intros Hquiet Hlive Hroot.
  unfold FileSystemStore.List, FileSystemStore.List_collect. run_io.
  unfold os.Stat. rewrite (quiet_now _ Hquiet), Hroot. run_io.
  unfold os.ReadTree. cbn [nodes log].
  destruct (List_walk_quiet f ctx input (os.walk_entries (nodes w) (basePath f))
              [] (log (CallStat (basePath f)) w)) as (new & w' & Hrun & _ & Hkeys);
    [by apply quiet_log|done|].
  rewrite Hrun. cbn [app]. eexists _, w'. split; [done|].
  destruct (List_page_keys _ new (max_keys_pos input)) as (-> & -> & ->).
  unfold List_spec, max_keys, stored_keys.
  rewrite Hkeys.
  rewrite (sort_keys_unique _ (filter (λ k, listed input k = true)
                                 (omap (key_of f) (map_to_list (nodes w))))).
  - done.
  - by rewrite walk_keys.
Qed.

(** ** What the listing of the specification gives *)

Lemma List_spec_page keys input :
  let '(page, truncated, marker) := List_spec keys input in
  Sorted (≤)%string page
  ∧ (∀ k, k ∈ page → k ∈ keys ∧ listed input k = true)
  ∧ (length page ≤ max_keys input)%nat
  ∧ (truncated = true ↔
     (length page < length (filter (λ k, listed input k = true) keys))%nat)
  ∧ (∀ k k', k ∈ keys → listed input k = true → k ∉ page → k' ∈ page → (k' ≤ k)%string)
  ∧ (∀ k, last page = Some k → marker = k).
Proof.
  unfold List_spec.
  set (matching := filter _ keys). set (sorted := sort_by str_le matching).
  assert (Hsorted : StronglySorted (≤)%string sorted).
  { apply Sorted_StronglySorted; [apply _|apply sort_keys_sorted]. }
  assert (Hperm : sorted ≡ₚ matching) by apply sort_by_perm.
  rewrite <- (take_drop (max_keys input) sorted) in Hsorted.
  split; [|split; [|split; [|split; [|split]]]].
  - apply StronglySorted_Sorted. by apply StronglySorted_app_1_l in Hsorted.
  - intros k Hk. apply elem_of_take in Hk as (i & Hi & _).
    apply list_elem_of_lookup_2 in Hi. rewrite Hperm in Hi.
    by apply list_elem_of_filter in Hi as [? ?].
  - rewrite length_take. lia.
  - rewrite bool_decide_eq_true, length_take, <- Hperm. lia.
  - intros k k' Hk Hl Hnot Hk'.
    assert (k ∈ sorted) as Hin.
    { rewrite Hperm. by apply list_elem_of_filter. }
    rewrite <- (take_drop (max_keys input) sorted) in Hin.
    apply elem_of_app in Hin as [?|Hin]; [done|].
    by eapply StronglySorted_app_1_elem_of.
  - by intros k ->.
Qed.


(* ===================================================================== *)
(** * C3: List sorts the whole filtered set before it truncates *)
(* ===================================================================== *)

(** C3.  On the local backend, with no call failing, a live context and
    the root directory in place, [List] returns the listing of the
    specification over the stored keys: the keys that begin with the prefix
    and come strictly after [startAfter] (when it is given), all of them
    sorted in ascending order, and only then cut at [maxKeys] (1000 when
    [maxKeys <= 0]).  The page is ascending, holds only stored keys that
    pass the filters, is no longer than the maximum, precedes every
    matching key left out, [isTruncated] holds exactly when matching keys
    remain beyond the page, and the marker is the last key of the page.
    With the five objects a/1 .. a/5, [List(prefix="a/", maxKeys=2)] returns
    [a/1, a/2], truncated, with marker a/2, and
    [List(prefix="a/", startAfter="a/2")] returns [a/3, a/4, a/5]. *)
Theorem list_sorts_before_truncating :
  (∀ f ctx input w,
     quiet w → live ctx →
     os.lookup_path (nodes w) (basePath f) = inr Directory →
     page_of (FileSystemStore.List f ctx input w).1
     = Some (List_spec (stored_keys f w) input))
  ∧ (∀ keys input,
       let '(page, truncated, marker) := List_spec keys input in
       Sorted (≤)%string page
       ∧ (∀ k, k ∈ page → k ∈ keys ∧ listed input k = true)
       ∧ (length page ≤ max_keys input)%nat
       ∧ (truncated = true ↔
          (length page < length (filter (λ k, listed input k = true) keys))%nat)
       ∧ (∀ k k', k ∈ keys → listed input k = true → k ∉ page → k' ∈ page →
                  (k' ≤ k)%string)
       ∧ (∀ k, last page = Some k → marker = k))
  ∧ page_of (FileSystemStore.List blobs Background
               {| ListInput.Prefix := "a/"; ListInput.MaxKeys := 2;
                  ListInput.StartAfter := "" |} five_objects).1
    = Some (["a/1"; "a/2"], true, "a/2")
  ∧ page_of (FileSystemStore.List blobs Background
               {| ListInput.Prefix := "a/"; ListInput.MaxKeys := 0;
                  ListInput.StartAfter := "a/2" |} five_objects).1
    = Some (["a/3"; "a/4"; "a/5"], false, "a/5").
Proof.
  split; [|split; [|split]].
  - intros f ctx input w Hquiet Hlive Hroot.
    destruct (List_refines_spec f ctx input w Hquiet Hlive Hroot)
      as (out & w' & -> & <-). reflexivity.
  - intros. apply List_spec_page.
  - vm_compute. reflexivity.
  - vm_compute. reflexivity.
Qed.

(** The theorem at work: a page of three out of the four keys after a/1. *)
Lemma list_sorts_before_truncating_witness :
  page_of (FileSystemStore.List blobs Background
             {| ListInput.Prefix := ""; ListInput.MaxKeys := 3;
                ListInput.StartAfter := "a/1" |} five_objects).1
  = Some (["a/2"; "a/3"; "a/4"], true, "a/4").
Proof.
  assert (Hfaults : faults five_objects = []) by (vm_compute; reflexivity).
  assert (Hquiet : quiet five_objects).
  { intros i _. rewrite Hfaults. reflexivity. }
  assert (Hroot : os.lookup_path (nodes five_objects) (basePath blobs) = inr Directory)
    by (vm_compute; reflexivity).
  rewrite (proj1 list_sorts_before_truncating blobs Background
             {| ListInput.Prefix := ""; ListInput.MaxKeys := 3;
                ListInput.StartAfter := "a/1" |} five_objects Hquiet eq_refl Hroot).
  vm_compute. reflexivity.
Defined.

(* ===================================================================== *)
(** * C10: the marker is set on every non-empty page *)
(* ===================================================================== *)

Lemma List_marker f ctx input w out w' :
  FileSystemStore.List f ctx input w = (Ok out, w') →
  ListOutput.NextMarker out = last_key (ListOutput.Objects out).
Proof.
  unfold FileSystemStore.List. run_io.
  destruct (FileSystemStore.List_collect f ctx input w) as [[objects err] w1].
  destruct err as [e|]; [destruct (negb _ && negb _)|];
    intros [= <- <-]; reflexivity.
Qed.

Lemma S3_List_marker s ctx input r out r' :
  S3Store.List s ctx input r = (Ok out, r') →
  ListOutput.NextMarker out = last_key (ListOutput.Objects out).
Proof.
  unfold S3Store.List. run_io.
  destruct (s3.ListObjectsV2_call _ _ _ _ r) as [[result|e] r1];
    intros [= <- <-]; reflexivity.
Qed.

(** C10.  On both backends, whenever [List] returns a page, its
    [NextMarker] is the key of the last object of the page if there is one
    (and empty otherwise), whatever [IsTruncated] is.  So a marker that is
    not empty does not tell that more results exist: listing the five
    objects a/1 .. a/5 after a/2, on either backend, returns a page that is
    not truncated and carries the marker a/5. *)
Theorem marker_set_on_every_page :
  (∀ f ctx input w out w',
     FileSystemStore.List f ctx input w = (Ok out, w') →
     ListOutput.NextMarker out = last_key (ListOutput.Objects out)
     ∧ ∀ o, last (ListOutput.Objects out) = Some o →
            ListOutput.NextMarker out = ObjectInfo.Key o)
  ∧ (∀ s ctx input r out r',
       S3Store.List s ctx input r = (Ok out, r') →
       ListOutput.NextMarker out = last_key (ListOutput.Objects out)
       ∧ ∀ o, last (ListOutput.Objects out) = Some o →
              ListOutput.NextMarker out = ObjectInfo.Key o)
  ∧ page_of (FileSystemStore.List blobs Background
               {| ListInput.Prefix := "a/"; ListInput.MaxKeys := 0;
                  ListInput.StartAfter := "a/2" |} five_objects).1
    = Some (["a/3"; "a/4"; "a/5"], false, "a/5")
  ∧ page_of (S3Store.List remote_blobs Background
               {| ListInput.Prefix := "a/"; ListInput.MaxKeys := 0;
                  ListInput.StartAfter := "a/2" |} five_remote_objects).1
    = Some (["a/3"; "a/4"; "a/5"], false, "a/5").
Proof.
  split; [|split; [|split]].
  - intros f ctx input w out w' H. apply List_marker in H.
    split; [done|]. intros o Ho. rewrite H. unfold last_key. by rewrite Ho.
  - intros s ctx input r out r' H. apply S3_List_marker in H.
    split; [done|]. intros o Ho. rewrite H. unfold last_key. by rewrite Ho.
  - vm_compute. reflexivity.
  - vm_compute. reflexivity.
Qed.

(** The theorem at work on the listing of the five objects after a/2, on
    the local store and in the bucket: the page has three objects, is not
    truncated, and its marker is the key of the last of them, a/5. *)
Lemma marker_set_on_every_page_witness :
  (∃ out w' o,
     FileSystemStore.List blobs Background
       {| ListInput.Prefix := "a/"; ListInput.MaxKeys := 0;
          ListInput.StartAfter := "a/2" |} five_objects = (Ok out, w')
     ∧ length (ListOutput.Objects out) = 3%nat
     ∧ ListOutput.IsTruncated out = false
     ∧ last (ListOutput.Objects out) = Some o
     ∧ ObjectInfo.Key o = "a/5"
     ∧ ListOutput.NextMarker out = ObjectInfo.Key o)
  ∧ (∃ out r' o,
       S3Store.List remote_blobs Background
         {| ListInput.Prefix := "a/"; ListInput.MaxKeys := 0;
            ListInput.StartAfter := "a/2" |} five_remote_objects = (Ok out, r')
       ∧ length (ListOutput.Objects out) = 3%nat
       ∧ ListOutput.IsTruncated out = false
       ∧ last (ListOutput.Objects out) = Some o
       ∧ ObjectInfo.Key o = "a/5"
       ∧ ListOutput.NextMarker out = ObjectInfo.Key o).
Proof.
  split.
  - pose (input := {| ListInput.Prefix := "a/"; ListInput.MaxKeys := 0;
                      ListInput.StartAfter := "a/2" |}).
    pose (entry := λ key t,
            {| ObjectInfo.Key := key; ObjectInfo.Size := 1;
               ObjectInfo.ContentType := "application/octet-stream";
               ObjectInfo.ETag := ""; ObjectInfo.LastModified := Some t;
               ObjectInfo.Metadata := ∅ |}).
    pose (out := {| ListOutput.Objects :=
                      [entry "a/3" 3%nat; entry "a/4" 27%nat; entry "a/5" 15%nat];
                    ListOutput.IsTruncated := false;
                    ListOutput.NextMarker := "a/5" |}).
    pose (run := FileSystemStore.List blobs Background input five_objects).
    assert (Hout : run.1 = Ok out) by (vm_compute; reflexivity).
    pose proof (eq_trans (surjective_pairing run) (f_equal (λ x, (x, run.2)) Hout))
      as Hrun.
    exists out, run.2, (entry "a/5" 15%nat).
    split; [exact Hrun|]. split; [reflexivity|]. split; [reflexivity|].
    split; [reflexivity|]. split; [reflexivity|].
    exact (proj2 (proj1 marker_set_on_every_page blobs Background input five_objects
                    out run.2 Hrun) (entry "a/5" 15%nat) eq_refl).
  - pose (input := {| ListInput.Prefix := "a/"; ListInput.MaxKeys := 0;
                      ListInput.StartAfter := "a/2" |}).
    pose (entry := λ key etag t,
            {| ObjectInfo.Key := key; ObjectInfo.Size := 1;
               ObjectInfo.ContentType := "";
               ObjectInfo.ETag := s3.quote +:+ etag +:+ s3.quote;
               ObjectInfo.LastModified := Some t;
               ObjectInfo.Metadata := ∅ |}).
    pose (out := {| ListOutput.Objects :=
                      [entry "a/3" "eccbc87e4b5ce2fe28308fd9f2a7baf3" 0%nat;
                       entry "a/4" "a87ff679a2f3e71d9181a67b7542122c" 4%nat;
                       entry "a/5" "e4da3b7fbbce2345d7772b0674a318d5" 2%nat];
                    ListOutput.IsTruncated := false;
                    ListOutput.NextMarker := "a/5" |}).
    pose (run := S3Store.List remote_blobs Background input five_remote_objects).
    assert (Hout : run.1 = Ok out) by (vm_compute; reflexivity).
    pose proof (eq_trans (surjective_pairing run) (f_equal (λ x, (x, run.2)) Hout))
      as Hrun.
    exists out, run.2, (entry "a/5" "e4da3b7fbbce2345d7772b0674a318d5" 2%nat).
    split; [exact Hrun|]. split; [reflexivity|]. split; [reflexivity|].
    split; [reflexivity|]. split; [reflexivity|].
    exact (proj2 (proj1 (proj2 marker_set_on_every_page) remote_blobs Background input
                    five_remote_objects out run.2 Hrun)
                 (entry "a/5" "e4da3b7fbbce2345d7772b0674a318d5" 2%nat) eq_refl).
Defined.

(* ===================================================================== *)
(** * Further facts about paths *)
(* ===================================================================== *)

Lemma elements_nonempty p : filepath.elements p ≠ [].
Proof.
  destruct p as [|c r]; simpl; [done|].
  destruct (filepath.IsPathSeparator c); [done|].
  by destruct (filepath.elements r).
Qed.

Lemma elements_app_sep a b :
  filepath.elements (a +:+ String "/" b) = filepath.elements a ++ filepath.elements b.
Proof.
  induction a as [|c r IH]; simpl; [done|].
  destruct (filepath.IsPathSeparator c); [by rewrite IH|].
  rewrite IH. pose proof (elements_nonempty r).
  by destruct (filepath.elements r).
Qed.

Lemma elements_single p : Forall (λ e, filepath.elements e = [e]) (filepath.elements p).
Proof.
  induction p as [|c r IH]; simpl; [by repeat constructor|].
  destruct (filepath.IsPathSeparator c) eqn:Hc; [by constructor|].
  pose proof (elements_nonempty r).
  destruct (filepath.elements r) as [|e es]; [done|].
  inversion IH as [|? ? He Hes]; subst. constructor; [|done].
  simpl. by rewrite Hc, He.
Qed.

Lemma elements_Join l :
  l ≠ [] → Forall (λ e, filepath.elements e = [e]) l →
  filepath.elements (Join_strings l "/") = l.
Proof.
  intros Hl Hall. induction Hall as [|x r Hx Hr IH]; [done|].
  destruct r as [|y r']; [done|].
  change (Join_strings (x :: y :: r') "/") with (x +:+ String "/" (Join_strings (y :: r') "/")).
  rewrite elements_app_sep, Hx, IH; done.
Qed.

Lemma append_assoc (a b c : string) : (a +:+ b) +:+ c = a +:+ (b +:+ c).
Proof.
  induction a as [|x a IH]; [done|].
  change (String x ((a +:+ b) +:+ c) = String x (a +:+ (b +:+ c))). by rewrite IH.
Qed.

Lemma append_empty_r (a : string) : a +:+ "" = a.
Proof.
  induction a as [|x a IH]; [done|].
  change (String x (a +:+ "") = String x a). by rewrite IH.
Qed.

Lemma Join_strings_app l1 l2 :
  l1 ≠ [] → l2 ≠ [] →
  Join_strings (l1 ++ l2) "/" = Join_strings l1 "/" +:+ "/" +:+ Join_strings l2 "/".
Proof.
  intros H1 H2. induction l1 as [|x r IH]; [done|].
  destruct r as [|y r'].
  - destruct l2; [done|]. reflexivity.
  - change (Join_strings ((x :: y :: r') ++ l2) "/")
      with (x +:+ "/" +:+ Join_strings ((y :: r') ++ l2) "/").
    rewrite IH by done.
    change (Join_strings (x :: y :: r') "/") with (x +:+ "/" +:+ Join_strings (y :: r') "/").
    by rewrite !append_assoc.
Qed.

Lemma clean_loop_skip r l : ∀ l2 dd out,
  Forall (λ e, e = "" ∨ e = ".") l →
  filepath.clean_loop r (l ++ l2) dd out = filepath.clean_loop r l2 dd out.
Proof.
  induction l as [|e l IH]; intros l2 dd out Hl; [done|].
  inversion Hl; subst. simpl. rewrite decide_True by done. by apply IH.
Qed.

Lemma is_name_spec e : is_name e = true ↔ e ≠ "" ∧ e ≠ "." ∧ e ≠ "..".
Proof. unfold is_name. by rewrite bool_decide_eq_true. Qed.

Lemma clean_loop_names r l : ∀ l2 dd out,
  Forall (λ e, is_name e = true) l →
  filepath.clean_loop r (l ++ l2) dd out
  = filepath.clean_loop r l2 dd (reverse l ++ out).
Proof.
  induction l as [|e l IH]; intros l2 dd out Hl; [done|].
  inversion Hl as [|? ? He Hl']; subst. apply is_name_spec in He as (? & ? & ?).
  simpl. rewrite decide_False by tauto. rewrite decide_False by done.
  rewrite IH by done. by rewrite reverse_cons, <- app_assoc.
Qed.

Lemma clean_loop_names_end r l dd out :
  Forall (λ e, is_name e = true) l →
  filepath.clean_loop r l dd out = replicate dd ".." ++ reverse out ++ l.
Proof.
  intros Hl. pose proof (clean_loop_names r l [] dd out Hl) as H.
  rewrite app_nil_r in H. rewrite H. simpl.
  by rewrite reverse_app, reverse_involutive.
Qed.

Lemma clean_loop_dotdots k : ∀ l2 dd,
  filepath.clean_loop false (replicate k ".." ++ l2) dd []
  = filepath.clean_loop false l2 (dd + k) [].
Proof.
  induction k as [|k IH]; intros l2 dd; simpl.
  - by rewrite Nat.add_0_r.
  - rewrite IH. f_equal. lia.
Qed.

Lemma clean_loop_shape r els : ∀ dd out,
  Forall (λ e, filepath.elements e = [e]) els → Forall is_step out →
  ∃ k names, filepath.clean_loop r els dd out = replicate k ".." ++ names
             ∧ Forall is_step names ∧ (r = true → k = dd).
Proof.
  induction els as [|e els IH]; intros dd out Hels Hout.
  - exists dd, (reverse out). split; [done|]. split; [|done].
    by apply Forall_reverse.
  - inversion Hels as [|? ? He Hels']; subst. simpl.
    destruct (decide (e = "" ∨ e = ".")) as [|Hne]; [by apply IH|].
    destruct (decide (e = "..")) as [->|Hdd].
    + destruct out as [|o out'].
      * destruct r.
        -- by apply IH.
        -- destruct (IH (S dd) [] Hels' Hout) as (k & names & -> & ? & ?).
           exists k, names. done.
      * inversion Hout; subst. by apply IH.
    + apply IH; [done|]. constructor; [|done].
      split; [|done]. apply is_name_spec. tauto.
Qed.

Lemma is_step_not_abs e rest : is_step e → filepath.IsAbs (e +:+ rest) = false.
Proof.
  intros [Hn He]. apply is_name_spec in Hn as (Hne & _).
  destruct e as [|c e']; [done|]. simpl in *.
  destruct (filepath.IsPathSeparator c); [|done].
  pose proof (elements_nonempty e'). destruct (filepath.elements e'); done.
Qed.

Lemma is_step_nonempty e : is_step e → e ≠ "".
Proof. intros [Hn _]. by apply is_name_spec in Hn as (? & _). Qed.

Lemma Join_strings_cons_nonempty e l : e ≠ "" → Join_strings (e :: l) "/" ≠ "".
Proof. destruct e; [done|]. destruct l; done. Qed.

Lemma Join_strings_head e l :
  ∃ rest, Join_strings (e :: l) "/" = e +:+ rest.
Proof.
  destruct l as [|y l]; [exists ""; simpl; by rewrite append_empty_r|].
  by exists ("/" +:+ Join_strings (y :: l) "/").
Qed.

(** The shape of a cleaned path: rooted, the root followed by names; else
    [.], or some [..] followed by names. *)
Lemma Clean_shape p :
  p ≠ "" →
  ∃ k names, Forall is_step names ∧
    if filepath.IsAbs p then filepath.Clean p = "/" +:+ Join_strings names "/"
    else if decide (k = 0%nat ∧ names = []) then filepath.Clean p = "."
    else filepath.Clean p = Join_strings (replicate k ".." ++ names) "/".
Proof.
  intros Hp. unfold filepath.Clean. rewrite decide_False by done. cbv zeta.
  destruct (clean_loop_shape (filepath.IsAbs p) (filepath.elements p) 0 [])
    as (k & names & -> & Hnames & Hk); [apply elements_single|done|].
  exists k, names. split; [done|].
  destruct (filepath.IsAbs p); [by rewrite Hk|].
  destruct (decide (k = 0%nat ∧ names = [])) as [[-> ->]|Hne]; [done|].
  rewrite decide_False; [done|].
  destruct k as [|k]; simpl.
  - destruct names as [|e names]; [tauto|].
    inversion Hnames; subst. apply Join_strings_cons_nonempty. by apply is_step_nonempty.
  - by apply Join_strings_cons_nonempty.
Qed.

Lemma is_step_elements names :
  Forall is_step names → Forall (λ e, filepath.elements e = [e]) names.
Proof. intros H. eapply Forall_impl; [exact H|]. by intros ? [_ ?]. Qed.

Lemma is_step_names names :
  Forall is_step names → Forall (λ e, is_name e = true) names.
Proof. intros H. eapply Forall_impl; [exact H|]. by intros ? [? _]. Qed.

(** A rooted path made of names is clean already, and so is a cleaned
    path followed by more names. *)
Lemma Clean_rooted_names skipped names :
  Forall (λ e, e = "" ∨ e = ".") skipped → Forall is_step names →
  ∀ p, filepath.IsAbs p = true → filepath.elements p = skipped ++ names →
  filepath.Clean p = "/" +:+ Join_strings names "/".
Proof.
  intros Hs Hn p Habs Hel. unfold filepath.Clean.
  rewrite decide_False by (by intros ->). cbv zeta. rewrite Habs, Hel.
  rewrite clean_loop_skip by done.
  by rewrite clean_loop_names_end by by apply is_step_names.
Qed.

Lemma elements_dot_dot : filepath.elements ".." = [".."].
Proof. reflexivity. Qed.

Lemma Clean_relative_names k names :
  Forall is_step names → replicate k ".." ++ names ≠ [] →
  filepath.Clean (Join_strings (replicate k ".." ++ names) "/")
  = Join_strings (replicate k ".." ++ names) "/".
Proof.
  intros Hn Hne. set (l := replicate k ".." ++ names) in *.
  assert (Hhead : ∃ e rest, l = e :: rest ∧ e ≠ "" ∧ (e = ".." ∨ is_step e)).
  { subst l. destruct k as [|k]; simpl.
    - destruct names as [|e names]; [done|]. inversion Hn; subst.
      exists e, names. split; [done|]. split; [by apply is_step_nonempty|by right].
    - exists "..", (replicate k ".." ++ names). split; [done|]. split; [done|by left]. }
  destruct Hhead as (e & rest & Hl & He & Hkind).
  assert (Hnonempty : Join_strings l "/" ≠ "").
  { rewrite Hl. by apply Join_strings_cons_nonempty. }
  assert (Hrel : filepath.IsAbs (Join_strings l "/") = false).
  { rewrite Hl. destruct (Join_strings_head e rest) as [tl ->].
    destruct Hkind as [->|Hstep]; [done|]. by apply is_step_not_abs. }
  assert (Hel : filepath.elements (Join_strings l "/") = l).
  { apply elements_Join; [by rewrite Hl|]. subst l. apply Forall_app. split.
    - apply Forall_replicate. reflexivity.
    - by apply is_step_elements. }
  unfold filepath.Clean. rewrite decide_False by done. cbv zeta.
  rewrite Hrel, Hel. subst l.
  rewrite clean_loop_dotdots.
  rewrite clean_loop_names_end by by apply is_step_names.
  simpl. by rewrite decide_False.
Qed.

(** [Clean] is idempotent. *)
Lemma Clean_idempotent p : filepath.Clean (filepath.Clean p) = filepath.Clean p.
Proof.
  destruct (decide (p = "")) as [->|Hp]; [vm_compute; reflexivity|].
  destruct (Clean_shape p Hp) as (k & names & Hn & Hshape).
  destruct (filepath.IsAbs p).
  - rewrite Hshape.
    destruct names as [|e names]; [vm_compute; reflexivity|].
    apply (Clean_rooted_names [""] (e :: names)); [by repeat constructor|done|done|].
    change ("/" +:+ Join_strings (e :: names) "/")
      with ("" +:+ String "/" (Join_strings (e :: names) "/")).
    rewrite elements_app_sep.
    rewrite elements_Join; [done|done|]. by apply is_step_elements.
  - destruct (decide (k = 0%nat ∧ names = [])) as [|Hne].
    + rewrite Hshape. vm_compute. reflexivity.
    + rewrite Hshape. apply Clean_relative_names; [done|].
      intros Hnil. apply Hne. destruct k; [done|]. discriminate.
Qed.

Lemma clean_loop_no_dotdot r els : ∀ dd out,
  Forall (λ e, e ≠ "..") els →
  filepath.clean_loop r els dd out
  = replicate dd ".." ++ reverse out ++ filter (λ e, is_name e = true) els.
Proof.
  induction els as [|e els IH]; intros dd out Hels.
  - simpl. by rewrite app_nil_r.
  - inversion Hels as [|? ? He Hels']; subst. simpl.
    destruct (decide (e = "" ∨ e = ".")) as [Hskip|Hname].
    + rewrite IH by done. rewrite filter_cons_False; [done|].
      rewrite is_name_spec. tauto.
    + rewrite decide_False by done. rewrite IH by done.
      rewrite filter_cons_True by (rewrite is_name_spec; tauto).
      by rewrite reverse_cons, <- app_assoc.
Qed.

Lemma filter_names names :
  Forall (λ e, is_name e = true) names → filter (λ e, is_name e = true) names = names.
Proof.
  induction 1 as [|e l He Hl IH]; [done|]. by rewrite filter_cons_True, IH.
Qed.

Lemma Clean_rooted p :
  filepath.IsAbs p = true → Forall (λ e, e ≠ "..") (filepath.elements p) →
  filepath.Clean p
  = "/" +:+ Join_strings (filter (λ e, is_name e = true) (filepath.elements p)) "/".
Proof.
  intros Habs Hel. unfold filepath.Clean.
  rewrite decide_False by (by intros ->). cbv zeta. rewrite Habs.
  by rewrite clean_loop_no_dotdot.
Qed.

Lemma Clean_abs_shape p :
  clean_absolute p → ∃ names, Forall is_step names ∧ p = "/" +:+ Join_strings names "/".
Proof.
  intros [Habs Hclean].
  assert (Hp : p ≠ "") by (by intros ->).
  destruct (Clean_shape p Hp) as (k & names & Hn & Hshape).
  rewrite Habs, Hclean in Hshape. by exists names.
Qed.

Lemma is_step_not_dotdot names : Forall is_step names → Forall (λ e, e ≠ "..") names.
Proof.
  intros H. eapply Forall_impl; [exact H|]. intros e [He _].
  apply is_name_spec in He. tauto.
Qed.

Lemma elements_rooted names :
  Forall is_step names →
  ∃ skipped, Forall (λ e, e = "") skipped
    ∧ filepath.elements ("/" +:+ Join_strings names "/") = skipped ++ names.
Proof.
  intros Hn.
  change ("/" +:+ Join_strings names "/") with ("" +:+ String "/" (Join_strings names "/")).
  rewrite elements_app_sep.
  destruct names as [|e names].
  - exists [""; ""]. split; [by repeat constructor|done].
  - exists [""]. split; [by repeat constructor|].
    rewrite elements_Join; [done|done|]. by apply is_step_elements.
Qed.

Lemma filter_skipped skipped :
  Forall (λ e, e = "") skipped → filter (λ e, is_name e = true) skipped = [].
Proof.
  induction 1 as [|e l He Hl IH]; [done|].
  rewrite filter_cons_False; [done|]. by rewrite He.
Qed.

Lemma skipped_not_dotdot skipped :
  Forall (λ e, e = "") skipped → Forall (λ e, e ≠ "..") skipped.
Proof. intros H. eapply Forall_impl; [exact H|]. by intros e ->. Qed.

Lemma rooted_child names e :
  Forall is_step names → is_step e →
  os.child ("/" +:+ Join_strings names "/") e
  = "/" +:+ Join_strings (names ++ [e]) "/".
Proof.
  intros Hn He. unfold os.child. destruct names as [|x names].
  - by rewrite decide_True.
  - inversion Hn; subst. rewrite decide_False.
    + rewrite Join_strings_app by done. by rewrite !append_assoc.
    + intros Heq. injection Heq as Heq.
      by apply (Join_strings_cons_nonempty x names); [apply is_step_nonempty|].
Qed.

Lemma rooted_descend nk : ∀ nb,
  Forall is_step nb → Forall is_step nk →
  foldl os.child ("/" +:+ Join_strings nb "/") nk
  = "/" +:+ Join_strings (nb ++ nk) "/".
Proof.
  induction nk as [|e nk IH]; intros nb Hb Hk; simpl.
  - by rewrite app_nil_r.
  - inversion Hk; subst. rewrite rooted_child by done.
    rewrite IH; [|apply Forall_app; split; [done|by constructor]|done].
    by rewrite <- app_assoc.
Qed.

Lemma strip_prefix_app pre s : os.strip_prefix pre (pre +:+ s) = Some s.
Proof.
  induction pre as [|c pre IH]; [done|].
  change (String c pre +:+ s) with (String c (pre +:+ s)). simpl.
  by rewrite Ascii.eqb_refl.
Qed.

(** The cleaned key of an accepted key is [.] or a path of names. *)
Lemma accepted_key_shape f key full :
  FileSystemStore.fullPath f key = Ok full →
  full = filepath.Join (basePath f) (filepath.Clean key)
  ∧ (filepath.Clean key = "."
     ∨ ∃ names, names ≠ [] ∧ Forall is_step names
                ∧ filepath.Clean key = Join_strings names "/").
Proof.
  unfold FileSystemStore.fullPath. intros H.
  destruct (decide (key = "")) as [|Hkey]; [done|].
  destruct (HasPrefix (filepath.Clean key) ".." || filepath.IsAbs (filepath.Clean key))
    eqn:Hbad; [done|].
  apply orb_false_iff in Hbad as [Hdots Habs].
  split; [congruence|].
  destruct (Clean_shape key Hkey) as (k & names & Hn & Hshape).
  destruct (filepath.IsAbs key).
  { rewrite Hshape in Habs. done. }
  destruct (decide (k = 0%nat ∧ names = [])) as [|Hne]; [by left|].
  right. destruct k as [|k].
  - exists names. split; [|done]. intros ->. by apply Hne.
  - rewrite Hshape in Hdots.
    change (replicate (S k) ".." ++ names) with (".." :: (replicate k ".." ++ names)) in Hdots.
    by rewrite join_dotdot_prefix in Hdots.
Qed.

Lemma fullPath_below f key full :
  clean_absolute (basePath f) →
  FileSystemStore.fullPath f key = Ok full →
  ∃ names, Forall is_step names
    ∧ full = foldl os.child (basePath f) names
    ∧ os.Rel (basePath f) full = Some (filepath.Clean key)
    ∧ filepath.Clean key = (if decide (names = []) then "." else Join_strings names "/").
Proof.
  intros Hbase Hfull.
  destruct (accepted_key_shape _ _ _ Hfull) as [-> Hkey].
  destruct (Clean_abs_shape _ Hbase) as (nb & Hnb & Hb).
  destruct (elements_rooted nb Hnb) as (skipped & Hskipped & Hel).
  assert (Hbne : basePath f ≠ "").
  { intros Heq. destruct Hbase as [Habs _]. by rewrite Heq in Habs. }
  unfold filepath.Join. rewrite decide_False by done.
  destruct Hkey as [Hdot|(nk & Hnk & Hsteps & Hck)].
  - rewrite Hdot. rewrite decide_False by done.
    exists []. split; [done|].
    assert (Hclean : filepath.Clean (basePath f +:+ "/" +:+ ".") = basePath f).
    { rewrite Clean_rooted.
      - change (basePath f +:+ "/" +:+ ".") with (basePath f +:+ String "/" ".").
        rewrite elements_app_sep. rewrite Hb at 1. rewrite Hel.
        rewrite !filter_app, filter_skipped by done.
        rewrite filter_names by by apply is_step_names. simpl.
        rewrite filter_cons_False by done. rewrite filter_nil, app_nil_r. done.
      - rewrite Hb. done.
      - change (basePath f +:+ "/" +:+ ".") with (basePath f +:+ String "/" ".").
        rewrite elements_app_sep. rewrite Hb at 1. rewrite Hel.
        rewrite !Forall_app. split; [split|].
        + by apply skipped_not_dotdot.
        + by apply is_step_not_dotdot.
        + by repeat constructor. }
    rewrite Hclean. split; [done|]. split; [|done].
    unfold os.Rel. by rewrite decide_True.
  - rewrite Hck.
    assert (Hckne : Join_strings nk "/" ≠ "").
    { destruct nk as [|e nk]; [done|]. inversion Hsteps; subst.
      apply Join_strings_cons_nonempty. by apply is_step_nonempty. }
    rewrite decide_False by done.
    exists nk. split; [done|].
    assert (Hclean : filepath.Clean (basePath f +:+ "/" +:+ Join_strings nk "/")
                     = "/" +:+ Join_strings (nb ++ nk) "/").
    { rewrite Clean_rooted.
      - change (basePath f +:+ "/" +:+ Join_strings nk "/")
          with (basePath f +:+ String "/" (Join_strings nk "/")).
        rewrite elements_app_sep. rewrite Hb at 1. rewrite Hel.
        rewrite elements_Join by (by try apply is_step_elements).
        rewrite !filter_app, filter_skipped by done.
        rewrite !filter_names by by apply is_step_names. done.
      - rewrite Hb. done.
      - change (basePath f +:+ "/" +:+ Join_strings nk "/")
          with (basePath f +:+ String "/" (Join_strings nk "/")).
        rewrite elements_app_sep. rewrite Hb at 1. rewrite Hel.
        rewrite elements_Join by (by try apply is_step_elements).
        rewrite !Forall_app. split; [split|].
        + by apply skipped_not_dotdot.
        + by apply is_step_not_dotdot.
        + by apply is_step_not_dotdot. }
    rewrite Hclean. split.
    { rewrite Hb at 1. by rewrite rooted_descend. }
    assert (Hsplit : "/" +:+ Join_strings (nb ++ nk) "/"
                     = os.child (basePath f) "" +:+ Join_strings nk "/").
    { unfold os.child. rewrite Hb. destruct nb as [|x nb].
      - by rewrite decide_True.
      - inversion Hnb; subst. rewrite decide_False.
        + rewrite Join_strings_app by done. rewrite !append_assoc. done.
        + intros Heq. injection Heq as Heq.
          by apply (Join_strings_cons_nonempty x nb); [apply is_step_nonempty|]. }
    split; [|by rewrite decide_False].
    unfold os.Rel. rewrite decide_False.
    + rewrite Hsplit. apply strip_prefix_app.
    + rewrite Hsplit. unfold os.child.
      destruct (decide (basePath f = "/")) as [Hroot|Hroot].
      * rewrite Hroot. intros Heq. injection Heq as Heq. done.
      * rewrite append_assoc. intros Heq.
        rewrite <- (append_empty_r (basePath f)) in Heq at 2.
        apply String.app_inj in Heq. discriminate.
Qed.

Lemma Clean_nonempty p : filepath.Clean p ≠ "".
Proof.
  destruct (decide (p = "")) as [->|Hp]; [done|].
  destruct (Clean_shape p Hp) as (k & names & Hn & Hshape).
  destruct (filepath.IsAbs p); [by rewrite Hshape|].
  destruct (decide (k = 0%nat ∧ names = [])) as [|Hne]; [by rewrite Hshape|].
  rewrite Hshape. destruct k as [|k].
  - destruct names as [|e names]; [tauto|]. inversion Hn; subst.
    apply Join_strings_cons_nonempty. by apply is_step_nonempty.
  - by apply Join_strings_cons_nonempty.
Qed.

(* ===================================================================== *)
(** * Lookups, and what Upload leaves alone, on the local backend *)
(* ===================================================================== *)

Section local_lookups.
Context (f : FileSystemStore) (ctx : Context) (key full : string) (w : world).
Hypothesis Hfull : FileSystemStore.fullPath f key = Ok full.
Hypothesis Hnow : fault_now w = None.

Lemma Download_missing sink :
  os.lookup_path (nodes w) full = inl ENOENT →
  FileSystemStore.Download f ctx key sink w
  = (0, Some (Sentinel ErrBlobNotFound), sink, log (CallOpen full) w).
Proof.
  intros Hm. unfold FileSystemStore.Download. rewrite Hfull. run_io.
  unfold os.Open. by rewrite Hnow, Hm.
Qed.

Lemma GetObject_missing :
  os.lookup_path (nodes w) full = inl ENOENT →
  FileSystemStore.GetObject f ctx key w
  = (Err (Sentinel ErrBlobNotFound), log (CallOpen full) w).
Proof.
  intros Hm. unfold FileSystemStore.GetObject. rewrite Hfull. run_io.
  unfold os.Open. by rewrite Hnow, Hm.
Qed.

Lemma HeadObject_lookup :
  FileSystemStore.HeadObject f ctx key w
  = (match os.lookup_path (nodes w) full with
     | inl ENOENT => Err (Sentinel ErrBlobNotFound)
     | inl e => Err (fmt.Errorf_text_w "failed to get object info"
                       (PathError "stat" full e))
     | inr Directory => Err (Sentinel ErrBlobNotFound)
     | inr (File c t) =>
         Ok {| ObjectInfo.Key := key;
               ObjectInfo.Size := Z.of_nat (length c);
               ObjectInfo.ContentType := FileSystemStore.detectContentType key;
               ObjectInfo.ETag := "";
               ObjectInfo.LastModified := Some t;
               ObjectInfo.Metadata := ∅ |}
     end, log (CallStat full) w).
Proof.
  unfold FileSystemStore.HeadObject. rewrite Hfull. run_io.
  unfold os.Stat. rewrite Hnow.
  destruct (os.lookup_path (nodes w) full) as [[]|[]]; done.
Qed.

Lemma Exists_lookup :
  FileSystemStore.Exists f ctx key w
  = (match os.lookup_path (nodes w) full with
     | inl ENOENT => (false, None)
     | inl e => (false, Some (fmt.Errorf_text_w "failed to get object info"
                                (PathError "stat" full e)))
     | inr Directory => (false, None)
     | inr (File c t) => (true, None)
     end, log (CallStat full) w).
Proof.
  unfold FileSystemStore.Exists. run_io. rewrite HeadObject_lookup.
  destruct (os.lookup_path (nodes w) full) as [[]|[]]; done.
Qed.

End local_lookups.

(** X9.  [Exists] on the local backend, with no failure of the call: it
    returns true exactly when the full path of the key is a regular file,
    false and no error exactly when nothing is there or a directory is
    there, and an error (the one of [HeadObject], around the error of
    [os.Stat]) exactly when a regular file lies on the way to the path.  It
    never changes the file tree. *)
Theorem exists_iff_regular_file f ctx key full w :
  FileSystemStore.fullPath f key = Ok full →
  fault_now w = None →
  ((FileSystemStore.Exists f ctx key w).1 = (true, None)
   ↔ ∃ c t, os.lookup_path (nodes w) full = inr (File c t))
  ∧ ((FileSystemStore.Exists f ctx key w).1 = (false, None)
     ↔ os.lookup_path (nodes w) full = inl ENOENT
       ∨ os.lookup_path (nodes w) full = inr Directory)
  ∧ (∀ e, (FileSystemStore.Exists f ctx key w).1 = (false, Some e)
          ↔ os.lookup_path (nodes w) full = inl ENOTDIR
            ∧ e = fmt.Errorf_text_w "failed to get object info"
                    (PathError "stat" full ENOTDIR))
  ∧ nodes (FileSystemStore.Exists f ctx key w).2 = nodes w.
Proof.
  intros Hfull Hnow. rewrite (Exists_lookup _ _ _ _ _ Hfull Hnow).
  destruct (os.lookup_path (nodes w) full) as [e|[c t|]] eqn:Hl.
  - destruct (lookup_path_error _ _ _ Hl) as [-> | ->]; simpl.
    + split; [split; [done|by intros (? & ? & ?)]|].
      split; [split; [by left|done]|].
      split; [|done]. intros e. split; [done|]. by intros [? _].
    + split; [split; [done|by intros (? & ? & ?)]|].
      split; [split; [done|by intros [?|?]]|].
      split; [|done]. intros e. split.
      * by intros [= <-].
      * by intros [_ ->].
  - simpl. split; [split; [by eauto|done]|].
    split; [split; [done|by intros [?|?]]|].
    split; [|done]. intros e. split; [done|]. by intros [? _].
  - simpl. split; [split; [done|by intros (? & ? & ?)]|].
    split; [split; [by right|done]|].
    split; [|done]. intros e. split; [done|]. by intros [? _].
Qed.

(** The theorem at work after one upload. *)
Lemma exists_iff_regular_file_witness :
  (FileSystemStore.Exists blobs Background "a/1.txt" (put "a/1.txt" "hello" fresh_store)).1
  = (true, None).
Proof.
  assert (Hfull : FileSystemStore.fullPath blobs "a/1.txt" = Ok "/srv/blobs/a/1.txt")
    by (vm_compute; reflexivity).
  assert (Hnow : fault_now (put "a/1.txt" "hello" fresh_store) = None)
    by (vm_compute; reflexivity).
  assert (Hfile : os.lookup_path (nodes (put "a/1.txt" "hello" fresh_store))
                    "/srv/blobs/a/1.txt" = inr (File (bytes_of_string "hello") 3%nat))
    by (vm_compute; reflexivity).
  apply (proj1 (exists_iff_regular_file blobs Background "a/1.txt" _ _ Hfull Hnow)).
  eexists _, _. exact Hfile.
Defined.

(** X10.  A key that names a directory of the store, such as [a] once
    [a/1.txt] is stored.  [HeadObject] returns [ErrBlobNotFound] and
    [Exists] false, but [GetObject] returns a reader and no error, the read
    of which fails, and [Download] fails with [ErrBlobDownloadFailed], not
    with [ErrBlobNotFound]; [Delete] fails with [ErrBlobDeleteFailed] while
    the directory has entries, and removes the directory when it has
    none. *)
Theorem directory_key_behaviour f ctx key full w :
  FileSystemStore.fullPath f key = Ok full →
  quiet w → live ctx →
  os.lookup_path (nodes w) full = inr Directory →
  (FileSystemStore.HeadObject f ctx key w).1 = Err (Sentinel ErrBlobNotFound)
  ∧ (FileSystemStore.Exists f ctx key w).1 = (false, None)
  ∧ (∃ h w', FileSystemStore.GetObject f ctx key w = (Ok h, w')
             ∧ (os.ReadAll h w').1 = Err (PathError "read" full EISDIR))
  ∧ (∀ sink, (FileSystemStore.Download f ctx key sink w).1
             = (0, Some (FileSystemStore.download_failed (PathError "read" full EISDIR)),
                sink))
  ∧ (os.has_entries (nodes w) full = true →
       FileSystemStore.Delete f ctx key w
       = (Some (fmt.Errorf_w_v (Sentinel ErrBlobDeleteFailed)
                  (PathError "remove" full ENOTEMPTY)), log (CallRemove full) w))
  ∧ (os.has_entries (nodes w) full = false →
       FileSystemStore.Delete f ctx key w
       = (None, with_nodes (delete full (nodes w)) (log (CallRemove full) w))).
Proof.
  intros Hfull Hquiet Hlive Hdir.
  pose proof (quiet_now _ Hquiet) as Hnow.
  rewrite (HeadObject_lookup _ _ _ _ _ Hfull Hnow).
  rewrite (Exists_lookup _ _ _ _ _ Hfull Hnow). rewrite Hdir.
  split; [done|]. split; [done|]. split.
  { unfold FileSystemStore.GetObject. rewrite Hfull. run_io.
    unfold os.Open. rewrite Hnow, Hdir. run_io.
    eexists _, _. split; [done|].
    unfold os.ReadAll. simpl. by rewrite (quiet_now _ (quiet_log _ _ Hquiet)). }
  split.
  { intros sink. unfold FileSystemStore.Download. rewrite Hfull. run_io.
    unfold os.Open. rewrite Hnow, Hdir. run_io.
    rewrite (live_Err _ _ Hlive). unfold os.ReadAll. run_io.
    rewrite (quiet_now _ (quiet_log _ _ Hquiet)). by destruct (os.Close _ _). }
  split.
  - intros Hent. unfold FileSystemStore.Delete. rewrite Hfull. run_io.
    unfold os.Remove. by rewrite Hnow, Hdir, Hent.
  - intros Hent. unfold FileSystemStore.Delete. rewrite Hfull. run_io.
    unfold os.Remove. by rewrite Hnow, Hdir, Hent.
Qed.

(** The theorem at work on the key [a], once [a/1.txt] is stored. *)
Lemma directory_key_behaviour_witness :
  (FileSystemStore.HeadObject blobs Background "a" (put "a/1.txt" "hello" fresh_store)).1
  = Err (Sentinel ErrBlobNotFound)
  ∧ ∃ h w', FileSystemStore.GetObject blobs Background "a"
              (put "a/1.txt" "hello" fresh_store) = (Ok h, w')
            ∧ (os.ReadAll h w').1 = Err (PathError "read" "/srv/blobs/a" EISDIR).
Proof.
  assert (Hfull : FileSystemStore.fullPath blobs "a" = Ok "/srv/blobs/a")
    by (vm_compute; reflexivity).
  assert (Hfaults : faults (put "a/1.txt" "hello" fresh_store) = [])
    by (vm_compute; reflexivity).
  assert (Hquiet : quiet (put "a/1.txt" "hello" fresh_store)).
  { intros i _. rewrite Hfaults. reflexivity. }
  assert (Hlive : live Background) by reflexivity.
  assert (Hdir : os.lookup_path (nodes (put "a/1.txt" "hello" fresh_store))
                   "/srv/blobs/a" = inr Directory)
    by (vm_compute; reflexivity).
  pose proof (directory_key_behaviour blobs Background "a" _ _ Hfull Hquiet Hlive Hdir)
    as (H1 & _ & H3 & _).
  exact (conj H1 H3).
Defined.

Lemma Upload_write_frame tmp full body w res w' :
  FileSystemStore.Upload_write tmp full body w = (res, w') →
  ∀ q, q ≠ tmp → q ≠ full → nodes w' !! q = nodes w !! q.
Proof.
  unfold FileSystemStore.Upload_write. run_io. intros H q Hq1 Hq2.
  destruct (os.Write tmp (r_data body) w) as [[n e1] w1] eqn:HW.
  apply Write_inv in HW as (_ & Hf1 & _).
  destruct e1 as [e1|]; [simplify_eq; by apply Hf1|].
  destruct (r_err body) as [eb|]; [simplify_eq; by apply Hf1|].
  destruct (os.Close tmp w1) as [e2 w2] eqn:HC.
  apply Close_inv in HC as (_ & Hn2).
  destruct e2 as [e2|]; [simplify_eq; rewrite Hn2; by apply Hf1|].
  destruct (os.Rename tmp full w2) as [e3 w3] eqn:HR.
  apply Rename_inv in HR as (_ & HR).
  destruct e3 as [e3|]; simplify_eq.
  - rewrite HR, Hn2. by apply Hf1.
  - destruct HR as (c & t & _ & _ & _ & ->).
    rewrite lookup_insert_ne by done. rewrite lookup_delete_ne by done.
    rewrite Hn2. by apply Hf1.
Qed.

Lemma Upload_temp_frame tmp full body w res w' :
  FileSystemStore.Upload_temp tmp full body w = (res, w') →
  ∀ q, q ≠ tmp → q ≠ full → nodes w' !! q = nodes w !! q.
Proof.
  unfold FileSystemStore.Upload_temp. run_io. intros H q Hq1 Hq2.
  destruct (FileSystemStore.Upload_write tmp full body w) as [[res0 closed] w1] eqn:HW.
  destruct (FileSystemStore.Upload_cleanup tmp closed w1) as [u w2] eqn:HC.
  simplify_eq.
  apply Upload_cleanup_inv in HC as (_ & _ & Hq & _).
  rewrite Hq by done. by eapply Upload_write_frame.
Qed.

(** X11.  [Upload] leaves every other entry alone.  Whatever the input,
    the failures injected and the outcome, an entry of the file tree that
    existed before the call and is not at the full path of the key is there
    unchanged after it. *)
Theorem upload_keeps_other_objects f ctx input w res w' q n :
  FileSystemStore.Upload f ctx input w = (res, w') →
  nodes w !! q = Some n →
  FileSystemStore.fullPath f (UploadInput.Key input) ≠ Ok q →
  nodes w' !! q = Some n.
Proof.
  unfold FileSystemStore.Upload. intros H Hq Hne. revert H.
  destruct (decide (UploadInput.Key input = "")); [run_io; by intros [= <- <-]|].
  destruct (UploadInput.Body input) as [body|]; [|run_io; by intros [= <- <-]].
  destruct (FileSystemStore.fullPath f (UploadInput.Key input)) as [full|e];
    [|run_io; by intros [= <- <-]].
  run_io. intros H.
  destruct (os.MkdirAll (filepath.Dir full) w) as [e1 w1] eqn:HM.
  apply MkdirAll_inv in HM as (_ & _ & Hkeep & _).
  destruct e1 as [e1|]; [simplify_eq; by apply Hkeep|].
  destruct (ctx_Err ctx (clock w1)) as [ec|]; [simplify_eq; by apply Hkeep|].
  destruct (os.CreateTemp (filepath.Dir full) ".tmp-" w1) as [r2 w2] eqn:HT.
  apply CreateTemp_inv in HT as (_ & HT).
  destruct r2 as [tmp|e2].
  2:{ simplify_eq. rewrite HT. by apply Hkeep. }
  destruct HT as (Hfree & _ & Hn2 & _).
  assert (Hqt : q ≠ tmp).
  { intros ->. rewrite (Hkeep _ _ Hq) in Hfree. done. }
  rewrite (Upload_temp_frame _ _ _ _ _ _ H) by congruence.
  rewrite Hn2, lookup_insert_ne by done. by apply Hkeep.
Qed.

(** The theorem at work: a second upload beside the first. *)
Lemma upload_keeps_other_objects_witness :
  nodes (FileSystemStore.Upload blobs Background
           (upload_of "a/2.txt" (bytes_of_string "world"))
           (put "a/1.txt" "hello" fresh_store)).2 !! "/srv/blobs/a/1.txt"
  = Some (File (bytes_of_string "hello") 3%nat).
Proof.
  assert (Hq : nodes (put "a/1.txt" "hello" fresh_store) !! "/srv/blobs/a/1.txt"
               = Some (File (bytes_of_string "hello") 3%nat))
    by (vm_compute; reflexivity).
  assert (Hne : FileSystemStore.fullPath blobs
                  (UploadInput.Key (upload_of "a/2.txt" (bytes_of_string "world")))
                ≠ Ok "/srv/blobs/a/1.txt")
    by (vm_compute; discriminate).
  exact (upload_keeps_other_objects blobs Background
           (upload_of "a/2.txt" (bytes_of_string "world"))
           (put "a/1.txt" "hello" fresh_store) _ _
           "/srv/blobs/a/1.txt" (File (bytes_of_string "hello") 3%nat)
           (surjective_pairing _) Hq Hne).
Defined.

(* ===================================================================== *)
(** * Deletion and Copy on the local backend *)
(* ===================================================================== *)




(** ** What the calls of Copy do *)

Lemma Open_inv p w r w' :
  os.Open p w = (r, w') →
  ticks w w' ∧ nodes w' = nodes w ∧
  match r with
  | Ok h => h_path h = p ∧ os.lookup_path (nodes w) p = inr (h_node h)
  | Err _ => True
  end.
Proof.
  unfold os.Open. intros H.
  repeat case_match; simplify_eq; (split; [solve_ticks|]); done.
Qed.

Lemma ReadAll_inv h w r w' :
  os.ReadAll h w = (r, w') →
  ticks w w' ∧ nodes w' = nodes w ∧
  match r with
  | Ok data => ∃ t, h_node h = File data t
  | Err _ => True
  end.
Proof.
  unfold os.ReadAll. intros H.
  repeat case_match; simplify_eq; (split; [solve_ticks|]); (split; [done|]);
    try done; by eexists.
Qed.

Lemma Create_inv p w e w' :
  os.Create p w = (e, w') →
  ticks w w' ∧
  match e with
  | Some _ => nodes w' = nodes w
  | None => os.through (nodes w) (os.ancestors p) = None
            ∧ nodes w !! p ≠ Some Directory
            ∧ nodes w' = <[p := File [] (clock w)]> (nodes w)
  end.
Proof.
  unfold os.Create. intros H.
  repeat case_match; simplify_eq; (split; [solve_ticks|]); try done;
    (split; [done|]); (split; [|done]); congruence.
Qed.

Lemma lookup_path_node m p n : os.lookup_path m p = inr n → m !! p = Some n.
Proof.
  unfold os.lookup_path. intros H. repeat case_match; by simplify_eq.
Qed.

Lemma lookup_path_through m p n :
  os.lookup_path m p = inr n → os.through m (os.ancestors p) = None.
Proof.
  unfold os.lookup_path. intros H. repeat case_match; by simplify_eq.
Qed.

Lemma Copy_missing_source f ctx src dst sp dp w :
  FileSystemStore.fullPath f src = Ok sp →
  FileSystemStore.fullPath f dst = Ok dp →
  fault_now w = None →
  os.lookup_path (nodes w) sp = inl ENOENT →
  FileSystemStore.Copy f ctx src dst w
  = (Some (Sentinel ErrBlobNotFound), log (CallOpen sp) w).
Proof.
  intros Hs Hd Hnow Hm. unfold FileSystemStore.Copy.
  rewrite bool_decide_eq_false_2.
  2:{ intros [->| ->]; by eapply fullPath_nonempty. }
  rewrite Hs, Hd. run_io. unfold os.Open. by rewrite Hnow, Hm.
Qed.

Lemma truncated_read p h data t :
  h_node (os.truncated p h) = File data t →
  ∃ c, h_node h = File c t ∧ data = if decide (h_path h = p) then [] else c.
Proof.
  unfold os.truncated. case_decide; simpl.
  - destruct (h_node h) as [c t'|]; [|done]. intros [= <- <-]. by exists c.
  - intros ->. by eexists.
Qed.

Lemma truncated_path p h : h_path (os.truncated p h) = h_path h.
Proof. unfold os.truncated. by case_decide. Qed.

Lemma Copy_inv f ctx src dst sp dp w e w' :
  FileSystemStore.fullPath f src = Ok sp →
  FileSystemStore.fullPath f dst = Ok dp →
  FileSystemStore.Copy f ctx src dst w = (e, w') →
  (∀ q n, q ≠ dp → nodes w !! q = Some n → nodes w' !! q = Some n) ∧
  match e with
  | None => ∃ c t, os.lookup_path (nodes w) sp = inr (File c t)
                   ∧ ∃ t', os.lookup_path (nodes w') dp
                           = inr (File (if decide (sp = dp) then [] else c) t')
  | Some err =>
      HasPrefix (errors.Error err) "failed to copy file" = true →
      (∃ cause, err = fmt.Errorf_text_w "failed to copy file" cause)
      ∧ (∃ before, trace w' = before ++ [CallRemove dp; CallClose dp; CallClose sp]
                   ∧ (clock w ≤ length before)%nat)
      ∧ (no_failed_removal w w' → nodes w' !! dp = None)
  end.
Proof.
  intros Hs Hd. unfold FileSystemStore.Copy.
  rewrite bool_decide_eq_false_2.
  2:{ intros [->| ->]; by eapply fullPath_nonempty. }
  rewrite Hs, Hd. run_io. intros H.
  destruct (os.Open sp w) as [r0 w0] eqn:HO.
  apply Open_inv in HO as (T0 & Hn0 & Hr0).
  destruct r0 as [h|e0].
  2:{ destruct (errors.Is e0 ErrNotExist); simplify_eq;
        (split; [intros q n _; by rewrite Hn0|]); intros Hp; by vm_compute in Hp. }
  destruct Hr0 as [Hhp Hh].
  destruct (os.MkdirAll (filepath.Dir dp) w0) as [e1 w1] eqn:HM.
  apply MkdirAll_inv in HM as (T1 & _ & Hkeep1 & _).
  assert (Hkeep01 : ∀ q n, nodes w !! q = Some n → nodes w1 !! q = Some n).
  { intros q n Hq. apply Hkeep1. by rewrite Hn0. }
  destruct e1 as [e1|].
  { destruct (os.Close (h_path h) w1) as [ec wc] eqn:HC.
    apply Close_inv in HC as (_ & Hnc). simplify_eq.
    split; [intros q n _ Hq; rewrite Hnc; by apply Hkeep01|].
    intros Hp; by vm_compute in Hp. }
  destruct (os.Create dp w1) as [e2 w2] eqn:HCr.
  apply Create_inv in HCr as (T2 & HCr).
  destruct e2 as [e2|].
  { destruct (os.Close (h_path h) w2) as [ec wc] eqn:HC.
    apply Close_inv in HC as (_ & Hnc). simplify_eq.
    split; [intros q n _ Hq; rewrite Hnc, HCr; by apply Hkeep01|].
    intros Hp; by vm_compute in Hp. }
  destruct HCr as (Hthr & Hnd & Hn2).
  assert (Hdirs2 : ∀ d, nodes w1 !! d = Some Directory → nodes w2 !! d = Some Directory).
  { intros d Hd'. rewrite Hn2, lookup_insert_ne; [done|]. intros ->. congruence. }
  assert (Hdp2 : nodes w2 !! dp = Some (File [] (clock w1))).
  { by rewrite Hn2, lookup_insert_eq. }
  assert (Hframe2 : ∀ q n, q ≠ dp → nodes w !! q = Some n → nodes w2 !! q = Some n).
  { intros q n Hq Hin. rewrite Hn2, lookup_insert_ne by done. by apply Hkeep01. }
  assert (Hle2 : faults w2 = faults w ∧ (clock w ≤ clock w2)%nat).
  { destruct T0 as [F0 C0], T1 as [F1 C1], T2 as [F2 C2].
    split; [congruence|lia]. }
  (* a failed copy: the removal, then the two deferred closes *)
  assert (Hfailed : ∀ w4 wr er w6 e6 w7 e7 (cause : error),
            faults w4 = faults w → (clock w ≤ clock w4)%nat →
            os.through (nodes w4) (os.ancestors dp) = None →
            nodes w4 !! dp ≠ Some Directory →
            (∀ q n, q ≠ dp → nodes w !! q = Some n → nodes w4 !! q = Some n) →
            os.Remove dp w4 = (er, wr) →
            os.Close dp wr = (e6, w6) →
            os.Close (h_path h) w6 = (e7, w7) →
            (∀ q n, q ≠ dp → nodes w !! q = Some n → nodes w7 !! q = Some n)
            ∧ (∃ before,
                 trace w7 = before ++ [CallRemove dp; CallClose dp; CallClose sp]
                 ∧ (clock w ≤ length before)%nat)
            ∧ (no_failed_removal w w7 → nodes w7 !! dp = None)).
  { intros w4 wr er w6 e6 w7 e7 cause F4 C4 Hthr4 Hnd4 Hframe4 HRm HC6 HC7.
    pose proof (Remove_trace _ _ _ _ HRm) as Htr5.
    apply Remove_inv in HRm as (T5 & Hf5 & _ & Hgone).
    pose proof (Close_trace _ _ _ _ HC6) as Htr6.
    apply Close_inv in HC6 as (T6 & Hn6).
    pose proof (Close_trace _ _ _ _ HC7) as Htr7.
    apply Close_inv in HC7 as (T7 & Hn7).
    assert (Htrace : trace w7 = trace w4
                                 ++ [CallRemove dp; CallClose dp; CallClose sp]).
    { rewrite Htr7, Htr6, Htr5, Hhp. by rewrite <- !app_assoc. }
    split.
    { intros q n Hq Hin. rewrite Hn7, Hn6, Hf5 by done. by apply Hframe4. }
    split; [by exists (trace w4)|].
    intros Hno. rewrite Hn7, Hn6. apply Hgone; [|done|done].
    by eapply no_failed_removal_at. }
  destruct (os.ReadAll _ w2) as [d w3] eqn:HR.
  apply ReadAll_inv in HR as (T3 & Hn3 & Hd3).
  assert (Hle3 : faults w3 = faults w ∧ (clock w ≤ clock w3)%nat).
  { destruct Hle2, T3 as [F3 C3]. split; [congruence|lia]. }
  destruct d as [data|e3].
  - destruct Hd3 as [t Hnode].
    apply truncated_read in Hnode as (c & Hnode & Hdata).
    rewrite Hhp in Hdata.
    destruct (os.Write dp data w3) as [[n e4] w4] eqn:HW.
    apply Write_inv in HW as (T4 & Hf4 & Hw4).
    rewrite Hn3 in Hf4, Hw4.
    destruct (Hw4 _ _ Hdp2) as (sent & Hdp4 & Hsent). clear Hw4.
    destruct e4 as [e4|].
    + destruct (os.Remove dp w4) as [e5 w5] eqn:HRm.
      destruct (os.Close dp w5) as [e6 w6] eqn:HC6.
      destruct (os.Close (h_path h) w6) as [e7 w7] eqn:HC7. simplify_eq.
      destruct (Hfailed w4 w5 e5 w6 e6 w' e7 e4) as (Hfr & Hcalls & Hgone);
        try done.
      * destruct Hle3, T4 as [F4 C4]. congruence.
      * destruct Hle3, T4 as [F4 C4]. lia.
      * eapply through_keeps; [|exact Hthr]. intros d Hd'.
        rewrite Hf4 by (intros ->; congruence). by apply Hdirs2.
      * by rewrite Hdp4.
      * intros q x Hq Hin. rewrite Hf4 by done. by apply Hframe2.
      * split; [done|]. intros _. split; [by eexists|]. done.
    + specialize (Hsent eq_refl). subst sent.
      destruct (os.Close dp w4) as [e6 w6] eqn:HC6.
      apply Close_inv in HC6 as (T6 & Hn6).
      destruct (os.Close (h_path h) w6) as [e7 w7] eqn:HC7.
      apply Close_inv in HC7 as (T7 & Hn7). simplify_eq.
      split.
      { intros q x Hq Hin. rewrite Hn7, Hn6, Hf4 by done. by apply Hframe2. }
      exists c, t. split; [by rewrite Hh, Hnode|].
      exists (clock w3). unfold os.lookup_path.
      rewrite (through_keeps (nodes w1) (nodes w') (os.ancestors dp)); [| |done].
      * by rewrite Hn7, Hn6, Hdp4.
      * intros d Hd'. rewrite Hn7, Hn6.
        rewrite Hf4 by (intros ->; congruence). by apply Hdirs2.
  - destruct (os.Remove dp w3) as [e5 w5] eqn:HRm.
    destruct (os.Close dp w5) as [e6 w6] eqn:HC6.
    destruct (os.Close (h_path h) w6) as [e7 w7] eqn:HC7. simplify_eq.
    destruct (Hfailed w3 w5 e5 w6 e6 w' e7 e3) as (Hfr & Hcalls & Hgone);
      try done.
    + by destruct Hle3.
    + by destruct Hle3.
    + rewrite Hn3. by eapply through_keeps.
    + rewrite Hn3. by rewrite Hdp2.
    + intros q x Hq Hin. rewrite Hn3. by apply Hframe2.
    + split; [done|]. intros _. split; [by eexists|]. done.
Qed.

(** X15.  A [Copy] that returns no error has copied an object.  For two
    keys with different full paths: the source was a regular file, the
    destination is a regular file with the same content afterwards, the
    source and every other entry that existed are unchanged, and a
    [Download] of the destination key, with no call failing and a live
    context, returns the content of the source. *)
Theorem copy_duplicates_object f ctx ctx' src dst sp dp w w' :
  FileSystemStore.fullPath f src = Ok sp →
  FileSystemStore.fullPath f dst = Ok dp →
  sp ≠ dp →
  FileSystemStore.Copy f ctx src dst w = (None, w') →
  ∃ c t t',
    os.lookup_path (nodes w) sp = inr (File c t)
    ∧ os.lookup_path (nodes w') dp = inr (File c t')
    ∧ nodes w' !! sp = Some (File c t)
    ∧ (∀ q n, q ≠ dp → nodes w !! q = Some n → nodes w' !! q = Some n)
    ∧ (quiet w' → live ctx' →
       (FileSystemStore.Download f ctx' dst NewWriteAtBuffer w').1
       = (Z.of_nat (length c), None, {| buf := c; capacity := None |})).
Proof.
  intros Hs Hd Hne Hcopy.
  destruct (Copy_inv _ _ _ _ _ _ _ _ _ Hs Hd Hcopy) as (Hframe & c & t & Hsrc & t' & Hdst).
  rewrite decide_False in Hdst by done.
  exists c, t, t'. split; [done|]. split; [done|].
  split; [apply Hframe; [done|by eapply lookup_path_node]|].
  split; [done|]. intros Hquiet Hlive.
  rewrite (Download_stored f ctx' dst dp c t' w' Hd Hdst Hquiet Hlive NewWriteAtBuffer eq_refl).
  simpl. by rewrite write_at_fresh.
Qed.

(** The theorem at work: a copy, then a download of it. *)
Lemma copy_duplicates_object_witness :
  (FileSystemStore.Download blobs Background "b/2.txt" NewWriteAtBuffer
     (FileSystemStore.Copy blobs Background "a/1.txt" "b/2.txt"
        (put "a/1.txt" "hello" fresh_store)).2).1
  = (5, None, {| buf := bytes_of_string "hello"; capacity := None |}).
Proof.
  pose (run := FileSystemStore.Copy blobs Background "a/1.txt" "b/2.txt"
                 (put "a/1.txt" "hello" fresh_store)).
  assert (Hs : FileSystemStore.fullPath blobs "a/1.txt" = Ok "/srv/blobs/a/1.txt")
    by (vm_compute; reflexivity).
  assert (Hd : FileSystemStore.fullPath blobs "b/2.txt" = Ok "/srv/blobs/b/2.txt")
    by (vm_compute; reflexivity).
  assert (Hne : "/srv/blobs/a/1.txt" ≠ "/srv/blobs/b/2.txt") by discriminate.
  assert (Hout : run.1 = None) by (vm_compute; reflexivity).
  pose proof (eq_trans (surjective_pairing run) (f_equal (λ x, (x, run.2)) Hout))
    as Hcopy.
  assert (Hfaults : faults run.2 = []) by (vm_compute; reflexivity).
  assert (Hquiet : quiet run.2).
  { intros i _. rewrite Hfaults. reflexivity. }
  assert (Hsrc : os.lookup_path (nodes (put "a/1.txt" "hello" fresh_store))
                   "/srv/blobs/a/1.txt" = inr (File (bytes_of_string "hello") 3%nat))
    by (vm_compute; reflexivity).
  pose proof (copy_duplicates_object blobs Background Background "a/1.txt" "b/2.txt"
              _ _ _ _ Hs Hd Hne Hcopy) as (c & t & t' & Hsrc' & _ & _ & _ & Hdown).
  rewrite Hsrc in Hsrc'.
  injection Hsrc' as <- <-.
  exact (Hdown Hquiet eq_refl).
Defined.

(** X16.  A [Copy] that fails while copying leaves nothing at the
    destination.  When [Copy] returns the "failed to copy file" error,
    the calls it has made end with the removal of the destination path and
    the two deferred closes; and unless a failure was injected into a
    removal, no entry is at the destination path afterwards, also when an
    object was stored there before the call, and also when the destination
    is the source itself; all other entries are unchanged.  Unlike
    [Upload], [Copy] writes into the destination file itself. *)
Theorem failed_copy_removes_destination f ctx src dst sp dp w e w' :
  FileSystemStore.fullPath f src = Ok sp →
  FileSystemStore.fullPath f dst = Ok dp →
  FileSystemStore.Copy f ctx src dst w = (Some e, w') →
  HasPrefix (errors.Error e) "failed to copy file" = true →
  (∃ cause, e = fmt.Errorf_text_w "failed to copy file" cause)
  ∧ (∃ before, trace w' = before ++ [CallRemove dp; CallClose dp; CallClose sp]
               ∧ (clock w ≤ length before)%nat)
  ∧ (∀ q n, q ≠ dp → nodes w !! q = Some n → nodes w' !! q = Some n)
  ∧ (no_failed_removal w w' → content_at w' dp = None ∧ nodes w' !! dp = None).
Proof.
  intros Hs Hd Hcopy Hmsg.
  destruct (Copy_inv _ _ _ _ _ _ _ _ _ Hs Hd Hcopy) as (Hframe & Herr).
  destruct (Herr Hmsg) as (Hcause & Hcalls & Hgone).
  split; [done|]. split; [done|]. split; [done|].
  intros Hno. specialize (Hgone Hno).
  split; [unfold content_at; by rewrite Hgone|done].
Qed.

(** The theorem at work: the object that was stored under [b.txt] is
    gone after the failed copy onto it. *)
Lemma failed_copy_removes_destination_witness :
  content_at two_files_full_disk "/srv/blobs/b.txt" = Some (bytes_of_string "old")
  ∧ content_at (FileSystemStore.Copy blobs Background "a/1.txt" "b.txt"
                  two_files_full_disk).2 "/srv/blobs/b.txt" = None.
Proof.
  pose (run := FileSystemStore.Copy blobs Background "a/1.txt" "b.txt"
                 two_files_full_disk).
  assert (Hs : FileSystemStore.fullPath blobs "a/1.txt" = Ok "/srv/blobs/a/1.txt")
    by (vm_compute; reflexivity).
  assert (Hd : FileSystemStore.fullPath blobs "b.txt" = Ok "/srv/blobs/b.txt")
    by (vm_compute; reflexivity).
  assert (Hout : run.1 = Some (fmt.Errorf_text_w "failed to copy file"
                                 (PathError "write" "/srv/blobs/b.txt" ENOSPC)))
    by (vm_compute; reflexivity).
  pose proof (eq_trans (surjective_pairing run) (f_equal (λ x, (x, run.2)) Hout))
    as Hcopy.
  assert (Hmsg : HasPrefix (errors.Error (fmt.Errorf_text_w "failed to copy file"
                    (PathError "write" "/srv/blobs/b.txt" ENOSPC)))
                   "failed to copy file" = true)
    by (vm_compute; reflexivity).
  assert (Hno : no_failed_removal two_files_full_disk run.2).
  { apply removals_unfailed_spec. vm_compute. reflexivity. }
  split; [vm_compute; reflexivity|].
  exact (proj1 (proj2 (proj2 (proj2
           (failed_copy_removes_destination blobs Background "a/1.txt" "b.txt"
              _ _ _ _ _ Hs Hd Hcopy Hmsg))) Hno)).
Defined.

(** X25.  A [Copy] of an object onto itself empties it.  When the two keys
    have the same full path, [os.Create] truncates the very file that
    [os.Open] has just opened, and nothing is left for the copy to read:
    when such a [Copy] returns no error, the path held an object before and
    holds an object of no bytes afterwards, every other entry is unchanged,
    and a [Download] of the key, with no call failing and a live context,
    gives 0 bytes. *)
Theorem self_copy_empties_object f ctx ctx' src dst full w w' :
  FileSystemStore.fullPath f src = Ok full →
  FileSystemStore.fullPath f dst = Ok full →
  FileSystemStore.Copy f ctx src dst w = (None, w') →
  ∃ c t t',
    os.lookup_path (nodes w) full = inr (File c t)
    ∧ os.lookup_path (nodes w') full = inr (File [] t')
    ∧ content_at w' full = Some []
    ∧ (∀ q n, q ≠ full → nodes w !! q = Some n → nodes w' !! q = Some n)
    ∧ (quiet w' → live ctx' →
       (FileSystemStore.Download f ctx' dst NewWriteAtBuffer w').1
       = (0, None, {| buf := []; capacity := None |})).
Proof.
  intros Hs Hd Hcopy.
  destruct (Copy_inv _ _ _ _ _ _ _ _ _ Hs Hd Hcopy) as (Hframe & c & t & Hsrc & t' & Hdst).
  rewrite decide_True in Hdst by done.
  exists c, t, t'. split; [done|]. split; [done|].
  split; [by eapply lookup_path_content|].
  split; [done|]. intros Hquiet Hlive.
  by rewrite (Download_stored f ctx' dst full [] t' w' Hd Hdst Hquiet Hlive
                NewWriteAtBuffer eq_refl).
Qed.

(** The theorem at work: ["hello"] under [a/1.txt], copied onto itself
    under another spelling of the key, reads as nothing. *)
Lemma self_copy_empties_object_witness :
  content_at (put "a/1.txt" "hello" fresh_store) "/srv/blobs/a/1.txt"
  = Some (bytes_of_string "hello")
  ∧ (FileSystemStore.Copy blobs Background "a/1.txt" "a//1.txt"
       (put "a/1.txt" "hello" fresh_store)).1 = None
  ∧ (FileSystemStore.Download blobs Background "a//1.txt" NewWriteAtBuffer
       (FileSystemStore.Copy blobs Background "a/1.txt" "a//1.txt"
          (put "a/1.txt" "hello" fresh_store)).2).1
    = (0, None, {| buf := []; capacity := None |}).
Proof.
  pose (run := FileSystemStore.Copy blobs Background "a/1.txt" "a//1.txt"
                 (put "a/1.txt" "hello" fresh_store)).
  assert (Hs : FileSystemStore.fullPath blobs "a/1.txt" = Ok "/srv/blobs/a/1.txt")
    by (vm_compute; reflexivity).
  assert (Hd : FileSystemStore.fullPath blobs "a//1.txt" = Ok "/srv/blobs/a/1.txt")
    by (vm_compute; reflexivity).
  assert (Hout : run.1 = None) by (vm_compute; reflexivity).
  pose proof (eq_trans (surjective_pairing run) (f_equal (λ x, (x, run.2)) Hout))
    as Hcopy.
  assert (Hfaults : faults run.2 = []) by (vm_compute; reflexivity).
  assert (Hquiet : quiet run.2).
  { intros i _. rewrite Hfaults. reflexivity. }
  split; [vm_compute; reflexivity|]. split; [exact Hout|].
  pose proof (self_copy_empties_object blobs Background Background "a/1.txt" "a//1.txt"
              _ _ _ Hs Hd Hcopy) as (c & t & t' & _ & _ & _ & _ & Hdown).
  exact (Hdown Hquiet eq_refl).
Defined.

(** X8.  A key under which nothing is stored.  With no failure of the
    call, [Download], [GetObject] and [HeadObject] return [ErrBlobNotFound]
    itself, [Download] leaves the sink as it was and reports 0 bytes,
    [Exists] returns false and no error, [Copy] from that key returns
    [ErrBlobNotFound] without creating anything; none of them changes the
    file tree. *)
Theorem missing_key_is_not_found f ctx key full w :
  FileSystemStore.fullPath f key = Ok full →
  fault_now w = None →
  os.lookup_path (nodes w) full = inl ENOENT →
  (∀ sink, (FileSystemStore.Download f ctx key sink w).1
           = (0, Some (Sentinel ErrBlobNotFound), sink))
  ∧ (FileSystemStore.GetObject f ctx key w).1 = Err (Sentinel ErrBlobNotFound)
  ∧ (FileSystemStore.HeadObject f ctx key w).1 = Err (Sentinel ErrBlobNotFound)
  ∧ (FileSystemStore.Exists f ctx key w).1 = (false, None)
  ∧ (∀ dst dp, FileSystemStore.fullPath f dst = Ok dp →
               (FileSystemStore.Copy f ctx key dst w).1 = Some (Sentinel ErrBlobNotFound)
               ∧ nodes (FileSystemStore.Copy f ctx key dst w).2 = nodes w)
  ∧ (∀ sink, nodes (FileSystemStore.Download f ctx key sink w).2 = nodes w)
  ∧ nodes (FileSystemStore.GetObject f ctx key w).2 = nodes w
  ∧ nodes (FileSystemStore.HeadObject f ctx key w).2 = nodes w
  ∧ nodes (FileSystemStore.Exists f ctx key w).2 = nodes w.
Proof.
  intros Hfull Hnow Hm.
  rewrite (GetObject_missing _ _ _ _ _ Hfull Hnow Hm).
  rewrite (HeadObject_lookup _ _ _ _ _ Hfull Hnow).
  rewrite (Exists_lookup _ _ _ _ _ Hfull Hnow). rewrite Hm.
  split; [intros sink; by rewrite (Download_missing _ _ _ _ _ Hfull Hnow _ Hm)|].
  split; [done|]. split; [done|]. split; [done|].
  split; [intros dst dp Hd; by rewrite (Copy_missing_source _ _ _ _ _ _ _ Hfull Hd Hnow Hm)|].
  split; [intros sink; by rewrite (Download_missing _ _ _ _ _ Hfull Hnow _ Hm)|].
  done.
Qed.

(** The theorem at work on the store just made. *)
Lemma missing_key_is_not_found_witness :
  (FileSystemStore.HeadObject blobs Background "nope.txt" fresh_store).1
  = Err (Sentinel ErrBlobNotFound).
Proof.
  assert (Hfull : FileSystemStore.fullPath blobs "nope.txt" = Ok "/srv/blobs/nope.txt")
    by (vm_compute; reflexivity).
  assert (Hnow : fault_now fresh_store = None) by (vm_compute; reflexivity).
  assert (Hm : os.lookup_path (nodes fresh_store) "/srv/blobs/nope.txt" = inl ENOENT)
    by (vm_compute; reflexivity).
  exact (proj1 (proj2 (proj2
    (missing_key_is_not_found blobs Background "nope.txt" _ fresh_store Hfull Hnow Hm)))).
Defined.

(* ===================================================================== *)
(** * The constructor of the local backend *)
(* ===================================================================== *)

Lemma Clean_clean_absolute p : filepath.IsAbs p = true → clean_absolute (filepath.Clean p).
Proof.
  intros Habs. split; [|apply Clean_idempotent].
  assert (Hp : p ≠ "") by (by intros ->).
  destruct (Clean_shape p Hp) as (k & names & _ & Hshape).
  rewrite Habs in Hshape. by rewrite Hshape.
Qed.

Lemma IsAbs_app a s : filepath.IsAbs a = true → filepath.IsAbs (a +:+ s) = true.
Proof. by destruct a. Qed.

Lemma Abs_clean_absolute w p :
  filepath.IsAbs (cwd w) = true → clean_absolute (os.Abs w p).
Proof.
  intros Hcwd. unfold os.Abs.
  destruct (filepath.IsAbs p) eqn:Hp; [by apply Clean_clean_absolute|].
  unfold filepath.Join.
  rewrite decide_False by (intros Heq; by rewrite Heq in Hcwd).
  destruct (decide (p = "")); apply Clean_clean_absolute; [done|].
  by apply IsAbs_app.
Qed.

Lemma mkdir_chain_ok dirs : ∀ m m',
  os.mkdir_chain dirs m = (None, m') → ∀ d, d ∈ dirs → m' !! d = Some Directory.
Proof.
  induction dirs as [|x r IH]; simpl; intros m m' H d Hd.
  { by apply elem_of_nil in Hd. }
  destruct (m !! x) as [[]|] eqn:Hx; [done| |].
  - apply elem_of_cons in Hd as [->|Hd]; [|by eapply IH].
    by eapply mkdir_chain_keeps.
  - apply elem_of_cons in Hd as [->|Hd]; [|by eapply IH].
    eapply mkdir_chain_keeps; [done|]. by rewrite lookup_insert_eq.
Qed.

Lemma through_directories m dirs :
  (∀ d, d ∈ dirs → m !! d = Some Directory) → os.through m dirs = None.
Proof.
  induction dirs as [|x r IH]; simpl; intros H; [done|].
  rewrite (H x) by by left. apply IH. intros d Hd. apply H. by right.
Qed.

Lemma MkdirAll_ok p w w' :
  os.MkdirAll p w = (None, w') → os.lookup_path (nodes w') p = inr Directory.
Proof.
  unfold os.MkdirAll. intros H.
  destruct (fault_now w); [done|].
  destruct (os.mkdir_chain _ _) as [e m] eqn:Hm.
  destruct e; simplify_eq. simpl.
  pose proof (mkdir_chain_ok _ _ _ Hm) as Hdirs.
  unfold os.lookup_path.
  rewrite through_directories.
  - rewrite (Hdirs p); [done|]. apply elem_of_app. right. by left.
  - intros d Hd. apply Hdirs. apply elem_of_app. by left.
Qed.

(** X6.  A store made by [NewFileSystemStore] with the default option
    [createBasePath] is ready for use: the base path given was not empty,
    the store's base path is its absolute, clean form, a directory is there
    after the call, nothing that existed before has changed, and a [List]
    on the new store, with no call failing and a live context, returns the
    listing of the stored keys. *)
Theorem new_store_is_ready base w f w' :
  filepath.IsAbs (cwd w) = true →
  FileSystemStore.NewFileSystemStore base true w = (Ok f, w') →
  base ≠ ""
  ∧ basePath f = os.Abs w base
  ∧ clean_absolute (basePath f)
  ∧ os.lookup_path (nodes w') (basePath f) = inr Directory
  ∧ (∀ q n, nodes w !! q = Some n → nodes w' !! q = Some n)
  ∧ (∀ ctx input, quiet w' → live ctx →
       page_of (FileSystemStore.List f ctx input w').1
       = Some (List_spec (stored_keys f w') input)).
Proof.
  intros Hcwd. unfold FileSystemStore.NewFileSystemStore.
  destruct (decide (base = "")) as [|Hbase]; [done|].
  destruct (os.MkdirAll (os.Abs w base) w) as [e w1] eqn:HM.
  destruct e as [e|]; [done|]. intros [= <- <-]. simpl.
  pose proof (MkdirAll_ok _ _ _ HM) as Hroot.
  apply MkdirAll_inv in HM as (_ & _ & Hkeep & _).
  split; [done|]. split; [done|]. split; [by apply Abs_clean_absolute|].
  split; [done|]. split; [done|].
  intros ctx input Hquiet Hlive.
  destruct (List_refines_spec {| basePath := os.Abs w base |} ctx input w1 Hquiet Hlive Hroot)
    as (out & w2 & -> & <-).
  done.
Qed.

(** The theorem at work on the store made on the fresh disk. *)
Lemma new_store_is_ready_witness :
  os.lookup_path (nodes fresh_store) "/srv/blobs" = inr Directory.
Proof.
  assert (Hcwd : filepath.IsAbs (cwd fresh_disk) = true) by reflexivity.
  assert (Hnew : FileSystemStore.NewFileSystemStore "/srv/blobs" true fresh_disk
                 = (Ok blobs, fresh_store)) by (vm_compute; reflexivity).
  exact (proj1 (proj2 (proj2 (proj2
    (new_store_is_ready "/srv/blobs" fresh_disk blobs fresh_store Hcwd Hnew))))).
Defined.

(** X7.  What [NewFileSystemStore] refuses.  An empty base path is refused
    before any call is made.  With [WithCreateBasePath(false)] and no
    failure of the call, the file tree is left as it is, and a store is
    returned exactly when the absolute base path is a directory: a missing
    path gives the "does not exist" error around the error of [os.Stat], a
    regular file the "not a directory" error. *)
Theorem new_store_checks_base base w :
  (∀ create, FileSystemStore.NewFileSystemStore "" create w
             = (Err (fmt.Errorf_text "base path is required"), w))
  ∧ (base ≠ "" → fault_now w = None →
     nodes (FileSystemStore.NewFileSystemStore base false w).2 = nodes w
     ∧ (FileSystemStore.NewFileSystemStore base false w).1
       = match os.lookup_path (nodes w) (os.Abs w base) with
         | inr Directory => Ok {| basePath := os.Abs w base |}
         | inr (File _ _) => Err (fmt.Errorf_text "base path is not a directory")
         | inl e => Err (fmt.Errorf_text_w "base path does not exist"
                           (PathError "stat" (os.Abs w base) e))
         end).
Proof.
  split; [done|]. intros Hbase Hnow.
  unfold FileSystemStore.NewFileSystemStore. rewrite decide_False by done.
  unfold os.Stat. rewrite Hnow.
  by destruct (os.lookup_path (nodes w) (os.Abs w base)) as [e|[]].
Qed.

(** The theorem at work on the fresh disk, where the base path is missing. *)
Lemma new_store_checks_base_witness :
  (FileSystemStore.NewFileSystemStore "/srv/blobs" false fresh_disk).1
  = Err (fmt.Errorf_text_w "base path does not exist"
           (PathError "stat" "/srv/blobs" ENOENT)).
Proof.
  assert (Hbase : "/srv/blobs" ≠ "") by discriminate.
  assert (Hnow : fault_now fresh_disk = None) by reflexivity.
  exact (proj2 (proj2 (new_store_checks_base "/srv/blobs" fresh_disk) Hbase Hnow)).
Defined.

(* ===================================================================== *)
(** * Pages of List that follow one another *)
(* ===================================================================== *)

Lemma List_walk_frame f ctx prefix startAfter entries : ∀ objects w,
  later w (FileSystemStore.List_walk f ctx prefix startAfter entries objects w).2
  ∧ nodes (FileSystemStore.List_walk f ctx prefix startAfter entries objects w).2 = nodes w.
Proof.
  induction entries as [|[path d] entries IH]; intros objects w.
  { split; [apply later_refl|done]. }
  cbn [FileSystemStore.List_walk].
  destruct d as [c t|]; [|by apply IH].
  run_io. destruct (ctx_Err ctx (clock w)); [split; [apply later_refl|done]|].
  destruct (os.Rel (basePath f) path) as [key|]; [|by apply IH].
  destruct (_ && _); [by apply IH|].
  destruct (_ && _); [by apply IH|].
  unfold os.Info. destruct (fault_now w); run_io.
  - destruct (IH objects (log (CallInfo path) w)) as [IH1 IH2].
    split; [|by rewrite IH2].
    eapply later_trans; [|exact IH1]. apply ticks_later. solve_ticks.
  - match goal with
    | |- context [FileSystemStore.List_walk _ _ _ _ _ ?o ?w1] =>
        destruct (IH o w1) as [IH1 IH2]
    end.
    split; [|by rewrite IH2].
    eapply later_trans; [|exact IH1]. apply ticks_later. solve_ticks.
Qed.

Lemma List_frame f ctx input w :
  later w (FileSystemStore.List f ctx input w).2
  ∧ nodes (FileSystemStore.List f ctx input w).2 = nodes w.
Proof.
  unfold FileSystemStore.List, FileSystemStore.List_collect. run_io.
  unfold os.Stat.
  assert (L : later w (log (CallStat (basePath f)) w)).
  { apply ticks_later. solve_ticks. }
  destruct (fault_now w); run_io.
  { first [done | by destruct (_ && _)]. }
  destruct (os.lookup_path (nodes w) (basePath f)); run_io.
  { first [done | by destruct (_ && _)]. }
  unfold os.ReadTree. cbn [nodes log].
  match goal with
  | |- context [FileSystemStore.List_walk ?f ?c ?p ?a ?es ?o ?w1] =>
      pose proof (List_walk_frame f c p a es o w1) as [W1 W2];
      destruct (FileSystemStore.List_walk f c p a es o w1) as [[objs err] w2]
  end.
  simpl in W1, W2.
  assert (L2 : later w w2) by by eapply later_trans.
  destruct err as [e|]; [destruct (_ && _)|]; done.
Qed.

(** ** Sorted keys and the keys after a marker *)

Lemma sort_by_sorted_id {A} (le : A → A → bool) l :
  Sorted (λ a b, le a b = true) l → sort_by le l = l.
Proof.
  induction 1 as [|x l Hs IH Hhd]; [done|].
  cbn [sort_by]. rewrite IH. destruct Hhd as [|y l' Hxy]; [done|].
  cbn [insert_by]. by rewrite Hxy.
Qed.

Lemma StronglySorted_filter {A} (R : relation A) (P : A → Prop)
    `{∀ x, Decision (P x)} l :
  StronglySorted R l → StronglySorted R (filter P l).
Proof.
  induction 1 as [|x l Hs IH Hall]; [constructor|].
  rewrite filter_cons. case_decide; [|done].
  constructor; [done|].
  apply Forall_forall. intros y Hy. apply list_elem_of_filter in Hy as [_ Hy].
  rewrite Forall_forall in Hall. by apply Hall.
Qed.

Lemma sort_keys_filter (P : string → Prop) `{∀ x, Decision (P x)} l :
  sort_by str_le (filter P l) = filter P (sort_by str_le l).
Proof.
  apply (Sorted_unique (≤)%string); [apply sort_keys_sorted| |].
  - apply StronglySorted_Sorted, StronglySorted_filter.
    apply Sorted_StronglySorted; [apply _|apply sort_keys_sorted].
  - by rewrite !sort_by_perm.
Qed.

Lemma filter_none {A} (P : A → Prop) `{∀ x, Decision (P x)} (l : list A) :
  (∀ x, x ∈ l → ¬ P x) → filter P l = [].
Proof.
  induction l as [|x l IH]; intros Hl; [done|].
  rewrite filter_cons_False by (apply Hl; by left).
  apply IH. intros y Hy. apply Hl. by right.
Qed.

Lemma filter_all {A} (P : A → Prop) `{∀ x, Decision (P x)} (l : list A) :
  (∀ x, x ∈ l → P x) → filter P l = l.
Proof.
  induction l as [|x l IH]; intros Hl; [done|].
  rewrite filter_cons_True by (apply Hl; by left).
  f_equal. apply IH. intros y Hy. apply Hl. by right.
Qed.

Lemma str_lt_lt a b : str_lt a b = true ↔ (a ≤ b)%string ∧ a ≠ b.
Proof.
  rewrite str_lt_not_le, negb_true_iff. split.
  - intros Hnle. split.
    + destruct (str_le_total a b) as [H|H]; [by apply str_le_le|congruence].
    + intros ->. destruct (str_le_total b b); congruence.
  - intros [Hle Hne]. destruct (str_le b a) eqn:Hba; [|done].
    exfalso. apply Hne. apply str_le_le in Hba.
    by apply (anti_symm (≤)%string).
Qed.

(** In a sorted list without repetitions, the keys after the last key of
    an initial part are the rest of the list. *)
Lemma filter_after_marker page rest marker :
  StronglySorted (≤)%string (page ++ rest) → NoDup (page ++ rest) →
  last page = Some marker →
  filter (λ k, str_lt marker k = true) (page ++ rest) = rest.
Proof.
  intros Hsorted Hnodup Hlast.
  apply last_Some in Hlast as [init ->].
  rewrite filter_app.
  rewrite filter_none, filter_all; [done| |].
  - intros k Hk. apply str_lt_lt. split.
    + eapply StronglySorted_app_1_elem_of; [exact Hsorted| |done].
      apply elem_of_app. right. by left.
    + intros <-. apply NoDup_app in Hnodup as (_ & Hdisj & _).
      apply (Hdisj marker); [|done]. apply elem_of_app. right. by left.
  - intros k Hk Hlt. apply str_lt_lt in Hlt as [Hle Hne]. apply Hne.
    apply elem_of_app in Hk as [Hk|Hk%list_elem_of_singleton]; [|done].
    apply (anti_symm (≤)%string); [done|].
    apply StronglySorted_app_1_l in Hsorted.
    eapply StronglySorted_app_1_elem_of; [exact Hsorted|done|by left].
Qed.

Lemma str_le_trans_lt a b c : str_lt a b = true → str_lt b c = true → str_lt a c = true.
Proof.
  rewrite !str_lt_lt. intros [H1 N1] [H2 N2]. split; [by etrans|].
  intros ->. apply N1. by apply (anti_symm (≤)%string).
Qed.

(** The page after the marker of a page is made of the keys that follow
    it in the sorted list of the keys that match. *)
Lemma List_spec_next keys input :
  NoDup keys →
  let all := sort_by str_le (filter (λ k, listed input k = true) keys) in
  let n := max_keys input in
  (List_spec keys input).1.1 = take n all
  ∧ ((List_spec keys input).2 ≠ "" →
     List_spec keys (next_page input (List_spec keys input).2)
     = (take n (drop n all), bool_decide (n < length (drop n all))%nat,
        default "" (last (take n (drop n all))))).
Proof.
  intros Hnodup all n. split; [done|].
  assert (Hm : (List_spec keys input).2 = default "" (last (take n all))) by done.
  rewrite Hm. clear Hm. intros Hmarker.
  destruct (last (take n all)) as [marker|] eqn:Hlast; [|done].
  change (default "" (Some marker)) with marker in *.
  assert (Hin : marker ∈ all).
  { apply last_Some in Hlast as [init Hinit].
    rewrite <- (take_drop n all), Hinit. rewrite !elem_of_app.
    left. right. by left. }
  assert (Hlisted : listed input marker = true).
  { unfold all in Hin. rewrite sort_by_perm in Hin.
    by apply list_elem_of_filter in Hin as [? _]. }
  assert (Hfilter : filter (λ k, listed (next_page input marker) k = true) keys
                    = filter (λ k, str_lt marker k = true)
                        (filter (λ k, listed input k = true) keys)).
  { rewrite list_filter_filter. apply list_filter_iff. intros k.
    unfold listed in *. cbn [next_page ListInput.Prefix ListInput.StartAfter].
    rewrite (bool_decide_eq_false_2 (marker = "")) by done.
    rewrite !andb_true_iff, !orb_true_iff in *. cbn [orb].
    split.
    - intros [Hp Hlt]. destruct Hlt as [?|Hlt]; [done|].
      split; [done|]. split; [done|].
      destruct Hlisted as [_ [Ha|Ha]]; [by left|right].
      by eapply str_le_trans_lt.
    - intros [Hlt [Hp _]]. split; [done|by right]. }
  assert (Hall' : sort_by str_le (filter (λ k, listed (next_page input marker) k = true) keys)
                  = drop n all).
  { rewrite Hfilter, sort_keys_filter. fold all.
    rewrite <- (take_drop n all) at 1.
    apply filter_after_marker; [| |done].
    - rewrite take_drop. apply Sorted_StronglySorted; [apply _|apply sort_keys_sorted].
    - rewrite take_drop. unfold all. rewrite sort_by_perm. by apply NoDup_filter. }
  unfold List_spec. rewrite Hall'. done.
Qed.

Lemma strip_prefix_Some pre : ∀ s k, os.strip_prefix pre s = Some k → s = pre +:+ k.
Proof.
  induction pre as [|a pre IH]; intros s k; simpl; [by intros [= ->]|].
  destruct s as [|b s]; [done|].
  destruct (Ascii.eqb a b) eqn:Hab; [|done].
  apply Ascii.eqb_eq in Hab as ->. intros H%IH. by rewrite H.
Qed.

Lemma Rel_inj base p1 p2 k :
  p1 ≠ base → p2 ≠ base →
  os.Rel base p1 = Some k → os.Rel base p2 = Some k → p1 = p2.
Proof.
  unfold os.Rel. intros H1 H2. rewrite !decide_False by done.
  intros E1%strip_prefix_Some E2%strip_prefix_Some. congruence.
Qed.

Lemma NoDup_omap_inj {A B} (g : A → option B) (l : list A) :
  NoDup l →
  (∀ x y k, x ∈ l → y ∈ l → g x = Some k → g y = Some k → x = y) →
  NoDup (omap g l).
Proof.
  induction 1 as [|x l Hx Hl IH]; intros Hinj; [constructor|].
  csimpl. destruct (g x) as [k|] eqn:Hg.
  - constructor.
    + intros Hin. apply list_elem_of_omap in Hin as (y & Hy & Hgy).
      apply Hx. rewrite (Hinj x y k); [done|by left|by right|done|done].
    + apply IH. intros a b c Ha Hb. apply Hinj; by right.
  - apply IH. intros a b c Ha Hb. apply Hinj; by right.
Qed.

(** No key is stored twice. *)
Lemma stored_keys_NoDup f w :
  nodes w !! basePath f = Some Directory → NoDup (stored_keys f w).
Proof.
  intros Hroot. unfold stored_keys. apply NoDup_omap_inj; [apply NoDup_map_to_list|].
  intros [p1 n1] [p2 n2] k H1 H2.
  apply elem_of_map_to_list in H1, H2.
  unfold key_of. cbn [fst snd]. unfold filepath.ToSlash.
  destruct n1 as [c1 t1|]; [|done]. destruct n2 as [c2 t2|]; [|done].
  rewrite !fmap_Some. intros (k1 & R1 & ->) (k2 & R2 & Hk). cbn [id] in *.
  assert (p1 = p2) as ->.
  { eapply (Rel_inj (basePath f)); [| |exact R1|by rewrite Hk].
    - intros ->. congruence.
    - intros ->. congruence. }
  congruence.
Qed.

(** X17.  Paging through a listing.  With no call failing, a live context
    and the root in place: a page of [List] holds the first [max_keys] of
    the matching keys in ascending order, and when its marker is not empty,
    the [List] that gives this marker as [StartAfter] returns exactly the
    [max_keys] keys that follow, truncated exactly when more keys remain:
    no key is skipped and none comes twice. *)
Theorem list_next_page_continues f ctx input w page truncated marker :
  quiet w → live ctx →
  os.lookup_path (nodes w) (basePath f) = inr Directory →
  page_of (FileSystemStore.List f ctx input w).1 = Some (page, truncated, marker) →
  marker ≠ "" →
  let all := sort_by str_le (filter (λ k, listed input k = true) (stored_keys f w)) in
  let n := max_keys input in
  page = take n all
  ∧ page_of (FileSystemStore.List f ctx (next_page input marker)
               (FileSystemStore.List f ctx input w).2).1
    = Some (take n (drop n all), bool_decide (n < length (drop n all))%nat,
            default "" (last (take n (drop n all)))).
Proof.
  intros Hquiet Hlive Hroot Hpage Hmarker all n.
  pose proof (List_frame f ctx input w) as [Hlater Hnodes].
  destruct (List_refines_spec f ctx input w Hquiet Hlive Hroot)
    as (out & w1 & Hlist & Hspec).
  rewrite Hlist in Hpage, Hlater, Hnodes |- *. cbn [fst snd page_of] in *.
  rewrite Hspec in Hpage.
  assert (Hnodup : NoDup (stored_keys f w)).
  { apply stored_keys_NoDup. by eapply lookup_path_node. }
  destruct (List_spec_next (stored_keys f w) input Hnodup) as [Hfirst Hnext].
  assert (Hpage' : List_spec (stored_keys f w) input = (page, truncated, marker))
    by congruence.
  rewrite Hpage' in Hfirst, Hnext.
  cbn [fst snd] in Hfirst, Hnext.
  split; [done|].
  assert (Hkeys : stored_keys f w1 = stored_keys f w).
  { unfold stored_keys. by rewrite Hnodes. }
  destruct (List_refines_spec f ctx (next_page input marker) w1)
    as (out2 & w2 & -> & Hspec2); [by eapply quiet_later|done|by rewrite Hnodes|].
  cbn [fst page_of]. rewrite Hspec2, Hkeys. f_equal. by apply Hnext.
Qed.

(** The theorem at work on the five objects, two keys a page. *)
Lemma list_next_page_continues_witness :
  page_of (FileSystemStore.List blobs Background
             (next_page {| ListInput.Prefix := "a/"; ListInput.MaxKeys := 2;
                           ListInput.StartAfter := "" |} "a/2")
             (FileSystemStore.List blobs Background
                {| ListInput.Prefix := "a/"; ListInput.MaxKeys := 2;
                   ListInput.StartAfter := "" |} five_objects).2).1
  = Some (["a/3"; "a/4"], true, "a/4").
Proof.
  assert (Hfaults : faults five_objects = []) by (vm_compute; reflexivity).
  assert (Hquiet : quiet five_objects).
  { intros i _. rewrite Hfaults. reflexivity. }
  assert (Hroot : os.lookup_path (nodes five_objects) (basePath blobs) = inr Directory)
    by (vm_compute; reflexivity).
  assert (Hpage : page_of (FileSystemStore.List blobs Background
                    {| ListInput.Prefix := "a/"; ListInput.MaxKeys := 2;
                       ListInput.StartAfter := "" |} five_objects).1
                  = Some (["a/1"; "a/2"], true, "a/2"))
    by (vm_compute; reflexivity).
  assert (Hmarker : "a/2" ≠ "") by discriminate.
  pose proof (proj2 (list_next_page_continues blobs Background
                       {| ListInput.Prefix := "a/"; ListInput.MaxKeys := 2;
                          ListInput.StartAfter := "" |} five_objects
                       ["a/1"; "a/2"] true "a/2"
                       Hquiet eq_refl Hroot Hpage Hmarker)) as Hnext.
  assert (Hrhs : (let all := sort_by str_le
                               (filter (λ k, listed {| ListInput.Prefix := "a/";
                                                       ListInput.MaxKeys := 2;
                                                       ListInput.StartAfter := "" |} k = true)
                                       (stored_keys blobs five_objects)) in
                  let n := max_keys {| ListInput.Prefix := "a/"; ListInput.MaxKeys := 2;
                                       ListInput.StartAfter := "" |} in
                  Some (take n (drop n all), bool_decide (n < length (drop n all))%nat,
                        default "" (last (take n (drop n all)))))
                 = Some (["a/3"; "a/4"], true, "a/4"))
    by (vm_compute; reflexivity).
  exact (eq_trans Hnext Hrhs).
Defined.

(* ===================================================================== *)
(** * List under a cancelled context, and after an upload *)
(* ===================================================================== *)

Lemma ctx_Err_cancelled ctx w t :
  cancelled ctx w → (clock w ≤ t)%nat →
  ctx_Err ctx t = Some (Sentinel (if by_deadline ctx then DeadlineExceeded else Canceled)).
Proof.
  intros (t0 & Ht0 & Hle) Ht. unfold ctx_Err. rewrite Ht0.
  by rewrite bool_decide_eq_true_2 by lia.
Qed.

Lemma List_walk_cancelled f ctx prefix startAfter entries w e :
  ctx_Err ctx (clock w) = Some e →
  ∃ err, FileSystemStore.List_walk f ctx prefix startAfter entries [] w = ([], err, w)
         ∧ (err = None ∨ err = Some e).
Proof.
  intros Hctx. induction entries as [|[path d] entries IH].
  { exists None. split; [done|by left]. }
  cbn [FileSystemStore.List_walk]. destruct d as [c t|]; [|done].
  run_io. rewrite Hctx. exists (Some e). split; [done|by right].
Qed.

(** X18.  [List] hides a cancellation.  Under a context that is cancelled
    already, with the root in place and no failure of the first call,
    [List] returns no error but an empty page, not truncated and without
    marker, whatever is stored: the walk stops at the first file with the
    error of the context, which [List] does not pass on. *)
Theorem cancelled_list_looks_empty f ctx input w :
  fault_now w = None →
  os.lookup_path (nodes w) (basePath f) = inr Directory →
  cancelled ctx w →
  (FileSystemStore.List f ctx input w).1
  = Ok {| ListOutput.Objects := []; ListOutput.IsTruncated := false;
          ListOutput.NextMarker := "" |}.
Proof.
  intros Hnow Hroot Hcancel.
  unfold FileSystemStore.List, FileSystemStore.List_collect. run_io.
  unfold os.Stat. rewrite Hnow, Hroot. run_io.
  unfold os.ReadTree. cbn [nodes log].
  destruct (List_walk_cancelled f ctx (ListInput.Prefix input) (ListInput.StartAfter input)
              (os.walk_entries (nodes w) (basePath f)) (log (CallStat (basePath f)) w)
              (Sentinel (if by_deadline ctx then DeadlineExceeded else Canceled)))
    as (err & -> & Herr).
  { apply (ctx_Err_cancelled ctx w); [done|]. unfold clock. simpl.
    rewrite length_app. lia. }
  pose proof (max_keys_pos input) as Hpos.
  assert (Hpage : ∀ m, 0 < m →
            FileSystemStore.List_page m []
            = {| ListOutput.Objects := []; ListOutput.IsTruncated := false;
                 ListOutput.NextMarker := "" |}).
  { intros m Hm. unfold FileSystemStore.List_page. cbn.
    by rewrite bool_decide_eq_false_2 by lia. }
  destruct Herr as [-> | ->].
  - cbn. by rewrite Hpage.
  - destruct (by_deadline ctx); cbn; by rewrite Hpage.
Qed.

(** The theorem at work on the store with five objects. *)
Lemma cancelled_list_looks_empty_witness :
  stored_keys blobs five_objects ≠ []
  ∧ (FileSystemStore.List blobs already_cancelled
       {| ListInput.Prefix := ""; ListInput.MaxKeys := 0; ListInput.StartAfter := "" |}
       five_objects).1
    = Ok {| ListOutput.Objects := []; ListOutput.IsTruncated := false;
            ListOutput.NextMarker := "" |}.
Proof.
  assert (Hnow : fault_now five_objects = None) by (vm_compute; reflexivity).
  assert (Hroot : os.lookup_path (nodes five_objects) (basePath blobs) = inr Directory)
    by (vm_compute; reflexivity).
  assert (Hcancel : cancelled already_cancelled five_objects).
  { exists 0%nat. split; [reflexivity|lia]. }
  split; [vm_compute; discriminate|].
  exact (cancelled_list_looks_empty blobs already_cancelled _ five_objects
           Hnow Hroot Hcancel).
Defined.



(* ===================================================================== *)
(** * The sanitizer and the content type *)
(* ===================================================================== *)

(** X1.  The sanitizer never leads out of the store.  When the base path
    is absolute and clean, as [NewFileSystemStore] makes it, the full path
    of every key that [fullPath] accepts is the base path followed by zero
    or more names, none of them empty, [.], [..] or with a separator in it;
    and the path from the base to it, which is the key a listing gives the
    object, is the cleaned key. *)
Theorem accepted_key_stays_below_base f key full :
  clean_absolute (basePath f) →
  FileSystemStore.fullPath f key = Ok full →
  ∃ names, Forall is_step names
    ∧ full = foldl os.child (basePath f) names
    ∧ os.Rel (basePath f) full = Some (filepath.Clean key)
    ∧ filepath.Clean key = (if decide (names = []) then "." else Join_strings names "/").
Proof. apply fullPath_below. Qed.

(** The theorem at work on the key [a/b/../c.txt]. *)
Lemma accepted_key_stays_below_base_witness :
  ∃ names, Forall is_step names
    ∧ "/srv/blobs/a/c.txt" = foldl os.child (basePath blobs) names
    ∧ os.Rel (basePath blobs) "/srv/blobs/a/c.txt" = Some (filepath.Clean "a/b/../c.txt")
    ∧ filepath.Clean "a/b/../c.txt"
      = (if decide (names = []) then "." else Join_strings names "/").
Proof.
  assert (Hbase : clean_absolute (basePath blobs)).
  { split; vm_compute; reflexivity. }
  assert (Hfull : FileSystemStore.fullPath blobs "a/b/../c.txt" = Ok "/srv/blobs/a/c.txt")
    by (vm_compute; reflexivity).
  exact (accepted_key_stays_below_base blobs "a/b/../c.txt" "/srv/blobs/a/c.txt"
           Hbase Hfull).
Defined.

(** X2.  Keys are used in their cleaned form.  [filepath.Clean] is
    idempotent, so the cleaned form of a key has the full path (or the
    rejection) of the key itself, and so have all the keys with the same
    cleaned form: [a//b/../c.txt] and [a/c.txt] name one object. *)
Theorem cleaned_key_names_same_object f key :
  key ≠ "" →
  filepath.Clean (filepath.Clean key) = filepath.Clean key
  ∧ FileSystemStore.fullPath f (filepath.Clean key) = FileSystemStore.fullPath f key
  ∧ ∀ key', key' ≠ "" → filepath.Clean key' = filepath.Clean key →
            FileSystemStore.fullPath f key' = FileSystemStore.fullPath f key.
Proof.
  intros Hkey. split; [apply Clean_idempotent|].
  unfold FileSystemStore.fullPath. split.
  - rewrite decide_False by apply Clean_nonempty.
    rewrite decide_False by done. by rewrite Clean_idempotent.
  - intros key' Hkey' Heq. rewrite !decide_False by done. by rewrite Heq.
Qed.

(** The theorem at work on the key [a//b/../c.txt]. *)
Lemma cleaned_key_names_same_object_witness :
  FileSystemStore.fullPath blobs (filepath.Clean "a//b/../c.txt")
  = FileSystemStore.fullPath blobs "a//b/../c.txt".
Proof.
  assert (Hkey : "a//b/../c.txt" ≠ "") by discriminate.
  exact (proj1 (proj2 (cleaned_key_names_same_object blobs "a//b/../c.txt" Hkey))).
Defined.

(** ** The extension and the case of letters *)

Lemma to_lower_facts c :
  filepath.IsPathSeparator (FileSystemStore.to_lower c) = filepath.IsPathSeparator c
  ∧ Ascii.eqb (FileSystemStore.to_lower c) "." = Ascii.eqb c "."
  ∧ FileSystemStore.to_lower (FileSystemStore.to_lower c) = FileSystemStore.to_lower c.
Proof.
  destruct c as [[] [] [] [] [] [] [] []]; vm_compute; done.
Qed.

Lemma lower_bytes_idempotent s :
  FileSystemStore.lower_bytes (FileSystemStore.lower_bytes s)
  = FileSystemStore.lower_bytes s.
Proof.
  induction s as [|c s IH]; [done|]. cbn [FileSystemStore.lower_bytes].
  rewrite IH. by destruct (to_lower_facts c) as (_ & _ & ->).
Qed.

Lemma lower_bytes_marks s :
  existsb (λ d, filepath.IsPathSeparator d || Ascii.eqb d ".")
          (String.list_ascii_of_string (FileSystemStore.lower_bytes s))
  = existsb (λ d, filepath.IsPathSeparator d || Ascii.eqb d ".")
            (String.list_ascii_of_string s).
Proof.
  induction s as [|c s IH]; [done|].
  cbn [FileSystemStore.lower_bytes String.list_ascii_of_string existsb].
  rewrite IH. by destruct (to_lower_facts c) as (-> & -> & _).
Qed.

Lemma Ext_lower_bytes p :
  filepath.Ext (FileSystemStore.lower_bytes p)
  = FileSystemStore.lower_bytes (filepath.Ext p).
Proof.
  induction p as [|c p IH]; [done|].
  cbn [FileSystemStore.lower_bytes filepath.Ext]. rewrite lower_bytes_marks.
  destruct (existsb _ _); [done|].
  destruct (to_lower_facts c) as (_ & -> & _).
  by destruct (Ascii.eqb c ".").
Qed.

Lemma to_lower_ascii c :
  (nat_of_ascii c < 128)%nat → (nat_of_ascii (FileSystemStore.to_lower c) < 128)%nat.
Proof.
  intros H. unfold FileSystemStore.to_lower. case_bool_decide as Hup; [|done].
  rewrite nat_ascii_embedding; lia.
Qed.

Lemma is_ascii_lower_bytes s : is_ascii s → is_ascii (FileSystemStore.lower_bytes s).
Proof.
  unfold is_ascii. induction s as [|c s IH]; [done|].
  cbn [FileSystemStore.lower_bytes String.list_ascii_of_string].
  intros [Hc Hs]%Forall_cons. apply Forall_cons. split; [by apply to_lower_ascii|auto].
Qed.

Lemma is_ascii_Ext p : is_ascii p → is_ascii (filepath.Ext p).
Proof.
  induction p as [|c p IH]; [done|]. intros Hp.
  assert (Hr : is_ascii p) by (by apply Forall_cons in Hp as [_ ?]).
  cbn [filepath.Ext]. destruct (existsb _ _); [by apply IH|].
  destruct (Ascii.eqb c "."); [done|apply Forall_nil_2].
Qed.

(** On a name made of ASCII characters [strings.ToLower] takes its path
    for such names. *)
Lemma ToLower_ascii s :
  is_ascii s → FileSystemStore.ToLower s = FileSystemStore.lower_bytes s.
Proof.
  intros H. unfold FileSystemStore.ToLower.
  replace (FileSystemStore.isASCII s) with true; [done|].
  symmetry. unfold FileSystemStore.isASCII. apply forallb_forall.
  intros c Hc. apply bool_decide_eq_true.
  unfold is_ascii in H. rewrite Forall_forall in H. by apply H, list_elem_of_In.
Qed.

(** X5.  The content type does not depend on the case of the name: for a
    name made of ASCII characters, which [strings.ToLower] lowers byte by
    byte, [detectContentType] gives the lower-cased name the type it gives
    the name. *)
Theorem content_type_ignores_case name :
  is_ascii name →
  FileSystemStore.detectContentType (FileSystemStore.ToLower name)
  = FileSystemStore.detectContentType name.
Proof.
  intros Hname. unfold FileSystemStore.detectContentType.
  rewrite (ToLower_ascii name Hname), Ext_lower_bytes.
  rewrite !ToLower_ascii by auto using is_ascii_Ext, is_ascii_lower_bytes.
  by rewrite lower_bytes_idempotent.
Qed.

(** The theorem at work on [a/Report.PDF]. *)
Lemma content_type_ignores_case_witness :
  FileSystemStore.detectContentType (FileSystemStore.ToLower "a/Report.PDF")
  = FileSystemStore.detectContentType "a/Report.PDF".
Proof.
  assert (Hascii : is_ascii "a/Report.PDF").
  { unfold is_ascii. simpl. repeat constructor; simpl; lia. }
  exact (content_type_ignores_case "a/Report.PDF" Hascii).
Defined.

(** X13.  [Upload] under a context that is cancelled already.  It always
    returns an error, and stores nothing: the content found under every
    path is what it was, and every entry that existed is still there.  It
    checks the context only after [os.MkdirAll], so when the key is valid
    and the directories could be made, the error is the context's and the
    directories of the key are left behind. *)
Theorem cancelled_upload_stores_nothing f ctx input w :
  cancelled ctx w →
  (∃ e, (FileSystemStore.Upload f ctx input w).1 = Err e)
  ∧ (∀ q, content_at (FileSystemStore.Upload f ctx input w).2 q = content_at w q)
  ∧ (∀ q n, nodes w !! q = Some n →
            nodes (FileSystemStore.Upload f ctx input w).2 !! q = Some n)
  ∧ (∀ body full w1,
       UploadInput.Body input = Some body →
       FileSystemStore.fullPath f (UploadInput.Key input) = Ok full →
       os.MkdirAll (filepath.Dir full) w = (None, w1) →
       FileSystemStore.Upload f ctx input w
       = (Err (Sentinel (if by_deadline ctx then DeadlineExceeded else Canceled)), w1)).
Proof.
  intros Hcancel. unfold FileSystemStore.Upload.
  destruct (decide (UploadInput.Key input = "")).
  { run_io. split; [by eexists|]. split; [done|]. split; [done|].
    intros body full w1 _ Hfull. by apply fullPath_nonempty in Hfull. }
  destruct (UploadInput.Body input) as [body|].
  2:{ run_io. split; [by eexists|]. done. }
  destruct (FileSystemStore.fullPath f (UploadInput.Key input)) as [full|e].
  2:{ run_io. split; [by eexists|]. done. }
  run_io.
  destruct (os.MkdirAll (filepath.Dir full) w) as [e1 w1] eqn:HM.
  pose proof (MkdirAll_inv _ _ _ _ HM) as (T1 & _ & Hkeep & Hcontent).
  destruct e1 as [e1|].
  { split; [by eexists|]. split; [done|]. split; [done|].
    intros ? ? ? [= <-] [= <-] HM'. rewrite HM in HM'. by simplify_eq. }
  rewrite (ctx_Err_cancelled ctx w (clock w1) Hcancel) by (destruct T1; lia).
  split; [by eexists|]. split; [done|]. split; [done|].
  intros ? ? ? [= <-] [= <-] HM'. rewrite HM in HM'. by simplify_eq.
Qed.

(** The theorem at work: nothing is stored, and the directory of the key
    is left behind. *)
Lemma cancelled_upload_stores_nothing_witness :
  (FileSystemStore.Upload blobs already_cancelled
     (upload_of "x/1.txt" (bytes_of_string "hello")) fresh_store).1
  = Err (Sentinel Canceled)
  ∧ content_at (FileSystemStore.Upload blobs already_cancelled
                  (upload_of "x/1.txt" (bytes_of_string "hello")) fresh_store).2
      "/srv/blobs/x/1.txt" = None
  ∧ nodes (FileSystemStore.Upload blobs already_cancelled
             (upload_of "x/1.txt" (bytes_of_string "hello")) fresh_store).2
      !! "/srv/blobs/x" = Some Directory
  ∧ nodes fresh_store !! "/srv/blobs/x" = None.
Proof.
  assert (Hcancel : cancelled already_cancelled fresh_store).
  { exists 0%nat. split; [reflexivity|lia]. }
  pose proof (cancelled_upload_stores_nothing blobs already_cancelled
                (upload_of "x/1.txt" (bytes_of_string "hello")) fresh_store Hcancel)
    as (_ & Hcontent & _ & _).
  split; [vm_compute; reflexivity|].
  split; [exact (eq_trans (Hcontent "/srv/blobs/x/1.txt") eq_refl)|].
  split; vm_compute; reflexivity.
Defined.

(* ===================================================================== *)
(** * The settings of the networked backend *)
(* ===================================================================== *)

Lemma package_option_usable opt o :
  package_option opt → usable_settings o → usable_settings (opt o).
Proof.
  unfold usable_settings. intros Hopt (H1 & H2 & H3 & H4 & H5).
  destruct Hopt; cbv beta delta [WithUploadPartSize WithUploadConcurrency
    WithDownloadPartSize WithDownloadConcurrency WithCustomEndpoint WithPathStyle];
    try case_bool_decide; simpl; repeat split; done.
Qed.

Lemma options_usable opts : ∀ o,
  Forall package_option opts → usable_settings o →
  usable_settings (foldl (λ o opt, opt o) o opts).
Proof.
  induction opts as [|opt opts IH]; intros o Hopts Ho; [done|].
  inversion Hopts; subst. simpl. apply IH; [done|]. by apply package_option_usable.
Qed.

(** X20.  The settings [NewS3Store] gives the managers.  An empty bucket
    name is refused.  Whatever options of the package are passed, in
    whatever order, a store that is returned has its upload part size at
    least 5 MiB, its download part size and both of its concurrencies
    positive, and it does not leave parts behind on error: an option with a
    value that is out of range has no effect. *)
Theorem new_remote_store_settings S3Bucket loaded opts :
  Forall package_option opts →
  (S3Bucket = "" →
   NewS3Store S3Bucket loaded opts = Err (fmt.Errorf_text "S3 bucket name is required"))
  ∧ (∀ parts, NewS3Store S3Bucket loaded opts = Ok parts →
       S3Bucket ≠ "" ∧ loaded = None
       ∧ Bucket (store parts) = S3Bucket
       ∧ 5 * 1024 * 1024 ≤ up_PartSize (uploader parts)
       ∧ 0 < up_Concurrency (uploader parts)
       ∧ up_LeavePartsOnError (uploader parts) = false
       ∧ 0 < down_PartSize (downloader parts)
       ∧ 0 < down_Concurrency (downloader parts)).
Proof.
  intros Hopts. unfold NewS3Store. split.
  { intros ->. done. }
  intros parts. destruct (decide (S3Bucket = "")); [done|].
  destruct loaded; [done|]. intros [= <-]. simpl.
  assert (Hdef : usable_settings defaultS3Options).
  { unfold usable_settings. simpl. repeat split; lia. }
  destruct (options_usable opts _ Hopts Hdef) as (H1 & H2 & H3 & H4 & H5).
  done.
Qed.

(** The theorem at work: three options out of range, which have no
    effect, and three that are taken. *)
Lemma new_remote_store_settings_witness :
  NewS3Store "blobs" None
    [WithUploadPartSize 1024; WithUploadConcurrency 0; WithDownloadPartSize (-1);
     WithDownloadConcurrency 8; WithCustomEndpoint "http://localhost:4566";
     WithPathStyle true]
  = Ok {| store := {| bucket := "blobs" |};
          client := {| BaseEndpoint := Some "http://localhost:4566";
                       UsePathStyle := true |};
          uploader := {| up_PartSize := 10485760; up_Concurrency := 5;
                         up_LeavePartsOnError := false |};
          downloader := {| down_PartSize := 10485760; down_Concurrency := 8 |} |}
  ∧ 5 * 1024 * 1024 ≤ 10485760.
Proof.
  assert (Hopts : Forall package_option
            [WithUploadPartSize 1024; WithUploadConcurrency 0; WithDownloadPartSize (-1);
             WithDownloadConcurrency 8; WithCustomEndpoint "http://localhost:4566";
             WithPathStyle true]).
  { repeat constructor. }
  assert (Hparts : NewS3Store "blobs" None
            [WithUploadPartSize 1024; WithUploadConcurrency 0; WithDownloadPartSize (-1);
             WithDownloadConcurrency 8; WithCustomEndpoint "http://localhost:4566";
             WithPathStyle true]
          = Ok {| store := {| bucket := "blobs" |};
                  client := {| BaseEndpoint := Some "http://localhost:4566";
                               UsePathStyle := true |};
                  uploader := {| up_PartSize := 10485760; up_Concurrency := 5;
                                 up_LeavePartsOnError := false |};
                  downloader := {| down_PartSize := 10485760; down_Concurrency := 8 |} |})
    by (vm_compute; reflexivity).
  split; [exact Hparts|].
  exact (proj1 (proj2 (proj2 (proj2
    (proj2 (new_remote_store_settings "blobs" None _ Hopts) _ Hparts))))).
Defined.

(* ===================================================================== *)
(** * HeadObject, Exists and Copy on the networked backend *)
(* ===================================================================== *)

(** X21.  [HeadObject] after [Upload] on the networked backend.  After a
    successful upload, with no request failing, [HeadObject] returns the
    size of the body, the content type of the request, or
    [application/octet-stream] when that was empty, the ETag that [Upload]
    returned, and the metadata of the request; and [Exists] returns
    true. *)
Theorem remote_head_after_upload s ctx ctx' input body r out r' :
  UploadInput.Body input = Some body →
  S3Store.Upload s ctx input r = (Ok out, r') →
  quiet_remote r' →
  UploadOutput.ETag out = s3.etag_of (r_data body)
  ∧ (S3Store.HeadObject s ctx' (UploadInput.Key input) r').1
    = Ok {| ObjectInfo.Key := UploadInput.Key input;
            ObjectInfo.Size := Z.of_nat (length (r_data body));
            ObjectInfo.ContentType :=
              if decide (UploadInput.ContentType input = "")
              then "application/octet-stream" else UploadInput.ContentType input;
            ObjectInfo.ETag := UploadOutput.ETag out;
            ObjectInfo.LastModified := Some (length (s3.requests r));
            ObjectInfo.Metadata := UploadInput.Metadata input |}
  ∧ (S3Store.Exists s ctx' (UploadInput.Key input) r').1 = (true, None).
Proof.
  intros Hbody. unfold S3Store.Upload.
  destruct (decide (UploadInput.Key input = "")) as [|Hkey]; [done|].
  rewrite Hbody. run_io. unfold s3.Upload.
  destruct (s3.failure_now r); [done|].
  destruct (r_err body); [done|]. run_io.
  intros [= <- <-] Hquiet. split; [done|].
  assert (Hhead : (S3Store.HeadObject s ctx' (UploadInput.Key input)
                     (s3.with_objects
                        (<[UploadInput.Key input :=
                             {| s3.o_Body := r_data body;
                                s3.o_ContentType :=
                                  if decide (UploadInput.ContentType input = "")
                                  then "application/octet-stream"
                                  else UploadInput.ContentType input;
                                s3.o_Metadata := UploadInput.Metadata input;
                                s3.o_ETag := s3.etag_of (r_data body);
                                s3.o_LastModified := length (s3.requests r) |}]>
                           (s3.objects r))
                        (s3.sent (s3.PutObject (bucket s) (UploadInput.Key input)) r))).1
                  = Ok {| ObjectInfo.Key := UploadInput.Key input;
                          ObjectInfo.Size := Z.of_nat (length (r_data body));
                          ObjectInfo.ContentType :=
                            if decide (UploadInput.ContentType input = "")
                            then "application/octet-stream"
                            else UploadInput.ContentType input;
                          ObjectInfo.ETag := s3.etag_of (r_data body);
                          ObjectInfo.LastModified := Some (length (s3.requests r));
                          ObjectInfo.Metadata := UploadInput.Metadata input |}).
  { unfold S3Store.HeadObject. rewrite decide_False by done. run_io.
    unfold s3.HeadObject_call. rewrite (quiet_remote_now _ Hquiet).
    cbn [s3.objects s3.with_objects]. rewrite lookup_insert_eq. done. }
  split; [exact Hhead|].
  unfold S3Store.Exists. run_io.
  destruct (S3Store.HeadObject _ _ _ _) as [res r2]. simpl in Hhead. by rewrite Hhead.
Qed.

(** The theorem at work on an upload without content type. *)
Lemma remote_head_after_upload_witness :
  (S3Store.HeadObject remote_blobs Background "report.pdf"
     (S3Store.Upload remote_blobs Background tagged_upload fresh_bucket).2).1
  = Ok {| ObjectInfo.Key := "report.pdf";
          ObjectInfo.Size := 5;
          ObjectInfo.ContentType := "application/octet-stream";
          ObjectInfo.ETag := s3.quote +:+ "5d41402abc4b2a76b9719d911017c592" +:+ s3.quote;
          ObjectInfo.LastModified := Some 0%nat;
          ObjectInfo.Metadata := {[ "owner" := "ops" ]} |}.
Proof.
  pose (run := S3Store.Upload remote_blobs Background tagged_upload fresh_bucket).
  assert (Hbody : UploadInput.Body tagged_upload = Some (NewReader (bytes_of_string "hello")))
    by reflexivity.
  assert (Hout : run.1
                 = Ok {| UploadOutput.Location := "https://blobs.s3.amazonaws.com/report.pdf";
                         UploadOutput.VersionID := "";
                         UploadOutput.ETag :=
                           s3.quote +:+ "5d41402abc4b2a76b9719d911017c592" +:+ s3.quote |})
    by (vm_compute; reflexivity).
  pose proof (eq_trans (surjective_pairing run) (f_equal (λ x, (x, run.2)) Hout)) as Hup.
  assert (Hfailures : s3.failures run.2 = []) by (vm_compute; reflexivity).
  assert (Hquiet : quiet_remote run.2).
  { intros i _. rewrite Hfailures. reflexivity. }
  exact (proj1 (proj2 (remote_head_after_upload remote_blobs Background Background
                         tagged_upload _ fresh_bucket _ _ Hbody Hup Hquiet))).
Defined.

(** X22.  [Exists] on the networked backend sends one [HeadObject]
    request.  When the request goes through, the answer is whether the
    bucket holds the key, with no error.  When it fails, the answer is
    false; the error is dropped when [isNotFoundError] holds of it (or it
    is [ErrBlobNotFound]), and is else returned in the "failed to get
    object info" wrapping. *)
Theorem remote_exists_outcomes s ctx key r :
  key ≠ "" →
  (S3Store.Exists s ctx key r).1
  = match s3.failure_now r with
    | None => (bool_decide (is_Some (s3.objects r !! key)), None)
    | Some e =>
        if S3Store.isNotFoundError e || errors.Is e ErrBlobNotFound
        then (false, None)
        else (false, Some (fmt.Errorf_text_w "failed to get object info" e))
    end
  ∧ (S3Store.Exists s ctx key r).2 = s3.sent (s3.HeadObject (bucket s) key) r.
Proof.
  intros Hkey. unfold S3Store.Exists, S3Store.HeadObject.
  rewrite decide_False by done. run_io. unfold s3.HeadObject_call.
  destruct (s3.failure_now r) as [e|]; run_io.
  - destruct (S3Store.isNotFoundError e); [done|]. run_io.
    by destruct (errors.Is e ErrBlobNotFound).
  - destruct (s3.objects r !! key) as [o|] eqn:Ho; run_io.
    + done.
    + done.
Qed.

(** The theorem at work on a bucket that denies the request. *)
Lemma remote_exists_outcomes_witness :
  (S3Store.Exists remote_blobs Background "report.pdf" denying_bucket).1
  = (false, Some (fmt.Errorf_text_w "failed to get object info"
                    (OperationError "HeadObject"
                       (GenericAPIError "AccessDenied" "Access Denied")))).
Proof.
  assert (Hkey : "report.pdf" ≠ "") by discriminate.
  exact (proj1 (remote_exists_outcomes remote_blobs Background "report.pdf"
                  denying_bucket Hkey)).
Defined.

(** A key without percent and plus signs is read by the service as it is
    written. *)
Lemma unescape_plain key : plain_key key → s3.unescape key = Some key.
Proof.
  unfold plain_key. induction key as [|c key IH]; [done|].
  cbn [String.list_ascii_of_string s3.unescape].
  intros [[Hp Hq] Hkey]%Forall_cons.
  rewrite (proj2 (Ascii.eqb_neq c "%") Hp), (proj2 (Ascii.eqb_neq c "+") Hq).
  by rewrite IH.
Qed.

(** X23.  [Copy] on the networked backend sends one [CopyObject] request
    that names the bucket of the store, the destination key and, as its
    source, the bucket of the store, a slash and the source key as it is,
    which the service reads back as that key in that bucket when the key
    has no percent and no plus sign.  When the request
    fails, [Copy] returns [ErrBlobNotFound] if [isNotFoundError] holds of
    the failure and else the failure in the "failed to copy object"
    wrapping, and the bucket is unchanged.  With no request failing: when
    the bucket holds the source key, [Copy] returns no error, the
    destination key holds a copy of the object afterwards, with the body,
    the content type, the metadata and the ETag of the source, which
    [GetObject] and [HeadObject] of the destination return; when it does
    not, [Copy] returns [ErrBlobNotFound] and the bucket is unchanged. *)
Theorem remote_copy_outcomes s ctx ctx' src dst r :
  src ≠ "" → dst ≠ "" → plain_key src →
  s3.requests (S3Store.Copy s ctx src dst r).2
  = s3.requests r ++ [s3.CopyObject (bucket s) (bucket s +:+ "/" +:+ src) dst]
  ∧ (∀ e, s3.failure_now r = Some e →
       (S3Store.Copy s ctx src dst r).1
       = Some (if S3Store.isNotFoundError e then Sentinel ErrBlobNotFound
               else fmt.Errorf_text_w "failed to copy object" e)
       ∧ s3.objects (S3Store.Copy s ctx src dst r).2 = s3.objects r)
  ∧ (quiet_remote r →
     (∀ o, s3.objects r !! src = Some o →
        (S3Store.Copy s ctx src dst r).1 = None
        ∧ s3.objects (S3Store.Copy s ctx src dst r).2
          = <[dst := s3.copy_of o (length (s3.requests r))]> (s3.objects r)
        ∧ (S3Store.GetObject s ctx' dst (S3Store.Copy s ctx src dst r).2).1
          = Ok (s3.o_Body o)
        ∧ (S3Store.HeadObject s ctx' dst (S3Store.Copy s ctx src dst r).2).1
          = Ok {| ObjectInfo.Key := dst;
                  ObjectInfo.Size := Z.of_nat (length (s3.o_Body o));
                  ObjectInfo.ContentType := s3.o_ContentType o;
                  ObjectInfo.ETag := s3.o_ETag o;
                  ObjectInfo.LastModified := Some (length (s3.requests r));
                  ObjectInfo.Metadata := s3.o_Metadata o |})
     ∧ (s3.objects r !! src = None →
          (S3Store.Copy s ctx src dst r).1 = Some (Sentinel ErrBlobNotFound)
          ∧ s3.objects (S3Store.Copy s ctx src dst r).2 = s3.objects r)).
Proof.
  intros Hsrc Hdst Hplain.
  split; [by apply S3_Copy_sends|].
  unfold S3Store.Copy, fmt.Sprintf_s_slash_s.
  rewrite bool_decide_eq_false_2 by (intros [?|?]; done). run_io.
  unfold s3.CopyObject_call.
  split.
  { intros e He. rewrite He. by destruct (S3Store.isNotFoundError e). }
  intros Hquiet. rewrite (quiet_remote_now _ Hquiet).
  rewrite <- append_assoc, strip_prefix_app, (unescape_plain src Hplain).
  split.
  - intros o Ho. rewrite Ho. run_io.
    split; [done|]. split; [done|].
    assert (Hnow : ∀ m q, s3.failure_now (s3.with_objects m (s3.sent q r)) = None).
    { intros m q. apply quiet_remote_now.
      intros i Hi. apply (quiet_remote_sent q r Hquiet i Hi). }
    split.
    + unfold S3Store.GetObject. rewrite decide_False by done. run_io.
      unfold s3.GetObject_call. rewrite Hnow.
      cbn [s3.objects s3.with_objects]. by rewrite lookup_insert_eq.
    + unfold S3Store.HeadObject. rewrite decide_False by done. run_io.
      unfold s3.HeadObject_call. rewrite Hnow.
      cbn [s3.objects s3.with_objects]. by rewrite lookup_insert_eq.
  - intros Ho. by rewrite Ho.
Qed.

(** The theorem at work: ["hello"] uploaded with a content type and
    metadata, copied, and read under the new key. *)
Lemma remote_copy_outcomes_witness :
  let r := (S3Store.Upload remote_blobs Background labelled_upload fresh_bucket).2 in
  let run := S3Store.Copy remote_blobs Background "report.pdf" "copies/report.pdf" r in
  s3.requests run.2
  = [s3.PutObject "blobs" "report.pdf";
     s3.CopyObject "blobs" "blobs/report.pdf" "copies/report.pdf"]
  ∧ run.1 = None
  ∧ (S3Store.GetObject remote_blobs Background "copies/report.pdf" run.2).1
    = Ok (bytes_of_string "hello")
  ∧ (S3Store.HeadObject remote_blobs Background "copies/report.pdf" run.2).1
    = Ok {| ObjectInfo.Key := "copies/report.pdf";
            ObjectInfo.Size := 5;
            ObjectInfo.ContentType := "text/plain";
            ObjectInfo.ETag := s3.quote +:+ "5d41402abc4b2a76b9719d911017c592" +:+ s3.quote;
            ObjectInfo.LastModified := Some 1%nat;
            ObjectInfo.Metadata := {[ "owner" := "ops" ]} |}.
Proof.
  intros r run.
  pose (o := {| s3.o_Body := bytes_of_string "hello";
                s3.o_ContentType := "text/plain";
                s3.o_Metadata := {[ "owner" := "ops" ]};
                s3.o_ETag := s3.quote +:+ "5d41402abc4b2a76b9719d911017c592" +:+ s3.quote;
                s3.o_LastModified := 0%nat |}).
  assert (Hsrc : "report.pdf" ≠ "") by discriminate.
  assert (Hdst : "copies/report.pdf" ≠ "") by discriminate.
  assert (Hplain : plain_key "report.pdf").
  { unfold plain_key. simpl. repeat constructor; discriminate. }
  assert (Hfailures : s3.failures r = []) by (vm_compute; reflexivity).
  assert (Hquiet : quiet_remote r).
  { intros i _. rewrite Hfailures. reflexivity. }
  assert (Hobj : s3.objects r !! "report.pdf" = Some o) by (vm_compute; reflexivity).
  destruct (remote_copy_outcomes remote_blobs Background Background
              "report.pdf" "copies/report.pdf" r Hsrc Hdst Hplain)
    as (Hreq & _ & Hgoes).
  destruct (Hgoes Hquiet) as [Hthere _].
  destruct (Hthere o Hobj) as (Hnone & _ & Hget & Hhead).
  split; [exact Hreq|]. split; [exact Hnone|]. split; [exact Hget|exact Hhead].
Defined.

(* ===================================================================== *)
(** * Keys that name the root, reads under a cancelled context, and labels *)
(* ===================================================================== *)

Lemma Clean_step e : is_step e → filepath.Clean e = e.
Proof.
  intros He. apply (Clean_relative_names 0 [e]); [by constructor|done].
Qed.

(** X3.  The sanitizer refuses more than the keys that leave the store.  A
    key made of one name that begins with two dots, such as [..notes.txt],
    is not empty, not absolute and steps nowhere above the root; [fullPath]
    refuses it all the same, since it tests the cleaned key for the prefix
    [..] and not for the element [..]. *)
Theorem sanitizer_rejects_dotdot_names f e :
  is_step e → HasPrefix e ".." = true →
  ¬ unsafe_key e
  ∧ FileSystemStore.fullPath f e
    = Err (fmt.Errorf_w_text (Sentinel ErrInvalidBlobKey) "invalid key path").
Proof.
  intros He Hdots. split.
  - intros [->|[Habs|[n Hn]]].
    + by apply is_step_nonempty in He.
    + pose proof (is_step_not_abs e "" He) as Hrel.
      rewrite append_empty_r in Hrel. congruence.
    + destruct He as [Hname Hel]. rewrite Hel in Hn.
      destruct n as [|n]; [simpl in Hn; lia|].
      rewrite firstn_cons, take_nil in Hn.
      rewrite filter_cons_True in Hn by done.
      rewrite filter_cons_False in Hn.
      * simpl in Hn. lia.
      * unfold is_dotdot. rewrite bool_decide_eq_true. intros ->.
        apply is_name_spec in Hname. tauto.
  - unfold FileSystemStore.fullPath.
    rewrite decide_False by by apply is_step_nonempty.
    by rewrite (Clean_step e He), Hdots.
Qed.

(** The theorem at work on the key [..notes.txt]. *)
Lemma sanitizer_rejects_dotdot_names_witness :
  ¬ unsafe_key "..notes.txt"
  ∧ FileSystemStore.fullPath blobs "..notes.txt"
    = Err (fmt.Errorf_w_text (Sentinel ErrInvalidBlobKey) "invalid key path").
Proof.
  assert (He : is_step "..notes.txt") by (split; reflexivity).
  assert (Hdots : HasPrefix "..notes.txt" ".." = true) by reflexivity.
  exact (sanitizer_rejects_dotdot_names blobs "..notes.txt" He Hdots).
Defined.

Lemma Join_dot base : clean_absolute base → filepath.Join base "." = base.
Proof.
  intros Hbase.
  destruct (Clean_abs_shape _ Hbase) as (nb & Hnb & Hb).
  destruct (elements_rooted nb Hnb) as (skipped & Hskipped & Hel).
  assert (Hbne : base ≠ "").
  { intros Heq. destruct Hbase as [Habs _]. by rewrite Heq in Habs. }
  unfold filepath.Join. rewrite !decide_False by done.
  change (base +:+ "/" +:+ ".") with (base +:+ String "/" ".").
  rewrite Clean_rooted.
  - rewrite elements_app_sep. rewrite Hb at 1. rewrite Hel.
    rewrite !filter_app, filter_skipped by done.
    rewrite filter_names by by apply is_step_names. simpl.
    rewrite filter_cons_False by done. rewrite filter_nil, app_nil_r. done.
  - apply IsAbs_app. apply Hbase.
  - rewrite elements_app_sep. rewrite Hb at 1. rewrite Hel.
    rewrite !Forall_app. split; [split|].
    + by apply skipped_not_dotdot.
    + by apply is_step_not_dotdot.
    + by repeat constructor.
Qed.

(** X4.  The key [.] names the root of the store.  [fullPath] accepts it
    and returns the base path itself; so [Delete] of [.] on a store without
    entries removes the base directory and returns no error, and every
    [List] after that fails on the missing root. *)
Theorem dot_key_is_the_root f ctx w :
  clean_absolute (basePath f) →
  FileSystemStore.fullPath f "." = Ok (basePath f)
  ∧ (fault_now w = None →
     os.lookup_path (nodes w) (basePath f) = inr Directory →
     os.has_entries (nodes w) (basePath f) = false →
     FileSystemStore.Delete f ctx "." w
     = (None, with_nodes (delete (basePath f) (nodes w)) (log (CallRemove (basePath f)) w))
     ∧ ∀ ctx' input,
         ∃ cause,
           (FileSystemStore.List f ctx' input (FileSystemStore.Delete f ctx "." w).2).1
           = Err (fmt.Errorf_text_w "failed to list objects" cause)).
Proof.
  intros Hbase.
  assert (Hfull : FileSystemStore.fullPath f "." = Ok (basePath f)).
  { unfold FileSystemStore.fullPath. rewrite decide_False by done.
    change (filepath.Clean ".") with ".". cbn [HasPrefix orb].
    change (HasPrefix "." ".." || filepath.IsAbs ".") with false.
    by rewrite (Join_dot _ Hbase). }
  split; [done|]. intros Hnow Hroot Hempty.
  assert (Hdel : FileSystemStore.Delete f ctx "." w
            = (None, with_nodes (delete (basePath f) (nodes w))
                       (log (CallRemove (basePath f)) w))).
  { unfold FileSystemStore.Delete. rewrite Hfull. run_io.
    unfold os.Remove. by rewrite Hnow, Hroot, Hempty. }
  split; [done|]. intros ctx' input. rewrite Hdel. cbn [snd].
  unfold FileSystemStore.List, FileSystemStore.List_collect. run_io.
  unfold os.Stat.
  destruct (fault_now (with_nodes _ _)) as [flt|]; run_io; [by eexists|].
  unfold os.lookup_path.
  destruct (os.through _ _) as [e|]; run_io; [by eexists|].
  rewrite lookup_delete_eq. run_io. by eexists.
Qed.

(** The theorem at work on the store just made. *)
Lemma dot_key_is_the_root_witness :
  FileSystemStore.Delete blobs Background "." fresh_store
  = (None, with_nodes (delete "/srv/blobs" (nodes fresh_store))
             (log (CallRemove "/srv/blobs") fresh_store)).
Proof.
  assert (Hbase : clean_absolute (basePath blobs)).
  { split; vm_compute; reflexivity. }
  assert (Hnow : fault_now fresh_store = None) by (vm_compute; reflexivity).
  assert (Hroot : os.lookup_path (nodes fresh_store) (basePath blobs) = inr Directory)
    by (vm_compute; reflexivity).
  assert (Hempty : os.has_entries (nodes fresh_store) (basePath blobs) = false)
    by (vm_compute; reflexivity).
  exact (proj1 (proj2 (dot_key_is_the_root blobs Background fresh_store Hbase)
                  Hnow Hroot Hempty)).
Defined.

(** X14.  [Download] under a context that is cancelled already.  It
    always returns an error with 0 bytes and the sink as it was, and leaves
    the file tree alone; when the key's path could be opened, the error is
    the context's. *)
Theorem cancelled_download_writes_nothing f ctx key sink w :
  cancelled ctx w →
  (∃ e, (FileSystemStore.Download f ctx key sink w).1 = (0, Some e, sink))
  ∧ nodes (FileSystemStore.Download f ctx key sink w).2 = nodes w
  ∧ (∀ full n, FileSystemStore.fullPath f key = Ok full →
       fault_now w = None → os.lookup_path (nodes w) full = inr n →
       (FileSystemStore.Download f ctx key sink w).1
       = (0, Some (Sentinel (if by_deadline ctx then DeadlineExceeded else Canceled)),
          sink)).
Proof.
  intros Hcancel. unfold FileSystemStore.Download.
  destruct (FileSystemStore.fullPath f key) as [full|e]; run_io.
  2:{ split; [by eexists|]. done. }
  unfold os.Open.
  assert (Hctx : ctx_Err ctx (clock (log (CallOpen full) w))
                 = Some (Sentinel (if by_deadline ctx then DeadlineExceeded else Canceled))).
  { apply (ctx_Err_cancelled ctx w); [done|]. unfold clock. simpl.
    rewrite length_app. lia. }
  destruct (fault_now w) as [flt|]; run_io.
  { destruct (errno flt); run_io; (split; [by eexists|]); (split; [done|]);
      by intros ? ? _ [=]. }
  destruct (os.lookup_path (nodes w) full) as [e|n] eqn:Hl; run_io.
  { destruct e; run_io; (split; [by eexists|]); (split; [done|]);
      intros ? ? [= <-] _ Hl'; congruence. }
  rewrite Hctx. run_io.
  destruct (os.Close full (log (CallOpen full) w)) as [ec wc] eqn:HC.
  apply Close_inv in HC as (_ & Hn). run_io.
  split; [by eexists|]. split; [done|]. done.
Qed.

(** The theorem at work on a stored object. *)
Lemma cancelled_download_writes_nothing_witness :
  ∃ e, (FileSystemStore.Download blobs already_cancelled "a/1" NewWriteAtBuffer
          five_objects).1 = (0, Some e, NewWriteAtBuffer).
Proof.
  assert (Hcancel : cancelled already_cancelled five_objects).
  { exists 0%nat. split; [reflexivity|lia]. }
  exact (proj1 (cancelled_download_writes_nothing blobs already_cancelled "a/1"
                  NewWriteAtBuffer five_objects Hcancel)).
Defined.


